(** * Floor-plan editor: geometry kernel, grid snapper, unit converter and
      spring-network solver of [frontend/lib/editor/editorUtils.ts].

    Numbers.  A JavaScript [number] is modelled by an exact rational [Q];
    two numbers are the same when they are [==] (the meaning of [===] on
    finite numbers).  Rounding error, overflow, [NaN] and the infinities of
    IEEE doubles are outside this model; a quotient is only relied upon
    where its divisor is non-zero, and [js_div] tells what the code's
    quotient is where it is not.

    Objects.  Bounding boxes are JavaScript objects: a variable or a field
    of type [BoundingBox] holds a reference.  The solver part of this file
    therefore works over an explicit object store (a list indexed by
    address) and a working [Map] from room ids to references, so that
    aliasing between the caller's objects and the solver's working set is
    visible.  The geometry kernel is pure and works on values. *)

From Stdlib Require Import String QArith Qround Qabs Lqa Lia ZArith List Bool.
Import ListNotations.
Open Scope Q_scope.

(** ** Math.* primitives *)

Definition Qlt_bool (a b : Q) : bool := negb (Qle_bool b a).

Definition Math_max (a b : Q) : Q := if Qle_bool a b then b else a.
Definition Math_min (a b : Q) : Q := if Qle_bool a b then a else b.

(** [Math.round]: nearest integer, halves towards plus infinity. *)
Definition Math_round (v : Q) : Q := inject_Z (Qfloor (v + (1 # 2))).

(** [Math.min(...xs)] and [Math.max(...xs)] on a non-empty spread. *)
Definition Math_min_list (v : Q) (vs : list Q) : Q := fold_left Math_min vs v.
Definition Math_max_list (v : Q) (vs : list Q) : Q := fold_left Math_max vs v.

(** ** Quotients

    [a / b] as JavaScript computes it for numbers [a] and [b] of the model:
    [NaN] for 0 / 0, an infinity for another dividend over 0, the quotient
    otherwise.  In [Q] a quotient by 0 is 0: where the code divides by
    something that can be 0 ([snapToGrid] by the grid size,
    [findAdjacentRooms] by a height or a width) the definitions below
    compute what the code computes only as long as the quotient is
    [Finite]. *)
Inductive JsQuotient := NaN | Infinity | Finite (q : Q).

Definition js_div (a b : Q) : JsQuotient :=
  if Qeq_bool b 0 then (if Qeq_bool a 0 then NaN else Infinity)
  else Finite (a / b).

(** ** Data model (editorTypes) *)

Record Point := mkPoint { px : Q; py : Q }.

Record BoundingBox := mkBounds { x : Q; y : Q; width : Q; height : Q }.

Record GridConfig := mkGrid { size : Q; snapEnabled : bool; visible : bool }.

(** Field-wise numeric equality of two boxes. *)
Definition bounds_eq (a b : BoundingBox) : Prop :=
  x a == x b /\ y a == y b /\ width a == width b /\ height a == height b.

(** [v] is an integer multiple of the grid pitch [g]. *)
Definition multiple_of (g v : Q) : Prop := exists k : Z, v == inject_Z k * g.

(** ** Rooms, connections and JavaScript maps *)

(** Address of a [BoundingBox] object in the store. *)
Definition loc := nat.

Record EditorRoom := mkRoom {
  id : string;
  roomType : string;
  displayName : string;
  points : list Point;
  bounds : loc;
  fillColor : string;
  trainingColor : string;
  areaSqft : Q;
  widthInches : Q;
  heightInches : Q;
  isSelected : bool;
  isHovered : bool;
  isLocked : bool }.

Module Side.
Inductive t := left | right | top | bottom.
End Side.

Module Handle.
(** [HandlePosition]: a union of string literals. *)
Inductive t :=
  | top_left | top | top_right | right
  | bottom_right | bottom | bottom_left | left.

(** The string a position is at run time. *)
Definition name (h : t) : string :=
  match h with
  | top_left => "top-left" | top => "top" | top_right => "top-right"
  | right => "right" | bottom_right => "bottom-right" | bottom => "bottom"
  | bottom_left => "bottom-left" | left => "left"
  end.
End Handle.

Module ResizeHandle.
Record t := mk { position : Handle.t; x : Q; y : Q; cursor : string }.
End ResizeHandle.

Module DOMRect.
(** The two fields of a [DOMRect] the coordinate transforms read. *)
Record t := mk { left : Q; top : Q }.
End DOMRect.

Record ViewportState := mkViewport { zoom : Q; panX : Q; panY : Q }.

(** An entry of [sizeRanges]; a [RoomSize] is the string it is at run
    time. *)
Record SizeRange := mkSizeRange { rangeSize : string; min : Q; max : Q }.

(** [s.includes(sub)] *)
Definition String_includes (s sub : string) : bool :=
  match String.index 0 sub s with
  | Some _ => true
  | None => false
  end.

Record RoomConnection := mkConnection {
  roomId : string;
  side : Side.t;
  offset : Q }.

(** A JavaScript [Map] with string keys: entries in insertion order, [set]
    on a present key replaces the value in place, on an absent key appends. *)
Definition JsMap (V : Type) := list (string * V).

Fixpoint map_get {V} (m : JsMap V) (k : string) : option V :=
  match m with
  | [] => None
  | (k', v) :: m' => if String.eqb k' k then Some v else map_get m' k
  end.

Fixpoint map_set {V} (m : JsMap V) (k : string) (v : V) : JsMap V :=
  match m with
  | [] => [(k, v)]
  | (k', v') :: m' =>
      if String.eqb k' k then (k', v) :: m' else (k', v') :: map_set m' k v
  end.

Definition ConnectivityGraph := JsMap (list RoomConnection).

(** ** Object store *)

Definition Store := list BoundingBox.

(** Reading through a reference.  A reference held by the program always
    denotes an object; the zero box for an address outside the store only
    keeps the function total. *)
Definition deref (h : Store) (l : loc) : BoundingBox :=
  nth l h (mkBounds 0 0 0 0).

Fixpoint update (h : Store) (l : loc) (f : BoundingBox -> BoundingBox)
  : Store :=
  match h, l with
  | [], _ => []
  | b :: h', O => f b :: h'
  | b :: h', S l' => b :: update h' l' f
  end.

Record State := mkState {
  store : Store;
  workingBounds : JsMap loc }.

(** ** State-and-exception monad of the solver

    [None] is a thrown [TypeError]: the only source is a property read on
    the [undefined] that [Map.get] returns for an absent key. *)
Definition M (A : Type) := State -> option (A * State).

Definition ret {A} (a : A) : M A := fun s => Some (a, s).

Definition bind {A B} (m : M A) (f : A -> M B) : M B :=
  fun s => match m s with
           | Some (a, s') => f a s'
           | None => None
           end.

Declare Scope solver_scope.
Delimit Scope solver_scope with solver.
Notation "v <- c1 ;; c2" := (bind c1 (fun v => c2))
  (at level 100, c1 at next level, right associativity) : solver_scope.
Notation "c1 ;; c2" := (bind c1 (fun _ => c2))
  (at level 100, right associativity) : solver_scope.
Open Scope solver_scope.

(** [{ ...b }] or an object literal: a fresh object. *)
Definition alloc (b : BoundingBox) : M loc :=
  fun s => Some (length (store s),
                 mkState (store s ++ [b]) (workingBounds s)).

Definition load (l : loc) : M BoundingBox :=
  fun s => Some (deref (store s) l, s).

Definition getStore : M Store := fun s => Some (store s, s).

(** [l.x = v] and [l.y = v]. *)
Definition set_x (l : loc) (v : Q) : M unit :=
  fun s => Some (tt, mkState
    (update (store s) l (fun b => mkBounds v (y b) (width b) (height b)))
    (workingBounds s)).

Definition set_y (l : loc) (v : Q) : M unit :=
  fun s => Some (tt, mkState
    (update (store s) l (fun b => mkBounds (x b) v (width b) (height b)))
    (workingBounds s)).

(** [workingBounds.get(k)!] followed by a property read. *)
Definition wb_get (k : string) : M loc :=
  fun s => match map_get (workingBounds s) k with
           | Some l => Some (l, s)
           | None => None
           end.

Definition wb_set (k : string) (l : loc) : M unit :=
  fun s => Some (tt, mkState (store s) (map_set (workingBounds s) k l)).

Definition wb_keys : M (list string) :=
  fun s => Some (map fst (workingBounds s), s).

Fixpoint forEach {A} (l : list A) (body : A -> M unit) : M unit :=
  match l with
  | [] => ret tt
  | a :: l' => body a ;; forEach l' body
  end.

(** A loop that carries local variables [acc] through its iterations. *)
Fixpoint foldM {A B} (l : list A) (acc : B) (body : B -> A -> M B) : M B :=
  match l with
  | [] => ret acc
  | a :: l' => acc' <- body acc a ;; foldM l' acc' body
  end.

Fixpoint mapM {A B} (l : list A) (f : A -> M B) : M (list B) :=
  match l with
  | [] => ret []
  | a :: l' => b <- f a ;; bs <- mapM l' f ;; ret (b :: bs)
  end.

(** ** Geometry kernel and grid snapper

    [MIN_ROOM_SIZE] and [CANVAS_SIZE] are constants imported from
    [editorTypes]; they are parameters of the development. *)

Section Editor.

Variable MIN_ROOM_SIZE : Q.
Variable CANVAS_SIZE : Q.

(** For [gridSize = 0] the code's result is [NaN], whatever the value:
    the quotient is [NaN] or an infinity, and so is its product with 0. *)
Definition snapToGrid (value gridSize : Q) : Q :=
  Math_round (value / gridSize) * gridSize.

Definition snapBoundsToGrid (bounds : BoundingBox) (grid : GridConfig)
  : BoundingBox :=
  if negb (snapEnabled grid) then bounds
  else
    let x' := snapToGrid (x bounds) (size grid) in
    let y' := snapToGrid (y bounds) (size grid) in
    let right := snapToGrid (x bounds + width bounds) (size grid) in
    let bottom := snapToGrid (y bounds + height bounds) (size grid) in
    mkBounds x' y'
             (Math_max MIN_ROOM_SIZE (right - x'))
             (Math_max MIN_ROOM_SIZE (bottom - y')).

Definition getBoundingBox (points : list Point) : BoundingBox :=
  match points with
  | [] => mkBounds 0 0 0 0
  | p :: ps =>
      let minX := Math_min_list (px p) (map px ps) in
      let minY := Math_min_list (py p) (map py ps) in
      let maxX := Math_max_list (px p) (map px ps) in
      let maxY := Math_max_list (py p) (map py ps) in
      mkBounds minX minY (maxX - minX) (maxY - minY)
  end.

Definition boundsToPoints (bounds : BoundingBox) : list Point :=
  [ mkPoint (x bounds) (y bounds);
    mkPoint (x bounds + width bounds) (y bounds);
    mkPoint (x bounds + width bounds) (y bounds + height bounds);
    mkPoint (x bounds) (y bounds + height bounds) ].

Definition boundsOverlap (a b : BoundingBox) : bool :=
  negb (Qle_bool (x a + width a) (x b) ||
        Qle_bool (x b + width b) (x a) ||
        Qle_bool (y a + height a) (y b) ||
        Qle_bool (y b + height b) (y a)).

Definition boundsAdjacent (a b : BoundingBox) (tolerance : Q) : bool :=
  if boundsOverlap a b then false
  else
    let gapLeft := x a - (x b + width b) in
    let gapRight := x b - (x a + width a) in
    let gapTop := y a - (y b + height b) in
    let gapBottom := y b - (y a + height a) in
    let horizontalOverlap :=
      negb (Qle_bool (y a + height a) (y b) ||
            Qle_bool (y b + height b) (y a)) in
    let horizontallyAdjacent :=
      horizontalOverlap &&
      ((Qle_bool 0 gapLeft && Qle_bool gapLeft tolerance) ||
       (Qle_bool 0 gapRight && Qle_bool gapRight tolerance)) in
    let verticalOverlap :=
      negb (Qle_bool (x a + width a) (x b) ||
            Qle_bool (x b + width b) (x a)) in
    let verticallyAdjacent :=
      verticalOverlap &&
      ((Qle_bool 0 gapTop && Qle_bool gapTop tolerance) ||
       (Qle_bool 0 gapBottom && Qle_bool gapBottom tolerance)) in
    horizontallyAdjacent || verticallyAdjacent.

Definition getBoundsCenter (bounds : BoundingBox) : Point :=
  mkPoint (x bounds + width bounds / 2) (y bounds + height bounds / 2).

(** ** Unit converter *)

Definition pixelsToSqft (pixelArea canvasSize : Q) : Q :=
  let typicalHouseSqft := 2000 in
  let canvasArea := canvasSize * canvasSize in
  let scaleFactor := typicalHouseSqft / canvasArea in
  pixelArea * scaleFactor.

Definition sqftToPixels (sqft canvasSize : Q) : Q :=
  let typicalHouseSqft := 2000 in
  let canvasArea := canvasSize * canvasSize in
  let scaleFactor := canvasArea / typicalHouseSqft in
  sqft * scaleFactor.

Definition pixelsToInches (pixels canvasSize : Q) : Q :=
  let typicalWidthInches := 600 in
  (pixels / canvasSize) * typicalWidthInches.

(** Keeping a box inside the canvas, as the solver does after each snap:
    [b.x = Math.max(0, Math.min(CANVAS_SIZE - b.width, b.x))], then the same
    for [y]. *)
Definition clampX (b : BoundingBox) : Q :=
  Math_max 0 (Math_min (CANVAS_SIZE - width b) (x b)).
Definition clampY (b : BoundingBox) : Q :=
  Math_max 0 (Math_min (CANVAS_SIZE - height b) (y b)).

(** ** More of the geometry kernel *)

Definition snapPointToGrid (point : Point) (grid : GridConfig) : Point :=
  if negb (snapEnabled grid) then point
  else mkPoint (snapToGrid (px point) (size grid))
               (snapToGrid (py point) (size grid)).

(** [points[i]]; the index is in range wherever the code reads it. *)
Definition at_index (points : list Point) (i : nat) : Point :=
  nth i points (mkPoint 0 0).

(** Shoelace formula. *)
Definition calculatePolygonArea (points : list Point) : Q :=
  let n := length points in
  if (n <? 3)%nat then 0
  else
    let area :=
      fold_left (fun area i =>
        let j := ((i + 1) mod n)%nat in
        area + px (at_index points i) * py (at_index points j)
             - px (at_index points j) * py (at_index points i))
        (seq 0 n) 0 in
    Qabs area / 2.

Definition calculateCentroid (points : list Point) : Point :=
  match points with
  | [] => mkPoint 0 0
  | _ =>
      let sum :=
        fold_left (fun acc p => mkPoint (px acc + px p) (py acc + py p))
                  points (mkPoint 0 0) in
      let n := inject_Z (Z.of_nat (length points)) in
      mkPoint (px sum / n) (py sum / n)
  end.

(** Ray casting: [for (let i = 0, j = n - 1; i < n; j = i++)]. *)
Definition isPointInPolygon (point : Point) (polygon : list Point) : bool :=
  let n := length polygon in
  fst (fold_left (fun (st : bool * nat) i =>
         let '(inside, j) := st in
         let xi := px (at_index polygon i) in
         let yi := py (at_index polygon i) in
         let xj := px (at_index polygon j) in
         let yj := py (at_index polygon j) in
         if negb (Bool.eqb (Qlt_bool (py point) yi) (Qlt_bool (py point) yj))
            && Qlt_bool (px point)
                        ((xj - xi) * (py point - yi) / (yj - yi) + xi)
         then (negb inside, i)
         else (inside, i))
       (seq 0 n) (false, (n - 1)%nat)).

Definition isPointInBounds (point : Point) (bounds : BoundingBox) : bool :=
  Qle_bool (x bounds) (px point) &&
  Qle_bool (px point) (x bounds + width bounds) &&
  Qle_bool (y bounds) (py point) &&
  Qle_bool (py point) (y bounds + height bounds).

Definition movePolygon (points : list Point) (delta : Point) : list Point :=
  map (fun p => mkPoint (px p + px delta) (py p + py delta)) points.

Definition moveBounds (bounds : BoundingBox) (delta : Point) : BoundingBox :=
  mkBounds (x bounds + px delta) (y bounds + py delta)
           (width bounds) (height bounds).

(** ** Resize handles *)

Definition getResizeHandles (bounds : BoundingBox) : list ResizeHandle.t :=
  let halfW := width bounds / 2 in
  let halfH := height bounds / 2 in
  let x := x bounds in
  let y := y bounds in
  let width := width bounds in
  let height := height bounds in
  [ ResizeHandle.mk Handle.top_left x y "nwse-resize";
    ResizeHandle.mk Handle.top (x + halfW) y "ns-resize";
    ResizeHandle.mk Handle.top_right (x + width) y "nesw-resize";
    ResizeHandle.mk Handle.right (x + width) (y + halfH) "ew-resize";
    ResizeHandle.mk Handle.bottom_right (x + width) (y + height)
                    "nwse-resize";
    ResizeHandle.mk Handle.bottom (x + halfW) (y + height) "ns-resize";
    ResizeHandle.mk Handle.bottom_left x (y + height) "nesw-resize";
    ResizeHandle.mk Handle.left x (y + halfH) "ew-resize" ].

Definition resizeBounds (bounds : BoundingBox) (handle : Handle.t)
    (delta : Point) (grid : GridConfig) : BoundingBox :=
  let dx := px delta in
  let dy := py delta in
  let '(x1, y1, width1, height1) :=
    match handle with
    | Handle.top_left =>
        (x bounds + dx, y bounds + dy, width bounds - dx, height bounds - dy)
    | Handle.top =>
        (x bounds, y bounds + dy, width bounds, height bounds - dy)
    | Handle.top_right =>
        (x bounds, y bounds + dy, width bounds + dx, height bounds - dy)
    | Handle.right =>
        (x bounds, y bounds, width bounds + dx, height bounds)
    | Handle.bottom_right =>
        (x bounds, y bounds, width bounds + dx, height bounds + dy)
    | Handle.bottom =>
        (x bounds, y bounds, width bounds, height bounds + dy)
    | Handle.bottom_left =>
        (x bounds + dx, y bounds, width bounds - dx, height bounds + dy)
    | Handle.left =>
        (x bounds + dx, y bounds, width bounds - dx, height bounds)
    end in
  let '(x2, width2) :=
    if Qlt_bool width1 MIN_ROOM_SIZE then
      ((if String_includes (Handle.name handle) "left"
        then x bounds + width bounds - MIN_ROOM_SIZE else x1),
       MIN_ROOM_SIZE)
    else (x1, width1) in
  let '(y2, height2) :=
    if Qlt_bool height1 MIN_ROOM_SIZE then
      ((if String_includes (Handle.name handle) "top"
        then y bounds + height bounds - MIN_ROOM_SIZE else y1),
       MIN_ROOM_SIZE)
    else (y1, height1) in
  snapBoundsToGrid (mkBounds x2 y2 width2 height2) grid.

(** ** Coordinate transforms *)

Definition screenToCanvas (screenPoint : Point) (viewport : ViewportState)
    (canvasRect : DOMRect.t) : Point :=
  mkPoint
    ((px screenPoint - DOMRect.left canvasRect - panX viewport)
     / zoom viewport)
    ((py screenPoint - DOMRect.top canvasRect - panY viewport)
     / zoom viewport).

Definition canvasToScreen (canvasPoint : Point) (viewport : ViewportState)
    (canvasRect : DOMRect.t) : Point :=
  mkPoint
    (px canvasPoint * zoom viewport + panX viewport
     + DOMRect.left canvasRect)
    (py canvasPoint * zoom viewport + panY viewport
     + DOMRect.top canvasRect).

(** ** Size category *)

(** [sizeRanges[0]?.min] is [undefined] on an empty array, and a comparison
    with [undefined] is false. *)
Definition estimateSizeFromArea (areaSqft : Q) (sizeRanges : list SizeRange)
  : string :=
  match find (fun range => Qle_bool (min range) areaSqft &&
                           Qle_bool areaSqft (max range)) sizeRanges with
  | Some range => rangeSize range
  | None =>
      match sizeRanges with
      | first :: _ => if Qlt_bool areaSqft (min first) then "S" else "XL"
      | [] => "XL"
      end
  end.

(** ** Adjacency graph builder (reads the boxes of the rooms in store [h])

    The offset of a connection is a quotient by the room's height or
    width; [connectionOffsets] below gives the quotients as the code
    computes them. *)

Definition findAdjacentRooms (h : Store) (room : EditorRoom)
    (allRooms : list EditorRoom) (tolerance : Q) : list RoomConnection :=
  flat_map (fun other =>
    if String.eqb (id other) (id room) then []
    else
      let rb := deref h (bounds room) in
      let ob := deref h (bounds other) in
      if boundsAdjacent rb ob tolerance then
        let roomCenter := getBoundsCenter rb in
        let otherCenter := getBoundsCenter ob in
        let dx := px otherCenter - px roomCenter in
        let dy := py otherCenter - py roomCenter in
        if Qlt_bool (Qabs dy) (Qabs dx) then
          let side := if Qlt_bool 0 dx then Side.right else Side.left in
          let overlapTop := Math_max (y rb) (y ob) in
          let overlapBottom :=
            Math_min (y rb + height rb) (y ob + height ob) in
          let offset :=
            (((overlapTop + overlapBottom) / 2) - y rb) / height rb in
          [mkConnection (id other) side (Math_max 0 (Math_min 1 offset))]
        else
          let side := if Qlt_bool 0 dy then Side.bottom else Side.top in
          let overlapLeft := Math_max (x rb) (x ob) in
          let overlapRight :=
            Math_min (x rb + width rb) (x ob + width ob) in
          let offset :=
            (((overlapLeft + overlapRight) / 2) - x rb) / width rb in
          [mkConnection (id other) side (Math_max 0 (Math_min 1 offset))]
      else [])
    allRooms.

(** The quotient behind the [offset] of each connection of
    [findAdjacentRooms], as JavaScript computes it before
    [Math.max(0, Math.min(1, offset))], with the id of the connected
    room. *)
Definition connectionOffsets (h : Store) (room : EditorRoom)
    (allRooms : list EditorRoom) (tolerance : Q)
  : list (string * JsQuotient) :=
  flat_map (fun other =>
    if String.eqb (id other) (id room) then []
    else
      let rb := deref h (bounds room) in
      let ob := deref h (bounds other) in
      if boundsAdjacent rb ob tolerance then
        let roomCenter := getBoundsCenter rb in
        let otherCenter := getBoundsCenter ob in
        let dx := px otherCenter - px roomCenter in
        let dy := py otherCenter - py roomCenter in
        if Qlt_bool (Qabs dy) (Qabs dx) then
          let overlapTop := Math_max (y rb) (y ob) in
          let overlapBottom :=
            Math_min (y rb + height rb) (y ob + height ob) in
          [(id other,
            js_div (((overlapTop + overlapBottom) / 2) - y rb) (height rb))]
        else
          let overlapLeft := Math_max (x rb) (x ob) in
          let overlapRight :=
            Math_min (x rb + width rb) (x ob + width ob) in
          [(id other,
            js_div (((overlapLeft + overlapRight) / 2) - x rb) (width rb))]
      else [])
    allRooms.

Definition buildConnectivityGraph (h : Store) (rooms : list EditorRoom)
  : ConnectivityGraph :=
  fold_left
    (fun connections room =>
       map_set connections (id room) (findAdjacentRooms h room rooms 5))
    rooms [].

Definition calculateConnectedPosition (h : Store) (movedBounds : BoundingBox)
    (connectedRoom : EditorRoom) (connection : RoomConnection) : Point :=
  let cb := deref h (bounds connectedRoom) in
  match side connection with
  | Side.right =>
      mkPoint (x movedBounds + width movedBounds)
              (y movedBounds + (offset connection * height movedBounds)
               - (height cb / 2))
  | Side.left =>
      mkPoint (x movedBounds - width cb)
              (y movedBounds + (offset connection * height movedBounds)
               - (height cb / 2))
  | Side.bottom =>
      mkPoint (x movedBounds + (offset connection * width movedBounds)
               - (width cb / 2))
              (y movedBounds + height movedBounds)
  | Side.top =>
      mkPoint (x movedBounds + (offset connection * width movedBounds)
               - (width cb / 2))
              (y movedBounds - height cb)
  end.

Definition wouldCollide (h : Store) (roomId : string)
    (newBounds : BoundingBox) (allRooms : list EditorRoom) : bool :=
  existsb (fun other =>
    negb (String.eqb (id other) roomId) &&
    boundsOverlap newBounds (deref h (bounds other))) allRooms.

(** ** Spring-network solver *)

(** [snapBoundsToGrid] on references: the argument object itself when
    snapping is off, a fresh object literal otherwise. *)
Definition snapBoundsToGridRef (bounds : loc) (grid : GridConfig) : M loc :=
  if negb (snapEnabled grid) then ret bounds
  else b <- load bounds ;; alloc (snapBoundsToGrid b grid).

(** [b.x = Math.max(0, Math.min(CANVAS_SIZE - b.width, b.x));] and the
    same assignment to [b.y]. *)
Definition keepWithinCanvas (l : loc) : M unit :=
  b <- load l ;;
  set_x l (clampX b) ;;
  b' <- load l ;;
  set_y l (clampY b').

(** Value of a box after the two canvas clamps, and after
    [snapBoundsToGrid] followed by them. *)
Definition clampBox (b : BoundingBox) : BoundingBox :=
  mkBounds (clampX b) (clampY b) (width b) (height b).

Definition snapClamp (b : BoundingBox) (grid : GridConfig) : BoundingBox :=
  clampBox (snapBoundsToGrid b grid).

(** One overlapping pair of the repulsion pass: the contribution of
    [otherBounds] to the accumulated [(adjustX, adjustY)] of [bounds].
    The source also computes [dist = Math.sqrt(dx*dx + dy*dy) || 1] here
    and never reads it. *)
Definition repulsionPush (bounds otherBounds : BoundingBox)
    (adjust : Q * Q) : Q * Q :=
  let '(adjustX, adjustY) := adjust in
  let centerA := getBoundsCenter bounds in
  let centerB := getBoundsCenter otherBounds in
  let dx := px centerA - px centerB in
  let dy := py centerA - py centerB in
  let overlapX :=
    Math_min (x bounds + width bounds - x otherBounds)
             (x otherBounds + width otherBounds - x bounds) in
  let overlapY :=
    Math_min (y bounds + height bounds - y otherBounds)
             (y otherBounds + height otherBounds - y bounds) in
  if Qlt_bool overlapX overlapY then
    (adjustX + (if Qlt_bool 0 dx then 1 else -1) * (overlapX + 2), adjustY)
  else
    (adjustX, adjustY + (if Qlt_bool 0 dy then 1 else -1) * (overlapY + 2)).

Section Call.

Variable movedRoomId : string.
Variable newBounds : loc.
Variable rooms : list EditorRoom.
Variable grid : GridConfig.
Variable originalGraph : ConnectivityGraph.
Variable directConnections : list RoomConnection.

Definition findRoom (k : string) : option EditorRoom :=
  find (fun r => String.eqb (id r) k) rooms.

(** Pull of a connected room towards its ideal position relative to the
    anchor's working box, with the given spring strength. *)
Definition springStep (anchor : string) (room : EditorRoom)
    (connection : RoomConnection) (springStrength : Q) : M unit :=
  anchorBounds <- wb_get anchor ;;
  currentBounds <- wb_get (roomId connection) ;;
  h <- getStore ;;
  let cur := deref h currentBounds in
  let idealPos :=
    calculateConnectedPosition h (deref h anchorBounds) room connection in
  let newX := x cur + (px idealPos - x cur) * springStrength in
  let newY := y cur + (py idealPos - y cur) * springStrength in
  l <- alloc (mkBounds newX newY (width cur) (height cur)) ;;
  wb_set (roomId connection) l.

(** First pass: move connected rooms to maintain connections. *)
Definition attractionPass : M unit :=
  forEach directConnections (fun connection =>
    match findRoom (roomId connection) with
    | None => ret tt
    | Some connectedRoom =>
        if isLocked connectedRoom then ret tt
        else springStep movedRoomId connectedRoom connection (6 # 10)
    end).

(** Second pass: resolve overlaps.  The inner loop over the other rooms
    accumulates [(adjustX, adjustY)]. *)
Definition repulsionAdjust (room : EditorRoom) (bounds : loc) : M (Q * Q) :=
  foldM rooms (0, 0) (fun adjust other =>
    if String.eqb (id other) (id room) then ret adjust
    else
      otherBounds <- wb_get (id other) ;;
      b <- load bounds ;;
      ob <- load otherBounds ;;
      if boundsOverlap b ob then ret (repulsionPush b ob adjust)
      else ret adjust).

(** Body of the second pass's loop over the rooms. *)
Definition repulsionRoom (room : EditorRoom) : M unit :=
  if String.eqb (id room) movedRoomId then ret tt
  else if isLocked room then ret tt
  else
    bounds <- wb_get (id room) ;;
    adjust <- repulsionAdjust room bounds ;;
    let '(adjustX, adjustY) := adjust in
    if negb (Qeq_bool adjustX 0) || negb (Qeq_bool adjustY 0) then
      b <- load bounds ;;
      l <- alloc (mkBounds (x b + adjustX) (y b + adjustY)
                           (width b) (height b)) ;;
      wb_set (id room) l
    else ret tt.

Definition repulsionPass : M unit := forEach rooms repulsionRoom.

(** Third pass: rooms connected to the directly connected rooms. *)
Definition secondaryPass : M unit :=
  forEach directConnections (fun connection =>
    let secondaryConnections :=
      match map_get originalGraph (roomId connection) with
      | Some c => c
      | None => []
      end in
    forEach secondaryConnections (fun secondary =>
      if String.eqb (roomId secondary) movedRoomId then ret tt
      else
        match findRoom (roomId secondary) with
        | None => ret tt
        | Some secondaryRoom =>
            if isLocked secondaryRoom then ret tt
            else springStep (roomId connection) secondaryRoom secondary
                            (3 # 10)
        end)).

Definition solverIteration (iter : nat) : M unit :=
  attractionPass ;;
  repulsionPass ;;
  if (iter <? 3)%nat then secondaryPass else ret tt.

(** Callback of [workingBounds.forEach]: snap one working box and keep it
    within the canvas. *)
Definition snapEntry (roomId : string) : M unit :=
  bounds <- wb_get roomId ;;
  snapped <- snapBoundsToGridRef bounds grid ;;
  keepWithinCanvas snapped ;;
  wb_set roomId snapped.

(** [workingBounds.forEach]: no key is added or removed while iterating, so
    the entries visited are those of the key list taken at the start, each
    with the value it has when it is visited. *)
Definition snapAll : M unit :=
  keys <- wb_keys ;;
  forEach keys snapEntry.

(** One overlapping pair of the final resolution pass. *)
Definition cleanupPush (room : EditorRoom) (b ob : BoundingBox) : M unit :=
  let centerA := getBoundsCenter b in
  let centerB := getBoundsCenter ob in
  let overlapX :=
    Math_min (x b + width b - x ob) (x ob + width ob - x b) in
  let overlapY :=
    Math_min (y b + height b - y ob) (y ob + height ob - y b) in
  nb <- alloc b ;;
  (if Qlt_bool overlapX overlapY then
     v <- load nb ;;
     set_x nb (x v + (if Qlt_bool (px centerB) (px centerA) then 1 else -1)
                     * (overlapX + size grid))
   else
     v <- load nb ;;
     set_y nb (y v + (if Qlt_bool (py centerB) (py centerA) then 1 else -1)
                     * (overlapY + size grid))) ;;
  nb' <- snapBoundsToGridRef nb grid ;;
  keepWithinCanvas nb' ;;
  wb_set (id room) nb'.

(** Inner loop body of the final pass: [room] against [other]. *)
Definition cleanupPair (room : EditorRoom) (bounds : loc)
    (hasOverlap : bool) (other : EditorRoom) : M bool :=
  if String.eqb (id other) (id room) then ret hasOverlap
  else
    otherBounds <- wb_get (id other) ;;
    b <- load bounds ;;
    ob <- load otherBounds ;;
    if boundsOverlap b ob then cleanupPush room b ob ;; ret true
    else ret hasOverlap.

(** Outer loop body of the final pass. *)
Definition cleanupRoom (hasOverlap : bool) (room : EditorRoom) : M bool :=
  if String.eqb (id room) movedRoomId then ret hasOverlap
  else if isLocked room then ret hasOverlap
  else
    bounds <- wb_get (id room) ;;
    foldM rooms hasOverlap (cleanupPair room bounds).

(** Body of the [while]: returns the value of [hasOverlap] at its end. *)
Definition cleanupPass : M bool := foldM rooms false cleanupRoom.

(** [while (hasOverlap && safetyCounter < 10)]; returns the final values of
    the two loop variables.  [fuel] is the number of passes still allowed
    by the cap; it is [10 - safetyCounter] in every call. *)
Fixpoint cleanupLoop (fuel : nat) (hasOverlap : bool) (safetyCounter : nat)
  : M (bool * nat) :=
  match fuel with
  | O => ret (hasOverlap, safetyCounter)
  | S fuel' =>
      if hasOverlap && (safetyCounter <? 10)%nat then
        hasOverlap' <- cleanupPass ;;
        cleanupLoop fuel' hasOverlap' (S safetyCounter)
      else ret (hasOverlap, safetyCounter)
  end.

(** [rooms.map(...)]: apply all updates to rooms. *)
Definition updateRoom (room : EditorRoom) : M EditorRoom :=
  newRoomBounds <- wb_get (id room) ;;
  nb <- load newRoomBounds ;;
  rb <- load (bounds room) ;;
  if Qeq_bool (x nb) (x rb) && Qeq_bool (y nb) (y rb) &&
     Qeq_bool (width nb) (width rb) && Qeq_bool (height nb) (height rb)
  then ret room
  else
    let newPoints := boundsToPoints nb in
    ret (mkRoom (id room) (roomType room) (displayName room)
                newPoints newRoomBounds
                (fillColor room) (trainingColor room)
                (pixelsToSqft (width nb * height nb) CANVAS_SIZE)
                (pixelsToInches (width nb) CANVAS_SIZE)
                (pixelsToInches (height nb) CANVAS_SIZE)
                (isSelected room) (isHovered room) (isLocked room)).

Definition applyUpdates : M (list EditorRoom) := mapM rooms updateRoom.

End Call.

(** [rooms.forEach(r => workingBounds.set(r.id, { ...r.bounds }))] *)
Definition copyBounds (r : EditorRoom) : M unit :=
  b <- load (bounds r) ;; l <- alloc b ;; wb_set (id r) l.

(** Result of a call together with the final values of the cleanup loop's
    variables [hasOverlap] and [safetyCounter]. *)
Definition applySpringNetworkTraced (movedRoomId : string) (newBounds : loc)
    (rooms : list EditorRoom) (grid : GridConfig) (iterations : nat)
  : M (list EditorRoom * (bool * nat)) :=
  h0 <- getStore ;;
  let originalGraph := buildConnectivityGraph h0 rooms in
  forEach rooms copyBounds ;;
  wb_set movedRoomId newBounds ;;
  let directConnections :=
    match map_get originalGraph movedRoomId with
    | Some c => c
    | None => []
    end in
  forEach (seq 0 iterations)
    (solverIteration movedRoomId rooms originalGraph directConnections) ;;
  snapAll grid ;;
  final <- cleanupLoop movedRoomId rooms grid 10 true 0 ;;
  result <- applyUpdates rooms ;;
  ret (result, final).

Definition applySpringNetwork (movedRoomId : string) (newBounds : loc)
    (rooms : list EditorRoom) (grid : GridConfig) (iterations : nat)
  : M (list EditorRoom) :=
  r <- applySpringNetworkTraced movedRoomId newBounds rooms grid iterations ;;
  ret (fst r).

(** ** Placing a new room *)

(** Inner loop of [findNonOverlappingPosition]: the first room that
    [currentBounds] overlaps nudges it, and the loop breaks.  Returns
    [hasOverlap] and the object [currentBounds] refers to afterwards. *)
Fixpoint nudgeFirstOverlap (room : EditorRoom) (grid : GridConfig)
    (currentBounds : loc) (others : list EditorRoom) : M (bool * loc) :=
  match others with
  | [] => ret (false, currentBounds)
  | other :: rest =>
      if String.eqb (id other) (id room)
      then nudgeFirstOverlap room grid currentBounds rest
      else
        cb <- load currentBounds ;;
        ob <- load (bounds other) ;;
        if boundsOverlap cb ob then
          let centerA := getBoundsCenter cb in
          let centerB := getBoundsCenter ob in
          let overlapX :=
            Math_min (x cb + width cb - x ob) (x ob + width ob - x cb) in
          let overlapY :=
            Math_min (y cb + height cb - y ob) (y ob + height ob - y cb) in
          (if Qlt_bool overlapX overlapY then
             set_x currentBounds
               (x cb + (if Qlt_bool (px centerB) (px centerA) then 1 else -1)
                       * (overlapX + 2))
           else
             set_y currentBounds
               (y cb + (if Qlt_bool (py centerB) (py centerA) then 1 else -1)
                       * (overlapY + 2))) ;;
          currentBounds' <- snapBoundsToGridRef currentBounds grid ;;
          keepWithinCanvas currentBounds' ;;
          ret (true, currentBounds')
        else nudgeFirstOverlap room grid currentBounds rest
  end.

(** [for (let i = 0; i < maxIterations; i++)] with its
    [if (!hasOverlap) break]. *)
Fixpoint nudgeLoop (room : EditorRoom) (allRooms : list EditorRoom)
    (grid : GridConfig) (remaining : nat) (currentBounds : loc) : M loc :=
  match remaining with
  | O => ret currentBounds
  | S remaining' =>
      r <- nudgeFirstOverlap room grid currentBounds allRooms ;;
      let '(hasOverlap, currentBounds') := r in
      if hasOverlap
      then nudgeLoop room allRooms grid remaining' currentBounds'
      else ret currentBounds'
  end.

Definition findNonOverlappingPosition (room : EditorRoom)
    (desiredBounds : loc) (allRooms : list EditorRoom) (grid : GridConfig)
    (maxIterations : nat) : M loc :=
  d <- load desiredBounds ;;
  currentBounds <- alloc d ;;
  nudgeLoop room allRooms grid maxIterations currentBounds.

(** A call from the outside: the caller's objects are in [h]; the working
    map is created empty by the call and dropped at its end. *)
Definition call {A} (m : M A) (h : Store) : option (A * Store) :=
  match m (mkState h []) with
  | Some (a, s) => Some (a, store s)
  | None => None
  end.

(** ** Specification predicates *)

(** The open rectangle of a box. *)
Definition inInterior (p : Point) (b : BoundingBox) : Prop :=
  x b < px p /\ px p < x b + width b /\
  y b < py p /\ py p < y b + height b.

Definition interiorsIntersect (a b : BoundingBox) : Prop :=
  exists p, inInterior p a /\ inInterior p b.

(** One box ends exactly where the other begins, on some axis. *)
Definition edgeTouching (a b : BoundingBox) : Prop :=
  x a + width a == x b \/ x b + width b == x a \/
  y a + height a == y b \/ y b + height b == y a.

(** The side on which the second room sees the first, when the first sees
    the second on side [s]. *)
Definition oppositeSide (s : Side.t) : Side.t :=
  match s with
  | Side.left => Side.right
  | Side.right => Side.left
  | Side.top => Side.bottom
  | Side.bottom => Side.top
  end.

(** Sum of a list of numbers, to state what the accumulating loops
    compute. *)
Fixpoint sumQ (l : list Q) : Q :=
  match l with
  | [] => 0
  | v :: l' => v + sumQ l'
  end.

(** The box the working map holds for an id (the zero box for an absent
    id). *)
Definition workingBox (s : State) (k : string) : BoundingBox :=
  match map_get (workingBounds s) k with
  | Some l => deref (store s) l
  | None => mkBounds 0 0 0 0
  end.

(** The working boxes of the rooms with another id than [room] that overlap
    the box [b], in the order of the list. *)
Definition overlapping (s : State) (rooms : list EditorRoom)
    (room : EditorRoom) (b : BoundingBox) : list BoundingBox :=
  map (fun other => workingBox s (id other))
      (filter (fun other =>
                 negb (String.eqb (id other) (id room)) &&
                 boundsOverlap b (workingBox s (id other)))
              rooms).

(** The box [b] after the push of the final loop away from [ob], before it
    is snapped and kept within the canvas. *)
Definition finalPush (grid : GridConfig) (b ob : BoundingBox)
  : BoundingBox :=
  let centerA := getBoundsCenter b in
  let centerB := getBoundsCenter ob in
  let overlapX :=
    Math_min (x b + width b - x ob) (x ob + width ob - x b) in
  let overlapY :=
    Math_min (y b + height b - y ob) (y ob + height ob - y b) in
  if Qlt_bool overlapX overlapY then
    mkBounds (x b + (if Qlt_bool (px centerB) (px centerA) then 1 else -1)
                    * (overlapX + size grid))
             (y b) (width b) (height b)
  else
    mkBounds (x b)
             (y b + (if Qlt_bool (py centerB) (py centerA) then 1 else -1)
                    * (overlapY + size grid))
             (width b) (height b).

(** ** Invariants of one solver call

    [Movable k]: the passes may redirect the working entry of [k].  Every
    other entry keeps its object from the initial copy to the snap stage,
    and from the snap stage to the end. *)

Section InvariantDefinitions.

Variable movedRoomId : string.
Variable rooms : list EditorRoom.

Definition Movable (k : string) : Prop :=
  k <> movedRoomId /\
  exists r, In r rooms /\ id r = k /\ isLocked r = false.

(** Every key the passes look up is present. *)
Record Keys (s : State) : Prop := {
  keys_rooms : forall r, In r rooms ->
    map_get (workingBounds s) (id r) <> None;
  keys_moved : map_get (workingBounds s) movedRoomId <> None }.

(** The working entries denote pairwise distinct objects of the store. *)
Record Sep (s : State) : Prop := {
  sep_keys : NoDup (map fst (workingBounds s));
  sep_valid : forall k l, map_get (workingBounds s) k = Some l ->
    (l < length (store s))%nat;
  sep_inj : forall k1 k2 l,
    map_get (workingBounds s) k1 = Some l ->
    map_get (workingBounds s) k2 = Some l -> k1 = k2 }.

(** What a pass may do to the state: allocate, and redirect movable
    entries to objects it has allocated. *)
Record Rel (s s' : State) : Prop := {
  rel_prefix : exists ext, store s' = store s ++ ext;
  rel_protected : forall k, ~ Movable k ->
    map_get (workingBounds s') k = map_get (workingBounds s) k;
  rel_new : forall k l, map_get (workingBounds s') k = Some l ->
    map_get (workingBounds s) k = Some l \/ (length (store s) <= l)%nat }.

(** [m] runs to completion from every state with the keys present, and
    respects [Rel] and [Sep]. *)
Definition ok {A} (m : M A) : Prop :=
  forall s, Keys s ->
    exists a s', m s = Some (a, s') /\ Keys s' /\ Rel s s' /\
                 (Sep s -> Sep s').

(** No unlocked room other than the moved one overlaps another room, in
    the working boxes of [s]: what a pass of the final loop checks. *)
Definition Clean (s : State) : Prop :=
  forall room, In room rooms ->
    id room <> movedRoomId -> isLocked room = false ->
  forall other, In other rooms -> id other <> id room ->
  exists lb lo,
    map_get (workingBounds s) (id room) = Some lb /\
    map_get (workingBounds s) (id other) = Some lo /\
    boundsOverlap (deref (store s) lb) (deref (store s) lo) = false.

(** How a room of the result relates to the room it comes from and to the
    working box [l] of its id. *)
Definition Updated (s : State) (room room' : EditorRoom) : Prop :=
  id room' = id room /\ isLocked room' = isLocked room /\
  exists l,
    map_get (workingBounds s) (id room) = Some l /\
    bounds_eq (deref (store s) (bounds room')) (deref (store s) l) /\
    (bounds_eq (deref (store s) l) (deref (store s) (bounds room)) ->
     room' = room).

End InvariantDefinitions.

(** [cur] is an object allocated since the store was [h], and the objects
    of [h] are as they were. *)
Definition Owned (h : Store) (cur : loc) (s : State) : Prop :=
  (exists ext, store s = h ++ ext) /\
  (length h <= cur < length (store s))%nat.

(** Every working box is a box as the snap stage leaves one: snapped to the
    grid and kept within the canvas. *)
Definition Boxed (grid : GridConfig) (s : State) : Prop :=
  forall k l, map_get (workingBounds s) k = Some l ->
    exists b0, deref (store s) l = snapClamp b0 grid.

(** ** Sample data for the examples *)

Definition sampleRoom (i : string) (l : loc) (locked : bool) : EditorRoom :=
  mkRoom i "room" "Room" [] l "#cccccc" "#cccccc" 0 0 0 false false locked.

Definition grid10 : GridConfig := mkGrid 10 true true.
Definition grid15 : GridConfig := mkGrid 15 true true.
Definition gridOff : GridConfig := mkGrid 10 false true.

(** * Facts *)

(** ** Comparisons and [Math.*] *)

Lemma Qle_bool_spec (a b : Q) : reflect (a <= b) (Qle_bool a b).
Proof.
  destruct (Qle_bool a b) eqn:E; constructor.
  - now apply Qle_bool_iff.
  - intro H. apply Qle_bool_iff in H. congruence.
Qed.

Lemma Qlt_bool_spec (a b : Q) : reflect (a < b) (Qlt_bool a b).
Proof.
  unfold Qlt_bool. destruct (Qle_bool_spec b a); constructor; lra.
Qed.

Lemma Qeq_bool_spec (a b : Q) : reflect (a == b) (Qeq_bool a b).
Proof.
  destruct (Qeq_bool a b) eqn:E; constructor.
  - now apply Qeq_bool_iff.
  - intro H. apply Qeq_bool_iff in H. congruence.
Qed.

(** [lra] with halves: [v / 2] is [v * (1 # 2)]. *)
Ltac qlra := unfold Qdiv in *; change (/ 2) with (1 # 2) in *; lra.

Ltac qcases :=
  repeat match goal with
  | |- context [Qle_bool ?a ?b] => destruct (Qle_bool_spec a b)
  | |- context [Qlt_bool ?a ?b] => destruct (Qlt_bool_spec a b)
  | |- context [Qeq_bool ?a ?b] => destruct (Qeq_bool_spec a b)
  | H : context [Qle_bool ?a ?b] |- _ => destruct (Qle_bool_spec a b)
  | H : context [Qlt_bool ?a ?b] |- _ => destruct (Qlt_bool_spec a b)
  | H : context [Qeq_bool ?a ?b] |- _ => destruct (Qeq_bool_spec a b)
  end.

Lemma Math_max_cases (a b : Q) :
  (a <= b /\ Math_max a b = b) \/ (b < a /\ Math_max a b = a).
Proof. unfold Math_max. destruct (Qle_bool_spec a b); [left|right]; split; auto; lra. Qed.

Lemma Math_min_cases (a b : Q) :
  (a <= b /\ Math_min a b = a) \/ (b < a /\ Math_min a b = b).
Proof. unfold Math_min. destruct (Qle_bool_spec a b); [left|right]; split; auto; lra. Qed.

Lemma Math_max_lb_l (a b : Q) : a <= Math_max a b.
Proof. destruct (Math_max_cases a b) as [[? ->]|[? ->]]; lra. Qed.

Lemma multiple_of_snapToGrid (v g : Q) : multiple_of g (snapToGrid v g).
Proof. unfold multiple_of, snapToGrid, Math_round. eexists. reflexivity. Qed.

Lemma multiple_of_plus (g a b : Q) :
  multiple_of g a -> multiple_of g b -> multiple_of g (a + b).
Proof.
  intros [k Hk] [j Hj]. exists (k + j)%Z.
  rewrite Hk, Hj, inject_Z_plus. ring.
Qed.

Lemma multiple_of_minus (g a b : Q) :
  multiple_of g a -> multiple_of g b -> multiple_of g (a - b).
Proof.
  intros [k Hk] [j Hj]. exists (k - j)%Z.
  rewrite Hk, Hj. unfold Z.sub. rewrite inject_Z_plus, inject_Z_opp. ring.
Qed.

Lemma multiple_of_eq (g a b : Q) : a == b -> multiple_of g a -> multiple_of g b.
Proof. intros E [k Hk]. exists k. now rewrite <- E. Qed.

(** ** Geometry kernel *)

Lemma boundsOverlap_true_iff (a b : BoundingBox) :
  boundsOverlap a b = true <->
  x b < x a + width a /\ x a < x b + width b /\
  y b < y a + height a /\ y a < y b + height b.
Proof.
  unfold boundsOverlap. split.
  - intro H. qcases; simpl in H; try discriminate; repeat split; lra.
  - intros (H1 & H2 & H3 & H4). qcases; simpl; try reflexivity; lra.
Qed.

Lemma boundsOverlap_sym (a b : BoundingBox) :
  boundsOverlap a b = boundsOverlap b a.
Proof.
  unfold boundsOverlap.
  destruct (Qle_bool (x a + width a) (x b)), (Qle_bool (x b + width b) (x a)),
    (Qle_bool (y a + height a) (y b)), (Qle_bool (y b + height b) (y a));
    reflexivity.
Qed.

(** C5: two boxes that overlap are never adjacent, whatever the
    tolerance: [boundsAdjacent] returns [false] as soon as [boundsOverlap]
    holds. *)
Theorem overlap_excludes_adjacent (a b : BoundingBox) (tolerance : Q) :
  boundsOverlap a b = true -> boundsAdjacent a b tolerance = false.
Proof. intro H. unfold boundsAdjacent. now rewrite H. Qed.

(** C8 (amended): for boxes of positive width and height, [boundsOverlap]
    is true exactly when the two open rectangles share a point; and for all
    boxes, edge-touching gives [false]. *)
Theorem boundsOverlap_iff_interiors (a b : BoundingBox) :
  0 < width a -> 0 < height a -> 0 < width b -> 0 < height b ->
  (boundsOverlap a b = true <-> interiorsIntersect a b) /\
  (edgeTouching a b -> boundsOverlap a b = false).
Proof.
  intros Hwa Hha Hwb Hhb. split; [split|].
  - intro H. apply boundsOverlap_true_iff in H.
    destruct H as (H1 & H2 & H3 & H4).
    exists (mkPoint
      ((Math_max (x a) (x b) + Math_min (x a + width a) (x b + width b)) / 2)
      ((Math_max (y a) (y b) + Math_min (y a + height a) (y b + height b)) / 2)).
    unfold inInterior; cbn [px py].
    destruct (Math_max_cases (x a) (x b)) as [[? ->]|[? ->]];
    destruct (Math_min_cases (x a + width a) (x b + width b)) as [[? ->]|[? ->]];
    destruct (Math_max_cases (y a) (y b)) as [[? ->]|[? ->]];
    destruct (Math_min_cases (y a + height a) (y b + height b)) as [[? ->]|[? ->]];
    repeat split; qlra.
  - intros [p [(A1 & A2 & A3 & A4) (B1 & B2 & B3 & B4)]].
    apply boundsOverlap_true_iff. repeat split; lra.
  - intro H. destruct (boundsOverlap a b) eqn:E; [|reflexivity].
    apply boundsOverlap_true_iff in E. unfold edgeTouching in H. lra.
Qed.

(** An interior point of both boxes forces [boundsOverlap], for all boxes. *)
Lemma interiors_give_overlap (a b : BoundingBox) :
  interiorsIntersect a b -> boundsOverlap a b = true.
Proof.
  intros [p [(A1 & A2 & A3 & A4) (B1 & B2 & B3 & B4)]].
  apply boundsOverlap_true_iff. repeat split; lra.
Qed.

(** C10: the bounding box of the four corners of a box with non-negative
    width and height is that box. *)
Theorem getBoundingBox_boundsToPoints (b : BoundingBox) :
  0 <= width b -> 0 <= height b ->
  bounds_eq (getBoundingBox (boundsToPoints b)) b.
Proof.
  intros Hw Hh. unfold bounds_eq, getBoundingBox, boundsToPoints,
    Math_min_list, Math_max_list; simpl.
  unfold Math_min, Math_max. qcases; repeat split; lra.
Qed.

(** ** Unit converter *)

(** C6: square feet to pixel area and back, and pixel area to square feet
    and back, give the starting value, at any non-zero canvas size. *)
Theorem sqft_pixels_roundtrip (v : Q) :
  0 < CANVAS_SIZE ->
  pixelsToSqft (sqftToPixels v CANVAS_SIZE) CANVAS_SIZE == v /\
  sqftToPixels (pixelsToSqft v CANVAS_SIZE) CANVAS_SIZE == v.
Proof.
  intro Hc. unfold pixelsToSqft, sqftToPixels.
  split; field; lra.
Qed.

(** ** Grid snapper *)

(** C7 (amended): with snapping on, the near corner is on the grid and both
    extents are at least [MIN_ROOM_SIZE]; the far corner is on the grid on
    each axis where the snapped extent is not raised to [MIN_ROOM_SIZE], and
    on both when [MIN_ROOM_SIZE] is itself a multiple of the pitch.  With
    snapping off the box is returned as it is. *)
Theorem snapBoundsToGrid_spec (b : BoundingBox) (g : GridConfig) :
  0 < size g ->
  (snapEnabled g = true ->
   let s := snapBoundsToGrid b g in
   multiple_of (size g) (x s) /\ multiple_of (size g) (y s) /\
   MIN_ROOM_SIZE <= width s /\ MIN_ROOM_SIZE <= height s /\
   (MIN_ROOM_SIZE <=
      snapToGrid (x b + width b) (size g) - snapToGrid (x b) (size g) ->
    multiple_of (size g) (x s + width s)) /\
   (MIN_ROOM_SIZE <=
      snapToGrid (y b + height b) (size g) - snapToGrid (y b) (size g) ->
    multiple_of (size g) (y s + height s)) /\
   (multiple_of (size g) MIN_ROOM_SIZE ->
    multiple_of (size g) (x s + width s) /\
    multiple_of (size g) (y s + height s))) /\
  (snapEnabled g = false -> snapBoundsToGrid b g = b).
Proof.
  intros _. split.
  - intros E s. subst s. unfold snapBoundsToGrid. rewrite E. simpl.
    pose proof (multiple_of_snapToGrid (x b) (size g)) as Mx.
    pose proof (multiple_of_snapToGrid (y b) (size g)) as My.
    pose proof (multiple_of_snapToGrid (x b + width b) (size g)) as Mr.
    pose proof (multiple_of_snapToGrid (y b + height b) (size g)) as Mb.
    repeat split; auto using Math_max_lb_l.
    + intro H. destruct (Math_max_cases MIN_ROOM_SIZE
        (snapToGrid (x b + width b) (size g) - snapToGrid (x b) (size g)))
        as [[? ->]|[? ->]].
      * eapply multiple_of_eq; [|exact Mr]. ring.
      * lra.
    + intro H. destruct (Math_max_cases MIN_ROOM_SIZE
        (snapToGrid (y b + height b) (size g) - snapToGrid (y b) (size g)))
        as [[? ->]|[? ->]].
      * eapply multiple_of_eq; [|exact Mb]. ring.
      * lra.
    + destruct (Math_max_cases MIN_ROOM_SIZE
        (snapToGrid (x b + width b) (size g) - snapToGrid (x b) (size g)))
        as [[? ->]|[? ->]].
      * eapply multiple_of_eq; [|exact Mr]. ring.
      * now apply multiple_of_plus.
    + destruct (Math_max_cases MIN_ROOM_SIZE
        (snapToGrid (y b + height b) (size g) - snapToGrid (y b) (size g)))
        as [[? ->]|[? ->]].
      * eapply multiple_of_eq; [|exact Mb]. ring.
      * now apply multiple_of_plus.
  - intro E. unfold snapBoundsToGrid. now rewrite E.
Qed.

(** ** JavaScript maps *)

Lemma map_get_set_same {V} (m : JsMap V) k v :
  map_get (map_set m k v) k = Some v.
Proof.
  induction m as [|[k' v'] m IH]; simpl.
  - now rewrite String.eqb_refl.
  - destruct (String.eqb k' k) eqn:E; simpl; rewrite E; auto.
Qed.

Lemma map_get_set_other {V} (m : JsMap V) k v k' :
  k <> k' -> map_get (map_set m k v) k' = map_get m k'.
Proof.
  intro N. induction m as [|[k0 v0] m IH]; simpl.
  - destruct (String.eqb_spec k k'); congruence.
  - destruct (String.eqb_spec k0 k); simpl.
    + subst. destruct (String.eqb_spec k k'); congruence.
    + now rewrite IH.
Qed.

Lemma map_get_In_keys {V} (m : JsMap V) k :
  map_get m k <> None <-> In k (map fst m).
Proof.
  induction m as [|[k0 v0] m IH]; simpl.
  - split; [congruence | tauto].
  - destruct (String.eqb_spec k0 k).
    + split; [auto | congruence].
    + rewrite IH. split; [auto | intros [?|?]; [congruence | auto]].
Qed.

Lemma map_set_keys {V} (m : JsMap V) k v :
  map_get m k <> None -> map fst (map_set m k v) = map fst m.
Proof.
  induction m as [|[k0 v0] m IH]; simpl.
  - congruence.
  - destruct (String.eqb_spec k0 k); simpl; intro H.
    + reflexivity.
    + now rewrite IH.
Qed.

Lemma map_set_keys_new {V} (m : JsMap V) k v :
  map_get m k = None -> map fst (map_set m k v) = map fst m ++ [k].
Proof.
  induction m as [|[k0 v0] m IH]; simpl.
  - reflexivity.
  - destruct (String.eqb_spec k0 k); simpl; intro H.
    + discriminate.
    + now rewrite IH.
Qed.

Lemma map_set_present {V} (m : JsMap V) k v k' :
  map_get m k' <> None -> map_get (map_set m k v) k' <> None.
Proof.
  intro H. destruct (String.eqb_spec k k').
  - subst. rewrite map_get_set_same. discriminate.
  - now rewrite map_get_set_other.
Qed.

Lemma map_set_NoDup {V} (m : JsMap V) k v :
  NoDup (map fst m) -> NoDup (map fst (map_set m k v)).
Proof.
  intro H. destruct (map_get m k) eqn:E.
  - rewrite map_set_keys; [auto | congruence].
  - rewrite map_set_keys_new by auto.
    apply NoDup_app; [exact H | repeat constructor; simpl; tauto |].
    intros a Ha [<-|[]].
    apply map_get_In_keys in Ha. congruence.
Qed.

Lemma map_set_same_value {V} (m : JsMap V) k v :
  map_get m k = Some v -> map_set m k v = m.
Proof.
  induction m as [|[k0 v0] m IH]; simpl.
  - discriminate.
  - destruct (String.eqb_spec k0 k); intro H.
    + congruence.
    + now rewrite IH.
Qed.

(** ** Object store *)

Lemma deref_app_old (h ext : Store) l :
  (l < length h)%nat -> deref (h ++ ext) l = deref h l.
Proof. intro H. unfold deref. now rewrite app_nth1. Qed.

Lemma deref_app_new (h : Store) b :
  deref (h ++ [b]) (length h) = b.
Proof. unfold deref. rewrite app_nth2, Nat.sub_diag by lia. reflexivity. Qed.

Lemma update_length (h : Store) l f : length (update h l f) = length h.
Proof.
  revert l. induction h as [|b h IH]; intros [|l]; simpl; auto.
Qed.

Lemma deref_update_same (h : Store) l f :
  (l < length h)%nat -> deref (update h l f) l = f (deref h l).
Proof.
  revert l. induction h as [|b h IH]; intros [|l]; simpl; intro H;
    try lia; auto.
  apply IH. lia.
Qed.

Lemma deref_update_other (h : Store) l f l' :
  l <> l' -> deref (update h l f) l' = deref h l'.
Proof.
  revert l l'. induction h as [|b h IH]; intros [|l] [|l'] N; simpl;
    try congruence; auto.
  apply IH. congruence.
Qed.

Lemma update_app_old (h ext : Store) l f :
  (l < length h)%nat -> update (h ++ ext) l f = update h l f ++ ext.
Proof.
  revert l. induction h as [|b h IH]; intros [|l]; simpl; intro H;
    try lia; auto.
  now rewrite IH by lia.
Qed.

Lemma update_app_new (h ext : Store) l f :
  (length h <= l)%nat ->
  update (h ++ ext) l f = h ++ update ext (l - length h)%nat f.
Proof.
  revert l. induction h as [|b h IH]; intros l H; simpl in *.
  - now rewrite Nat.sub_0_r.
  - destruct l as [|l]; [lia|]. simpl. now rewrite IH by lia.
Qed.

Lemma update_last (h : Store) b f :
  update (h ++ [b]) (length h) f = h ++ [f b].
Proof. rewrite update_app_new, Nat.sub_diag by lia. reflexivity. Qed.

(** ** The passes preserve the invariants *)

Section Invariants.

Variable movedRoomId : string.
Variable rooms : list EditorRoom.
Variable grid : GridConfig.

Local Abbreviation Movable := (Movable movedRoomId rooms).
Local Abbreviation Keys := (Keys movedRoomId rooms).
Local Abbreviation Rel := (Rel movedRoomId rooms).
Local Abbreviation ok := (ok movedRoomId rooms).
Local Abbreviation Clean := (Clean movedRoomId rooms).

Lemma bounds_eq_refl (a : BoundingBox) : bounds_eq a a.
Proof. unfold bounds_eq. repeat split; reflexivity. Qed.

Lemma bounds_eq_sym (a b : BoundingBox) : bounds_eq a b -> bounds_eq b a.
Proof. unfold bounds_eq. intros (?&?&?&?). repeat split; now symmetry. Qed.

Lemma bounds_eq_trans (a b c : BoundingBox) :
  bounds_eq a b -> bounds_eq b c -> bounds_eq a c.
Proof.
  unfold bounds_eq. intros (?&?&?&?) (?&?&?&?).
  repeat split; etransitivity; eauto.
Qed.

Lemma bounds_eqb_spec (a b : BoundingBox) :
  reflect (bounds_eq a b)
    (Qeq_bool (x a) (x b) && Qeq_bool (y a) (y b) &&
     Qeq_bool (width a) (width b) && Qeq_bool (height a) (height b)).
Proof.
  unfold bounds_eq.
  destruct (Qeq_bool_spec (x a) (x b)), (Qeq_bool_spec (y a) (y b)),
    (Qeq_bool_spec (width a) (width b)),
    (Qeq_bool_spec (height a) (height b));
    constructor; tauto.
Qed.

Lemma boundsOverlap_eq (a a' b b' : BoundingBox) :
  bounds_eq a a' -> bounds_eq b b' ->
  boundsOverlap a b = boundsOverlap a' b'.
Proof.
  intros (A1 & A2 & A3 & A4) (B1 & B2 & B3 & B4).
  destruct (boundsOverlap a' b') eqn:E.
  - apply boundsOverlap_true_iff in E. apply boundsOverlap_true_iff.
    rewrite A1, A2, A3, A4, B1, B2, B3, B4. exact E.
  - destruct (boundsOverlap a b) eqn:E'; [|reflexivity].
    apply boundsOverlap_true_iff in E'.
    rewrite A1, A2, A3, A4, B1, B2, B3, B4 in E'.
    apply boundsOverlap_true_iff in E'. congruence.
Qed.

Lemma Rel_refl (s : State) : Rel s s.
Proof.
  constructor; auto. exists []. now rewrite app_nil_r.
Qed.

Lemma Rel_length (s s' : State) :
  Rel s s' -> (length (store s) <= length (store s'))%nat.
Proof. intros [[ext E] _ _]. rewrite E, length_app. lia. Qed.

Lemma Rel_trans (s1 s2 s3 : State) : Rel s1 s2 -> Rel s2 s3 -> Rel s1 s3.
Proof.
  intros R12 R23. pose proof (Rel_length _ _ R12) as L.
  destruct R12 as [[e1 E1] P1 N1], R23 as [[e2 E2] P2 N2].
  constructor.
  - exists (e1 ++ e2). now rewrite E2, E1, app_assoc.
  - intros k Hk. now rewrite P2, P1.
  - intros k l H. destruct (N2 _ _ H) as [H'|H']; [auto | right; lia].
Qed.

Lemma Rel_deref (s s' : State) l :
  Rel s s' -> (l < length (store s))%nat ->
  deref (store s') l = deref (store s) l.
Proof. intros [[ext E] _ _] H. rewrite E. now apply deref_app_old. Qed.

Lemma ok_ret {A} (a : A) : ok (ret a).
Proof. intros s K. exists a, s. auto using Rel_refl. Qed.

Lemma ok_bind {A B} (m : M A) (f : A -> M B) :
  ok m -> (forall a, ok (f a)) -> ok (bind m f).
Proof.
  intros Hm Hf s K.
  destruct (Hm s K) as (a & s1 & E1 & K1 & R1 & S1).
  destruct (Hf a s1 K1) as (b & s2 & E2 & K2 & R2 & S2).
  exists b, s2. unfold bind. rewrite E1.
  split; [exact E2|]. split; [exact K2|].
  split; [eapply Rel_trans; eauto | auto].
Qed.

Lemma ok_load (l : loc) : ok (load l).
Proof. intros s K. eexists _, s. unfold load. auto using Rel_refl. Qed.

Lemma ok_getStore : ok getStore.
Proof. intros s K. eexists _, s. unfold getStore. auto using Rel_refl. Qed.

Lemma ok_wb_get (k : string) :
  (forall s, Keys s -> map_get (workingBounds s) k <> None) ->
  ok (wb_get k).
Proof.
  intros H s K. specialize (H s K). unfold wb_get.
  destruct (map_get (workingBounds s) k) as [l|]; [|congruence].
  exists l, s. auto using Rel_refl.
Qed.

Lemma ok_wb_get_room (r : EditorRoom) : In r rooms -> ok (wb_get (id r)).
Proof. intro H. apply ok_wb_get. intros s K. now apply (keys_rooms _ _ _ K). Qed.

Lemma ok_wb_get_moved : ok (wb_get movedRoomId).
Proof. apply ok_wb_get. intros s K. exact (keys_moved _ _ _ K). Qed.

Lemma ok_forEach {A} (l : list A) (body : A -> M unit) :
  (forall a, In a l -> ok (body a)) -> ok (forEach l body).
Proof.
  induction l as [|a l IH]; intro H; simpl.
  - apply ok_ret.
  - apply ok_bind; [apply H; now left|].
    intros _. apply IH. intros; apply H; now right.
Qed.

Lemma ok_foldM {A B} (l : list A) (acc : B) (body : B -> A -> M B) :
  (forall b a, In a l -> ok (body b a)) -> ok (foldM l acc body).
Proof.
  revert acc. induction l as [|a l IH]; intros acc H; simpl.
  - apply ok_ret.
  - apply ok_bind; [apply H; now left|].
    intros acc'. apply IH. intros; apply H; now right.
Qed.

Lemma Sep_update (s : State) (ext : Store) (k : string) (l : loc) :
  (length (store s) <= l < length (store s) + length ext)%nat ->
  Sep s -> Sep (mkState (store s ++ ext) (map_set (workingBounds s) k l)).
Proof.
  intros Hl [SK SV SI]. constructor; simpl.
  - now apply map_set_NoDup.
  - intros k' l'. rewrite length_app.
    destruct (String.eqb_spec k k') as [->|N].
    + rewrite map_get_set_same. intros [= <-]. lia.
    + rewrite map_get_set_other by auto. intro H.
      apply SV in H. lia.
  - intros k1 k2 l'.
    destruct (String.eqb_spec k k1) as [<-|N1];
    destruct (String.eqb_spec k k2) as [<-|N2]; auto;
    rewrite ?map_get_set_same, ?map_get_set_other by auto.
    + intros [= <-] H. apply SV in H. lia.
    + intros H [= <-]. apply SV in H. lia.
    + apply SI.
Qed.

(** Redirecting a movable entry to an object allocated since [s]. *)
Lemma owned_update (s : State) (ext : Store) (k : string) (l : loc) :
  Keys s -> Movable k ->
  (length (store s) <= l < length (store s) + length ext)%nat ->
  let s' := mkState (store s ++ ext) (map_set (workingBounds s) k l) in
  Keys s' /\ Rel s s' /\ (Sep s -> Sep s').
Proof.
  intros K Mk Hl s'. split; [|split].
  - constructor; simpl.
    + intros r Hr. apply map_set_present. now apply (keys_rooms _ _ _ K).
    + apply map_set_present. exact (keys_moved _ _ _ K).
  - constructor; simpl.
    + now exists ext.
    + intros k' Hk'. apply map_get_set_other. congruence.
    + intros k' l'. destruct (String.eqb_spec k k') as [->|N].
      * rewrite map_get_set_same. intros [= <-]. right; lia.
      * rewrite map_get_set_other by auto. auto.
  - now apply Sep_update.
Qed.

Lemma ok_alloc_set (b : BoundingBox) (k : string) :
  Movable k -> ok (l <- alloc b ;; wb_set k l).
Proof.
  intros Mk s K.
  destruct (owned_update s [b] k (length (store s)) K Mk) as (K' & R' & S').
  { simpl. lia. }
  eexists tt, _. split; [reflexivity|]. auto.
Qed.

Lemma keepWithinCanvas_last (h : Store) (b : BoundingBox) w :
  keepWithinCanvas (length h) (mkState (h ++ [b]) w) =
  Some (tt, mkState (h ++ [clampBox b]) w).
Proof.
  unfold keepWithinCanvas, bind, load, set_x, set_y.
  cbn [store workingBounds].
  rewrite deref_app_new, update_last. cbn [store workingBounds].
  rewrite deref_app_new, update_last. reflexivity.
Qed.

Lemma snap_keep_set_last (k : string) (h : Store) (b1 : BoundingBox) w :
  exists ext l,
    (nb' <- snapBoundsToGridRef (length h) grid ;;
     keepWithinCanvas nb' ;; wb_set k nb') (mkState (h ++ [b1]) w)
    = Some (tt, mkState (h ++ ext) (map_set w k l)) /\
    (length h <= l < length h + length ext)%nat.
Proof.
  unfold snapBoundsToGridRef. destruct (snapEnabled grid); cbn [negb].
  - exists [b1; snapClamp b1 grid], (S (length h)).
    split; [|simpl; lia].
    unfold bind at 1 2. unfold load at 1. cbn [store workingBounds].
    rewrite deref_app_new. unfold alloc at 1. cbn [store workingBounds].
    unfold bind at 1. rewrite keepWithinCanvas_last.
    unfold wb_set. cbn [store workingBounds].
    rewrite <- app_assoc, length_app, Nat.add_comm. reflexivity.
  - exists [clampBox b1], (length h).
    split; [|simpl; lia].
    unfold bind at 1. unfold ret at 1. unfold bind at 1.
    rewrite keepWithinCanvas_last. reflexivity.
Qed.

Lemma ok_cleanupPush (room : EditorRoom) (b ob : BoundingBox) :
  Movable (id room) -> ok (cleanupPush grid room b ob).
Proof.
  intros Mk [h w] K. unfold cleanupPush.
  set (ox := Math_min (x b + width b - x ob) (x ob + width ob - x b)).
  set (oy := Math_min (y b + height b - y ob) (y ob + height ob - y b)).
  unfold bind at 1. unfold alloc at 1. cbn [store workingBounds].
  unfold bind at 1.
  assert (E : exists b1,
    (if Qlt_bool ox oy
     then v <- load (length h) ;;
          set_x (length h)
            (x v + (if Qlt_bool (px (getBoundsCenter ob))
                                (px (getBoundsCenter b))
                    then 1 else -1) * (ox + size grid))
     else v <- load (length h) ;;
          set_y (length h)
            (y v + (if Qlt_bool (py (getBoundsCenter ob))
                                (py (getBoundsCenter b))
                    then 1 else -1) * (oy + size grid)))
      (mkState (h ++ [b]) w) = Some (tt, mkState (h ++ [b1]) w)).
  { destruct (Qlt_bool ox oy); unfold bind, load, set_x, set_y;
      cbn [store workingBounds]; rewrite deref_app_new, update_last; eauto. }
  destruct E as (b1 & ->).
  destruct (snap_keep_set_last (id room) h b1 w) as (ext & l & -> & Hl).
  destruct (owned_update (mkState h w) ext (id room) l K Mk Hl)
    as (K' & R' & S').
  eexists tt, _. split; [reflexivity|]. auto.
Qed.

Lemma Movable_present (k : string) (s : State) :
  Movable k -> Keys s -> map_get (workingBounds s) k <> None.
Proof.
  intros (_ & r & Hr & <- & _) K. now apply (keys_rooms _ _ _ K).
Qed.

Lemma findRoom_some (k : string) (r : EditorRoom) :
  findRoom rooms k = Some r -> In r rooms /\ id r = k.
Proof.
  unfold findRoom. intro H. apply find_some in H. destruct H as [H1 H2].
  split; [exact H1 | now apply String.eqb_eq].
Qed.

Lemma ok_springStep (anchor : string) (room : EditorRoom)
    (connection : RoomConnection) (strength : Q) :
  (forall s, Keys s -> map_get (workingBounds s) anchor <> None) ->
  Movable (roomId connection) ->
  ok (springStep anchor room connection strength).
Proof.
  intros Ha Mk. unfold springStep.
  apply ok_bind; [now apply ok_wb_get | intros anchorBounds].
  apply ok_bind; [apply ok_wb_get; intros; now apply Movable_present
                 | intros currentBounds].
  apply ok_bind; [apply ok_getStore | intros h].
  now apply ok_alloc_set.
Qed.

Section Passes.

Variable originalGraph : ConnectivityGraph.
Variable directConnections : list RoomConnection.

Hypothesis direct_not_moved :
  forall c, In c directConnections -> roomId c <> movedRoomId.
Hypothesis direct_is_room :
  forall c, In c directConnections ->
    exists r, In r rooms /\ id r = roomId c.

Lemma ok_attractionPass :
  ok (attractionPass movedRoomId rooms directConnections).
Proof.
  unfold attractionPass. apply ok_forEach. intros c Hc.
  destruct (findRoom rooms (roomId c)) as [r|] eqn:F; [|apply ok_ret].
  apply findRoom_some in F. destruct F as [Hr Hid].
  destruct (isLocked r) eqn:L; [apply ok_ret|].
  apply ok_springStep.
  - intros s K. exact (keys_moved _ _ _ K).
  - split; [auto | exists r; auto].
Qed.

Lemma ok_repulsionAdjust (room : EditorRoom) (bounds : loc) :
  ok (repulsionAdjust rooms room bounds).
Proof.
  unfold repulsionAdjust. apply ok_foldM. intros adjust other Ho.
  destruct (String.eqb (id other) (id room)); [apply ok_ret|].
  apply ok_bind; [now apply ok_wb_get_room | intros otherBounds].
  apply ok_bind; [apply ok_load | intros b].
  apply ok_bind; [apply ok_load | intros ob].
  destruct (boundsOverlap b ob); apply ok_ret.
Qed.

Lemma ok_repulsionPass : ok (repulsionPass movedRoomId rooms).
Proof.
  unfold repulsionPass. apply ok_forEach. intros room Hr.
  unfold repulsionRoom.
  destruct (String.eqb_spec (id room) movedRoomId) as [E|N]; [apply ok_ret|].
  destruct (isLocked room) eqn:L; [apply ok_ret|].
  apply ok_bind; [now apply ok_wb_get_room | intros bounds].
  apply ok_bind; [apply ok_repulsionAdjust | intros [adjustX adjustY]].
  destruct (negb (Qeq_bool adjustX 0) || negb (Qeq_bool adjustY 0));
    [|apply ok_ret].
  apply ok_bind; [apply ok_load | intros b].
  apply ok_alloc_set. split; [auto | exists room; auto].
Qed.

Lemma ok_secondaryPass :
  ok (secondaryPass movedRoomId rooms originalGraph directConnections).
Proof.
  unfold secondaryPass. apply ok_forEach. intros c Hc.
  apply ok_forEach. intros secondary Hs.
  destruct (String.eqb_spec (roomId secondary) movedRoomId) as [E|N];
    [apply ok_ret|].
  destruct (findRoom rooms (roomId secondary)) as [r|] eqn:F; [|apply ok_ret].
  apply findRoom_some in F. destruct F as [Hr Hid].
  destruct (isLocked r) eqn:L; [apply ok_ret|].
  apply ok_springStep.
  - intros s K. destruct (direct_is_room c Hc) as (r' & Hr' & <-).
    now apply (keys_rooms _ _ _ K).
  - split; [auto | exists r; auto].
Qed.

Lemma ok_solverIteration (iter : nat) :
  ok (solverIteration movedRoomId rooms originalGraph directConnections iter).
Proof.
  unfold solverIteration.
  apply ok_bind; [apply ok_attractionPass | intros _].
  apply ok_bind; [apply ok_repulsionPass | intros _].
  destruct (iter <? 3)%nat; [apply ok_secondaryPass | apply ok_ret].
Qed.

End Passes.

Lemma ok_cleanupPair (room : EditorRoom) (bounds : loc) (ho : bool)
    (other : EditorRoom) :
  Movable (id room) -> In other rooms ->
  ok (cleanupPair grid room bounds ho other).
Proof.
  intros Mk Ho. unfold cleanupPair.
  destruct (String.eqb (id other) (id room)); [apply ok_ret|].
  apply ok_bind; [now apply ok_wb_get_room | intros otherBounds].
  apply ok_bind; [apply ok_load | intros b].
  apply ok_bind; [apply ok_load | intros ob].
  destruct (boundsOverlap b ob); [|apply ok_ret].
  apply ok_bind; [|intros _; apply ok_ret].
  now apply ok_cleanupPush.
Qed.

Lemma ok_cleanupRoom (ho : bool) (room : EditorRoom) :
  In room rooms -> ok (cleanupRoom movedRoomId rooms grid ho room).
Proof.
  intro Hr. unfold cleanupRoom.
  destruct (String.eqb_spec (id room) movedRoomId) as [E|N]; [apply ok_ret|].
  destruct (isLocked room) eqn:L; [apply ok_ret|].
  apply ok_bind; [now apply ok_wb_get_room | intros bounds].
  apply ok_foldM. intros ho' other Ho.
  apply ok_cleanupPair; auto. split; [auto | exists room; auto].
Qed.

Lemma ok_cleanupPass : ok (cleanupPass movedRoomId rooms grid).
Proof.
  unfold cleanupPass. apply ok_foldM. intros; now apply ok_cleanupRoom.
Qed.

Lemma ok_cleanupLoop (fuel : nat) (hasOverlap : bool) (safetyCounter : nat) :
  ok (cleanupLoop movedRoomId rooms grid fuel hasOverlap safetyCounter).
Proof.
  revert hasOverlap safetyCounter.
  induction fuel as [|fuel IH]; intros hasOverlap safetyCounter; simpl.
  - apply ok_ret.
  - destruct (hasOverlap && (safetyCounter <? 10)%nat); [|apply ok_ret].
    apply ok_bind; [apply ok_cleanupPass | intros ho; apply IH].
Qed.

(** *** The final resolution loop *)

Lemma run_bind {A B} (m : M A) (f : A -> M B) s r :
  bind m f s = Some r ->
  exists a s1, m s = Some (a, s1) /\ f a s1 = Some r.
Proof.
  unfold bind. destruct (m s) as [[a s1]|]; [eauto | discriminate].
Qed.

Lemma bind_intro {A B} (m : M A) (f : A -> M B) s a s1 r :
  m s = Some (a, s1) -> f a s1 = r -> bind m f s = r.
Proof. unfold bind. now intros ->. Qed.

Lemma cleanupPush_then_true room b ob s r s' :
  (cleanupPush grid room b ob ;; ret true) s = Some (r, s') -> r = true.
Proof.
  intro H. apply run_bind in H. destruct H as (a & s1 & _ & H).
  unfold ret in H. congruence.
Qed.

Lemma cleanupPair_step room bounds ho other s r s1 :
  cleanupPair grid room bounds ho other s = Some (r, s1) ->
  r = true \/
  (r = ho /\ s1 = s /\
   (id other <> id room ->
    exists lo, map_get (workingBounds s) (id other) = Some lo /\
      boundsOverlap (deref (store s) bounds) (deref (store s) lo) = false)).
Proof.
  unfold cleanupPair.
  destruct (String.eqb_spec (id other) (id room)) as [E|N].
  - unfold ret. intros [= <- <-]. right. repeat split; auto. congruence.
  - intro H. apply run_bind in H. destruct H as (lo & s2 & G & H).
    unfold wb_get in G.
    destruct (map_get (workingBounds s) (id other)) as [lo'|] eqn:Eg;
      [|discriminate].
    injection G as <- <-.
    unfold bind, load in H. cbn [store] in H.
    destruct (boundsOverlap (deref (store s) bounds) (deref (store s) lo'))
      eqn:Ov.
    + left. eapply cleanupPush_then_true; eauto.
    + unfold ret in H. injection H as <- <-. right. eauto.
Qed.

Lemma cleanupPair_true room bounds others s r s' :
  foldM others true (cleanupPair grid room bounds) s = Some (r, s') ->
  r = true.
Proof.
  revert s. induction others as [|o others IH]; intros s; simpl.
  - unfold ret. congruence.
  - intro H. apply run_bind in H. destruct H as (a & s1 & H1 & H2).
    apply cleanupPair_step in H1. destruct H1 as [->|(-> & _)]; eauto.
Qed.

Lemma cleanupPair_false room bounds others ho s s' :
  foldM others ho (cleanupPair grid room bounds) s = Some (false, s') ->
  ho = false /\ s' = s /\
  forall other, In other others -> id other <> id room ->
    exists lo, map_get (workingBounds s) (id other) = Some lo /\
      boundsOverlap (deref (store s) bounds) (deref (store s) lo) = false.
Proof.
  revert ho s. induction others as [|o others IH]; intros ho s; simpl.
  - unfold ret. intros [= -> ->]. repeat split; auto. intros ? [].
  - intro H. apply run_bind in H. destruct H as (a & s1 & H1 & H2).
    apply cleanupPair_step in H1. destruct H1 as [->|(-> & -> & Ho)].
    + apply cleanupPair_true in H2. discriminate.
    + apply IH in H2. destruct H2 as (-> & -> & Hrest).
      repeat split; auto. intros other [<-|Hin]; auto.
Qed.

Lemma cleanupRoom_step ho room s r s1 :
  cleanupRoom movedRoomId rooms grid ho room s = Some (r, s1) ->
  (ho = true -> r = true) /\
  (r = false ->
   s1 = s /\
   (id room <> movedRoomId -> isLocked room = false ->
    forall other, In other rooms -> id other <> id room ->
    exists lb lo,
      map_get (workingBounds s) (id room) = Some lb /\
      map_get (workingBounds s) (id other) = Some lo /\
      boundsOverlap (deref (store s) lb) (deref (store s) lo) = false)).
Proof.
  unfold cleanupRoom.
  destruct (String.eqb_spec (id room) movedRoomId) as [E|N].
  { unfold ret. intros [= <- <-]. split; auto. intros _. split; auto.
    congruence. }
  destruct (isLocked room) eqn:L.
  { unfold ret. intros [= <- <-]. split; auto. intros _. split; auto.
    congruence. }
  intro H. apply run_bind in H. destruct H as (lb & s2 & G & H).
  unfold wb_get in G.
  destruct (map_get (workingBounds s) (id room)) as [lb'|] eqn:Eg;
    [|discriminate].
  injection G as <- <-. split.
  - intros ->. eapply cleanupPair_true; eauto.
  - intros ->. apply cleanupPair_false in H. destruct H as (_ & -> & H).
    split; auto. intros _ _ other Ho No.
    destruct (H other Ho No) as (lo & Hlo & Hov). eauto.
Qed.

Lemma cleanupRoom_true rs s r s' :
  foldM rs true (cleanupRoom movedRoomId rooms grid) s = Some (r, s') ->
  r = true.
Proof.
  revert s. induction rs as [|room rs IH]; intros s; simpl.
  - unfold ret. congruence.
  - intro H. apply run_bind in H. destruct H as (a & s1 & H1 & H2).
    apply cleanupRoom_step in H1. destruct H1 as [T _].
    rewrite T in H2 by reflexivity. eauto.
Qed.

Lemma cleanupRoom_false rs ho s s' :
  foldM rs ho (cleanupRoom movedRoomId rooms grid) s = Some (false, s') ->
  s' = s /\
  forall room, In room rs ->
    id room <> movedRoomId -> isLocked room = false ->
  forall other, In other rooms -> id other <> id room ->
  exists lb lo,
    map_get (workingBounds s) (id room) = Some lb /\
    map_get (workingBounds s) (id other) = Some lo /\
    boundsOverlap (deref (store s) lb) (deref (store s) lo) = false.
Proof.
  revert ho s. induction rs as [|room rs IH]; intros ho s; simpl.
  - unfold ret. intros [= _ ->]. split; auto. intros ? [].
  - intro H. apply run_bind in H. destruct H as (a & s1 & H1 & H2).
    apply cleanupRoom_step in H1. destruct H1 as [T F].
    destruct a.
    + apply cleanupRoom_true in H2. discriminate.
    + destruct (F eq_refl) as [-> Hroom].
      apply IH in H2. destruct H2 as [-> Hrest].
      split; auto. intros room' [<-|Hin]; auto.
Qed.

Lemma cleanupPass_false (s s' : State) :
  cleanupPass movedRoomId rooms grid s = Some (false, s') ->
  s' = s /\ Clean s.
Proof. unfold cleanupPass, Clean. apply cleanupRoom_false. Qed.

Lemma cleanupLoop_result fuel : forall ho sc s ho' sc' s',
  cleanupLoop movedRoomId rooms grid fuel ho sc s = Some ((ho', sc'), s') ->
  ((sc + fuel = 10)%nat -> ho' = true -> sc' = 10%nat) /\
  (ho' = false -> (ho = false /\ s' = s) \/ Clean s').
Proof.
  induction fuel as [|fuel IH]; intros ho sc s ho' sc' s'; simpl.
  - unfold ret. intros [= <- <- <-]. split; [lia | auto].
  - destruct (ho && (sc <? 10)%nat) eqn:C.
    + intro H. apply run_bind in H. destruct H as (ho1 & s1 & H1 & H2).
      apply IH in H2. destruct H2 as [I1 I2]. split.
      * intros. apply I1; auto. lia.
      * intro F. destruct (I2 F) as [[-> ->]|Hc]; auto.
        apply cleanupPass_false in H1. destruct H1 as [-> Hc]. auto.
    + unfold ret. intros [= <- <- <-]. split; auto.
      intros Hs ->. simpl in C. apply Nat.ltb_ge in C. lia.
Qed.

(** *** Applying the updates *)

Lemma updateRoom_spec (s : State) (room : EditorRoom) :
  map_get (workingBounds s) (id room) <> None ->
  exists room',
    updateRoom room s = Some (room', s) /\ Updated s room room'.
Proof.
  intro P. unfold updateRoom, bind, wb_get, load.
  destruct (map_get (workingBounds s) (id room)) as [l|] eqn:G;
    [|congruence].
  cbn [store].
  destruct (bounds_eqb_spec (deref (store s) l)
                            (deref (store s) (bounds room))) as [Eq|Ne].
  - exists room. split; [reflexivity|].
    repeat split. exists l. split; auto. split; auto.
    now apply bounds_eq_sym.
  - eexists. split; [reflexivity|].
    repeat split. exists l. split; auto. cbn [bounds].
    split; [apply bounds_eq_refl | tauto].
Qed.

Lemma applyUpdates_spec (s : State) :
  Keys s ->
  exists result,
    applyUpdates rooms s = Some (result, s) /\
    Forall2 (Updated s) rooms result.
Proof.
  intro K. unfold applyUpdates.
  assert (G : forall rs, (forall r, In r rs -> In r rooms) ->
    exists result,
      mapM rs updateRoom s = Some (result, s) /\
      Forall2 (Updated s) rs result).
  { induction rs as [|room rs IH]; intro Hin; simpl.
    - exists []. split; [reflexivity | constructor].
    - destruct IH as (result & E & F). { intros; apply Hin; now right. }
      destruct (updateRoom_spec s room) as (room' & E' & U).
      { apply (keys_rooms _ _ _ K). apply Hin. now left. }
      exists (room' :: result). unfold bind. rewrite E', E.
      split; [reflexivity | now constructor]. }
  apply G. auto.
Qed.

(** *** The adjacency graph *)

Lemma findAdjacentRooms_ids (h : Store) (room : EditorRoom)
    (allRooms : list EditorRoom) (tolerance : Q) (c : RoomConnection) :
  In c (findAdjacentRooms h room allRooms tolerance) ->
  roomId c <> id room /\ exists r, In r allRooms /\ id r = roomId c.
Proof.
  unfold findAdjacentRooms. intro H. apply in_flat_map in H.
  destruct H as (other & Ho & H).
  destruct (String.eqb_spec (id other) (id room)) as [E|N]; [destruct H|].
  destruct (boundsAdjacent _ _ _); [|destruct H].
  destruct (Qlt_bool _ _); destruct H as [<-|[]]; simpl; eauto.
Qed.

Lemma buildConnectivityGraph_ids (h : Store) (rs : list EditorRoom)
    (k : string) (cs : list RoomConnection) (c : RoomConnection) :
  map_get (buildConnectivityGraph h rs) k = Some cs -> In c cs ->
  roomId c <> k /\ exists r, In r rs /\ id r = roomId c.
Proof.
  unfold buildConnectivityGraph.
  assert (G : forall l (m : ConnectivityGraph),
    (forall k cs c, map_get m k = Some cs -> In c cs ->
       roomId c <> k /\ exists r, In r rs /\ id r = roomId c) ->
    forall k cs c,
      map_get (fold_left (fun connections room =>
        map_set connections (id room) (findAdjacentRooms h room rs 5))
        l m) k = Some cs -> In c cs ->
      roomId c <> k /\ exists r, In r rs /\ id r = roomId c).
  { induction l as [|room l IH]; intros m Hm; simpl; [exact Hm|].
    apply IH. intros k' cs' c'.
    destruct (String.eqb_spec (id room) k') as [<-|N].
    - rewrite map_get_set_same. intros [= <-].
      apply findAdjacentRooms_ids.
    - rewrite map_get_set_other by auto. apply Hm. }
  apply G. simpl. discriminate.
Qed.

(** *** The initial copy *)

Lemma copyLoop (rs : list EditorRoom) : forall s,
  exists s', forEach rs copyBounds s = Some (tt, s') /\
    (exists ext, store s' = store s ++ ext) /\
    (forall k, map_get (workingBounds s) k <> None ->
               map_get (workingBounds s') k <> None) /\
    (forall r, In r rs -> map_get (workingBounds s') (id r) <> None) /\
    (forall k l, map_get (workingBounds s') k = Some l ->
       map_get (workingBounds s) k = Some l \/
       ((length (store s) <= l)%nat /\
        exists r, In r rs /\ id r = k /\
          ((bounds r < length (store s))%nat ->
           deref (store s') l = deref (store s) (bounds r)))) /\
    (Sep s -> Sep s').
Proof.
  induction rs as [|r rs IH]; intro s.
  - exists s. simpl. split; [reflexivity|].
    split; [exists []; now rewrite app_nil_r|].
    split; [auto|]. split; [intros ? []|]. split; auto.
  - set (s1 := mkState (store s ++ [deref (store s) (bounds r)])
                       (map_set (workingBounds s) (id r) (length (store s)))).
    destruct (IH s1) as (s' & E & [ext P] & K1 & K2 & V & S).
    exists s'. split; [|split; [|split; [|split; [|split]]]].
    + simpl. unfold bind. change (copyBounds r s) with (Some (tt, s1)).
      exact E.
    + exists ([deref (store s) (bounds r)] ++ ext).
      rewrite P. unfold s1. simpl. now rewrite <- app_assoc.
    + intros k Hk. apply K1. unfold s1; simpl. now apply map_set_present.
    + intros r' [<-|Hin]; auto.
      apply K1. unfold s1; simpl. rewrite map_get_set_same. discriminate.
    + intros k l Hkl. destruct (V k l Hkl) as [H1|(Hlen & r' & Hr' & Hid & Hv)].
      * unfold s1 in H1; simpl in H1.
        destruct (String.eqb_spec (id r) k) as [Ek|Nk].
        -- subst k. rewrite map_get_set_same in H1. injection H1 as <-.
           right. split; [lia|]. exists r. split; [now left|].
           split; [reflexivity|]. intros _.
           rewrite P. rewrite deref_app_old.
           ++ unfold s1; simpl. apply deref_app_new.
           ++ unfold s1; simpl. rewrite length_app. simpl. lia.
        -- rewrite map_get_set_other in H1 by auto. now left.
      * right. unfold s1 in Hlen; simpl in Hlen.
        rewrite length_app in Hlen. simpl in Hlen.
        split; [lia|]. exists r'. split; [now right|]. split; [auto|].
        intro Hb. rewrite Hv.
        -- unfold s1; simpl. now apply deref_app_old.
        -- unfold s1; simpl. rewrite length_app. lia.
    + intro Ss. apply S. unfold s1. apply Sep_update; [simpl; lia | auto].
Qed.

(** *** The snap stage *)

Lemma keepWithinCanvas_spec (l : loc) (h : Store) w :
  exists h',
    keepWithinCanvas l (mkState h w) = Some (tt, mkState h' w) /\
    length h' = length h /\
    (forall l', l' <> l -> deref h' l' = deref h l') /\
    ((l < length h)%nat -> deref h' l = clampBox (deref h l)).
Proof.
  eexists. split; [reflexivity|]. cbn [store].
  split; [now rewrite !update_length|].
  split.
  - intros l' N. now rewrite !deref_update_other by auto.
  - intro H. rewrite deref_update_same by now rewrite update_length.
    rewrite !deref_update_same by auto. reflexivity.
Qed.

Lemma snapEntry_spec (k : string) (s : State) (l : loc) :
  map_get (workingBounds s) k = Some l ->
  exists s', snapEntry grid k s = Some (tt, s') /\
    (forall k', map_get (workingBounds s) k' <> None ->
                map_get (workingBounds s') k' <> None) /\
    (forall k', k' <> k ->
       map_get (workingBounds s') k' = map_get (workingBounds s) k') /\
    (length (store s) <= length (store s'))%nat /\
    (snapEnabled grid = false -> workingBounds s' = workingBounds s) /\
    (snapEnabled grid = true -> exists ext, store s' = store s ++ ext) /\
    (Sep s ->
     Sep s' /\
     (exists l', map_get (workingBounds s') k = Some l' /\
        deref (store s') l' = snapClamp (deref (store s) l) grid) /\
     (forall l'', (l'' < length (store s))%nat -> l'' <> l ->
        deref (store s') l'' = deref (store s) l'')).
Proof.
  intro G. destruct s as [h w]. cbn [store workingBounds] in *.
  unfold snapEntry. unfold bind at 1. unfold wb_get.
  cbn [workingBounds]. rewrite G.
  unfold snapBoundsToGridRef.
  destruct (snapEnabled grid) eqn:Sn; cbn [negb].
  - unfold bind at 1 2. unfold load at 1. cbn [store workingBounds].
    unfold alloc at 1. cbn [store workingBounds].
    unfold bind at 1. rewrite keepWithinCanvas_last.
    unfold wb_set. cbn [store workingBounds].
    eexists. split; [reflexivity|]. cbn [store workingBounds].
    split; [intros; now apply map_set_present|].
    split; [intros; now apply map_get_set_other|].
    split; [rewrite length_app; lia|].
    split; [discriminate|].
    split; [eauto|].
    intro S. split; [|split].
    + apply (Sep_update (mkState h w)); [simpl; lia | exact S].
    + exists (length h). rewrite map_get_set_same, deref_app_new. auto.
    + intros l'' H _. now apply deref_app_old.
  - unfold bind at 1. unfold ret at 1. unfold bind at 1.
    destruct (keepWithinCanvas_spec l h w) as (h' & -> & Len & Oth & Same).
    unfold wb_set. cbn [store workingBounds].
    rewrite (map_set_same_value w k l G).
    eexists. split; [reflexivity|]. cbn [store workingBounds].
    split; [auto|]. split; [auto|]. split; [lia|]. split; [auto|].
    split; [discriminate|].
    intros [SK SV SI]. cbn [store workingBounds] in *. split; [|split].
    + constructor; cbn [store workingBounds]; auto.
      intros k' l' H. rewrite Len. eauto.
    + exists l. split; [auto|].
      unfold snapClamp, snapBoundsToGrid. rewrite Sn. cbn [negb].
      apply Same. eauto.
    + intros l'' _ N. now apply Oth.
Qed.

Lemma snapLoop (ks : list string) : forall s,
  (forall k, In k ks -> map_get (workingBounds s) k <> None) ->
  exists s', forEach ks (snapEntry grid) s = Some (tt, s') /\
    (forall k, map_get (workingBounds s) k <> None ->
               map_get (workingBounds s') k <> None) /\
    (forall k, ~ In k ks ->
       map_get (workingBounds s') k = map_get (workingBounds s) k) /\
    (length (store s) <= length (store s'))%nat /\
    (snapEnabled grid = false -> workingBounds s' = workingBounds s) /\
    (snapEnabled grid = true -> exists ext, store s' = store s ++ ext) /\
    (Sep s -> NoDup ks ->
     Sep s' /\
     (forall k l, In k ks -> map_get (workingBounds s) k = Some l ->
        exists l', map_get (workingBounds s') k = Some l' /\
          deref (store s') l' = snapClamp (deref (store s) l) grid) /\
     (forall l, (l < length (store s))%nat ->
        (forall k, In k ks -> map_get (workingBounds s) k <> Some l) ->
        deref (store s') l = deref (store s) l)).
Proof.
  induction ks as [|k ks IH]; intros s Hp.
  - exists s. simpl. split; [reflexivity|]. split; [auto|]. split; [auto|].
    split; [lia|]. split; [auto|].
    split; [exists []; now rewrite app_nil_r|].
    intros S _. split; [auto|]. split; [intros ? ? []|auto].
  - destruct (map_get (workingBounds s) k) as [l|] eqn:G.
    2:{ exfalso. apply (Hp k); [now left | auto]. }
    destruct (snapEntry_spec k s l G)
      as (s1 & E1 & P1 & O1 & L1 & W1 & X1 & D1).
    destruct (IH s1) as (s' & E2 & P2 & O2 & L2 & W2 & X2 & D2).
    { intros k' Hk'. apply P1, Hp. now right. }
    exists s'. split; [simpl; unfold bind; now rewrite E1|].
    split; [auto|].
    split.
    { intros k' Hk'. rewrite (O2 k'), (O1 k'); auto.
      - intros ->. apply Hk'. now left.
      - intro. apply Hk'. now right. }
    split; [lia|].
    split; [intro Sn; now rewrite W2, W1|].
    split.
    { intro Sn. destruct (X1 Sn) as [e1 Q1], (X2 Sn) as [e2 Q2].
      exists (e1 ++ e2). now rewrite Q2, Q1, app_assoc. }
    intros S ND. inversion ND as [|? ? Hnotin ND']; subst.
    destruct (D1 S) as (S1 & (l1 & G1 & V1) & F1).
    destruct (D2 S1 ND') as (S' & A2 & F2).
    split; [exact S'|]. split.
    + intros k' l' [<-|Hin] Hg.
      * assert (l' = l) by congruence. subst l'.
        exists l1. split.
        -- rewrite O2; auto.
        -- rewrite F2; auto.
           ++ eapply sep_valid; eauto.
           ++ intros k2 Hk2 Hg2. apply Hnotin.
              now rewrite (sep_inj _ S1 _ _ _ G1 Hg2).
      * assert (Nk : k' <> k) by (intros ->; contradiction).
        rewrite <- (O1 k' Nk) in Hg.
        destruct (A2 k' l' Hin Hg) as (l2 & G2 & V2).
        exists l2. split; [auto|]. rewrite V2. f_equal.
        apply F1.
        -- rewrite (O1 k' Nk) in Hg. eapply sep_valid; eauto.
        -- intros ->. rewrite (O1 k' Nk) in Hg.
           apply Nk. exact (sep_inj _ S _ _ _ Hg G).
    + intros l' Hl' Hno. rewrite F2.
      * apply F1; auto. intros ->. apply (Hno k); [now left | auto].
      * lia.
      * intros k2 Hk2. rewrite O1.
        -- apply Hno. now right.
        -- intros ->. contradiction.
Qed.

Lemma snapAll_spec (s : State) :
  Keys s ->
  exists s', snapAll grid s = Some (tt, s') /\
    Keys s' /\
    (length (store s) <= length (store s'))%nat /\
    (snapEnabled grid = false -> workingBounds s' = workingBounds s) /\
    (snapEnabled grid = true -> exists ext, store s' = store s ++ ext) /\
    (Sep s ->
     Sep s' /\
     (forall k l, map_get (workingBounds s) k = Some l ->
        exists l', map_get (workingBounds s') k = Some l' /\
          deref (store s') l' = snapClamp (deref (store s) l) grid) /\
     (forall l, (l < length (store s))%nat ->
        (forall k, map_get (workingBounds s) k <> Some l) ->
        deref (store s') l = deref (store s) l)).
Proof.
  intro K. unfold snapAll, bind, wb_keys.
  destruct (snapLoop (map fst (workingBounds s)) s)
    as (s' & E & P & O & L & W & X & D).
  { intros k. apply map_get_In_keys. }
  exists s'. split; [exact E|]. split.
  { constructor.
    - intros r Hr. apply P. now apply (keys_rooms _ _ _ K).
    - apply P. exact (keys_moved _ _ _ K). }
  split; [auto|]. split; [auto|]. split; [auto|].
  intro S. destruct (D S (sep_keys _ S)) as (S' & A & F).
  split; [auto|]. split.
  - intros k l G. apply A; auto. apply map_get_In_keys. congruence.
  - intros l Hl Hno. apply F; auto.
Qed.

(** *** A whole call *)

Lemma solver_run (newBounds : loc) (iterations : nat) (h : Store) :
  exists result ho sc s5,
    applySpringNetworkTraced movedRoomId newBounds rooms grid iterations
      (mkState h []) = Some ((result, (ho, sc)), s5) /\
    Forall2 (Updated s5) rooms result /\
    (ho = true -> sc = 10%nat) /\
    (ho = false -> Clean s5) /\
    ((newBounds < length h)%nat ->
     (length h <= length (store s5))%nat /\
     (forall l, (l < length h)%nat -> l <> newBounds ->
        deref (store s5) l = deref h l) /\
     deref (store s5) newBounds =
       (if snapEnabled grid then deref h newBounds
        else snapClamp (deref h newBounds) grid) /\
     (exists l, map_get (workingBounds s5) movedRoomId = Some l /\
        deref (store s5) l = snapClamp (deref h newBounds) grid) /\
     (forall r, In r rooms -> ~ Movable (id r) -> id r <> movedRoomId ->
        exists l r', map_get (workingBounds s5) (id r) = Some l /\
          In r' rooms /\ id r' = id r /\
          ((bounds r' < length h)%nat ->
           deref (store s5) l = snapClamp (deref h (bounds r')) grid))).
Proof.
  set (s0 := mkState h []).
  set (graph := buildConnectivityGraph h rooms).
  set (dc := match map_get graph movedRoomId with
             | Some c => c | None => [] end).
  (* initial copy *)
  destruct (copyLoop rooms s0) as (s1 & E1 & [e1 P1] & _ & K1 & V1 & S1).
  set (s2 := mkState (store s1)
                     (map_set (workingBounds s1) movedRoomId newBounds)).
  assert (K2 : Keys s2).
  { constructor; unfold s2; cbn [workingBounds].
    - intros r Hr. apply map_set_present. auto.
    - rewrite map_get_set_same. discriminate. }
  (* iterations *)
  assert (Hdc : forall c, In c dc ->
            roomId c <> movedRoomId /\ exists r, In r rooms /\ id r = roomId c).
  { intros c Hc. unfold dc in Hc.
    destruct (map_get graph movedRoomId) as [cs|] eqn:G; [|destruct Hc].
    eapply buildConnectivityGraph_ids; eauto. }
  destruct (ok_forEach (seq 0 iterations)
              (solverIteration movedRoomId rooms graph dc)
              (fun i _ => ok_solverIteration graph dc
                 (fun c Hc => proj1 (Hdc c Hc))
                 (fun c Hc => proj2 (Hdc c Hc)) i) s2 K2)
    as ([] & s3 & E3 & K3 & R23 & S23).
  (* snap stage *)
  destruct (snapAll_spec s3 K3) as (s4 & E4 & K4 & L34 & W34 & X34 & D34).
  (* final loop *)
  destruct (ok_cleanupLoop 10 true 0 s4 K4)
    as ([ho sc] & s5 & E5 & K5 & R45 & S45).
  destruct (cleanupLoop_result _ _ _ _ _ _ _ E5) as [C1 C2].
  (* updates *)
  destruct (applyUpdates_spec s5 K5) as (result & E6 & F6).
  exists result, ho, sc, s5.
  split.
  { unfold applySpringNetworkTraced.
    eapply bind_intro; [reflexivity|]. cbv zeta.
    eapply bind_intro; [exact E1|].
    eapply bind_intro; [reflexivity|].
    eapply bind_intro; [exact E3|].
    eapply bind_intro; [exact E4|].
    eapply bind_intro; [exact E5|].
    eapply bind_intro; [exact E6|].
    reflexivity. }
  split; [exact F6|].
  split; [intro; apply C1; auto|].
  split; [intro Hf; destruct (C2 Hf) as [[? _]|?]; [discriminate | auto]|].
  intro Hnb.
  assert (L01 : (length h <= length (store s1))%nat).
  { rewrite P1. unfold s0; simpl. rewrite length_app. lia. }
  assert (D01 : forall l, (l < length h)%nat ->
            deref (store s1) l = deref h l).
  { intros l Hl. rewrite P1. unfold s0; simpl. now apply deref_app_old. }
  assert (V2 : forall k l, k <> movedRoomId ->
            map_get (workingBounds s2) k = Some l ->
            (length h <= l)%nat /\
            exists r, In r rooms /\ id r = k /\
              ((bounds r < length h)%nat ->
               deref (store s2) l = deref h (bounds r))).
  { intros k l Nk G. unfold s2 in G; cbn [workingBounds] in G.
    rewrite map_get_set_other in G by auto.
    destruct (V1 k l G) as [G0|(Hl & r & Hr & Hid & Hv)];
      [discriminate|].
    unfold s0 in Hl, Hv; simpl in Hl, Hv. split; [auto|].
    exists r. auto. }
  assert (S2 : Sep s2).
  { assert (S1' : Sep s1).
    { apply S1. constructor; simpl; [constructor | discriminate..]. }
    destruct S1' as [SK SV SI].
    constructor; unfold s2; cbn [store workingBounds].
    - now apply map_set_NoDup.
    - intros k l. destruct (String.eqb_spec movedRoomId k) as [<-|N].
      + rewrite map_get_set_same. intros [= <-]. lia.
      + rewrite map_get_set_other by auto. apply SV.
    - intros k1 k2 l G1 G2.
      destruct (String.eqb_spec k1 movedRoomId) as [->|N1];
      destruct (String.eqb_spec k2 movedRoomId) as [->|N2]; auto.
      + rewrite map_get_set_same in G1. injection G1 as <-.
        destruct (V2 k2 newBounds N2 G2) as [Hl _]. lia.
      + rewrite map_get_set_same in G2. injection G2 as <-.
        destruct (V2 k1 newBounds N1 G1) as [Hl _]. lia.
      + rewrite map_get_set_other in G1, G2 by auto. eauto. }
  pose proof (S23 S2) as S3.
  destruct (D34 S3) as (S4 & A34 & F34).
  assert (NM : ~ Movable movedRoomId) by (intros [N _]; congruence).
  assert (G3m : map_get (workingBounds s3) movedRoomId = Some newBounds).
  { rewrite (rel_protected _ _ _ _ R23 _ NM).
    unfold s2; cbn [workingBounds]. apply map_get_set_same. }
  assert (L13 : (length (store s1) <= length (store s3))%nat).
  { apply (Rel_length _ _ R23). }
  assert (D03 : forall l, (l < length h)%nat ->
            deref (store s3) l = deref h l).
  { intros l Hl. rewrite (Rel_deref _ _ l R23).
    - now apply D01.
    - unfold s2; cbn [store]. lia. }
  assert (N3 : forall k l, k <> movedRoomId ->
            map_get (workingBounds s3) k = Some l -> (length h <= l)%nat).
  { intros k l Nk G. destruct (rel_new _ _ _ _ R23 k l G) as [G2|Hl].
    - now destruct (V2 k l Nk G2).
    - unfold s2 in Hl; cbn [store] in Hl. lia. }
  assert (D45 : forall l, (l < length (store s4))%nat ->
            deref (store s5) l = deref (store s4) l).
  { intros l Hl. now apply (Rel_deref _ _ l R45). }
  split.
  { pose proof (Rel_length _ _ R45). lia. }
  split.
  { intros l Hl Nl. rewrite D45 by lia. rewrite F34.
    - now apply D03.
    - lia.
    - intros k G. destruct (String.eqb_spec k movedRoomId) as [->|N].
      + congruence.
      + apply N3 in G; auto. lia. }
  destruct (A34 _ _ G3m) as (lm & G4m & Vm).
  rewrite D03 in Vm by auto.
  split.
  { rewrite D45 by lia. destruct (snapEnabled grid) eqn:Sn.
    - destruct (X34 eq_refl) as [ext X]. rewrite X.
      rewrite deref_app_old by lia. now apply D03.
    - rewrite (W34 eq_refl) in G4m.
      assert (lm = newBounds) by congruence. subst lm. exact Vm. }
  split.
  { exists lm. split.
    - now rewrite (rel_protected _ _ _ _ R45 _ NM).
    - rewrite D45; [exact Vm | eapply sep_valid; eauto]. }
  intros r Hr NMr Nr.
  pose proof (keys_rooms _ _ _ K2 r Hr) as P2.
  destruct (map_get (workingBounds s2) (id r)) as [l2|] eqn:G2;
    [|congruence].
  destruct (V2 _ _ Nr G2) as (Hl2 & r' & Hr' & Hid & Hv).
  assert (G3 : map_get (workingBounds s3) (id r) = Some l2).
  { now rewrite (rel_protected _ _ _ _ R23 _ NMr). }
  destruct (A34 _ _ G3) as (l4 & G4 & V4).
  exists l4, r'. split.
  { now rewrite (rel_protected _ _ _ _ R45 _ NMr). }
  split; [auto|]. split; [auto|].
  intro Hb. rewrite D45 by (eapply sep_valid; eauto).
  rewrite V4. f_equal. rewrite (Rel_deref _ _ l2 R23).
  - now apply Hv.
  - eapply sep_valid; eauto.
Qed.

End Invariants.

(** ** The solver: results of a call *)

Lemma Forall2_In_r {A B} (P : A -> B -> Prop) l l' b :
  Forall2 P l l' -> In b l' -> exists a, In a l /\ P a b.
Proof.
  induction 1 as [|a0 b0 l l' H0 H IH]; intros Hin; [destruct Hin|].
  destruct Hin as [<-|Hin].
  - exists a0. split; [now left | auto].
  - destruct (IH Hin) as (a & Ha & Pa). exists a. split; [now right | auto].
Qed.

Lemma Forall2_In_l {A B} (P : A -> B -> Prop) l l' a :
  Forall2 P l l' -> In a l -> exists b, In b l' /\ P a b.
Proof.
  induction 1 as [|a0 b0 l l' H0 H IH]; intros Hin; [destruct Hin|].
  destruct Hin as [<-|Hin].
  - exists b0. split; [now left | auto].
  - destruct (IH Hin) as (b & Hb & Pb). exists b. split; [now right | auto].
Qed.

Lemma NoDup_map_eq {A B} (f : A -> B) (l : list A) (a b : A) :
  NoDup (map f l) -> In a l -> In b l -> f a = f b -> a = b.
Proof.
  induction l as [|c l IH]; simpl; intros ND Ha Hb E; [destruct Ha|].
  inversion ND as [|? ? Hnotin ND']; subst.
  destruct Ha as [<-|Ha], Hb as [<-|Hb]; auto.
  - exfalso. apply Hnotin. rewrite E. now apply in_map.
  - exfalso. apply Hnotin. rewrite <- E. now apply in_map.
Qed.

Lemma call_traced (movedRoomId : string) (newBounds : loc)
    (rooms : list EditorRoom) (grid : GridConfig) (iterations : nat)
    (h : Store) result final s :
  applySpringNetworkTraced movedRoomId newBounds rooms grid iterations
    (mkState h []) = Some ((result, final), s) ->
  call (applySpringNetworkTraced movedRoomId newBounds rooms grid iterations)
    h = Some ((result, final), store s) /\
  call (applySpringNetwork movedRoomId newBounds rooms grid iterations) h
    = Some (result, store s).
Proof.
  intro E. unfold call, applySpringNetwork, bind. now rewrite E.
Qed.

(** C1: after a call, two rooms with different ids that are both unlocked
    do not overlap, unless the final loop stopped at its cap of 10 passes
    with [hasOverlap] still set.  The solver tells rooms apart by their
    id, and the result carries the ids of the input in the same order.
    The call always returns. *)
Theorem unlocked_rooms_disjoint_unless_cap (movedRoomId : string)
    (newBounds : loc) (rooms : list EditorRoom) (grid : GridConfig)
    (iterations : nat) (h : Store) :
  exists result hasOverlap safetyCounter h',
    call (applySpringNetworkTraced movedRoomId newBounds rooms grid
            iterations) h
      = Some ((result, (hasOverlap, safetyCounter)), h') /\
    call (applySpringNetwork movedRoomId newBounds rooms grid iterations) h
      = Some (result, h') /\
    map id result = map id rooms /\
    ((hasOverlap = true /\ safetyCounter = 10%nat) \/
     (forall r1 r2, In r1 result -> In r2 result -> id r1 <> id r2 ->
        isLocked r1 = false -> isLocked r2 = false ->
        boundsOverlap (deref h' (bounds r1)) (deref h' (bounds r2))
          = false)).
Proof.
  destruct (solver_run movedRoomId rooms grid newBounds iterations h)
    as (result & ho & sc & s5 & E & F & Ht & Hf & _).
  destruct (call_traced _ _ _ _ _ _ _ _ _ E) as [E1 E2].
  exists result, ho, sc, (store s5).
  split; [exact E1|]. split; [exact E2|].
  split.
  { clear - F. induction F as [|q r qs rs (I & _) _ IH]; simpl;
      [reflexivity | now rewrite I, IH]. }
  destruct ho; [left; auto|right].
  specialize (Hf eq_refl).
  intros r1 r2 H1 H2 Nid L1 L2.
  destruct (Forall2_In_r _ _ _ _ F H1)
    as (q1 & Q1 & I1 & K1 & l1 & G1 & B1 & _).
  destruct (Forall2_In_r _ _ _ _ F H2)
    as (q2 & Q2 & I2 & K2 & l2 & G2 & B2 & _).
  rewrite (boundsOverlap_eq _ _ _ _ B1 B2).
  destruct (String.eqb_spec (id q1) movedRoomId) as [M1|M1].
  - assert (M2 : id q2 <> movedRoomId) by congruence.
    destruct (Hf q2 Q2 M2 ltac:(congruence) q1 Q1 ltac:(congruence))
      as (lb & lo & Gb & Go & Ov).
    rewrite boundsOverlap_sym. congruence.
  - destruct (Hf q1 Q1 M1 ltac:(congruence) q2 Q2 ltac:(congruence))
      as (lb & lo & Gb & Go & Ov).
    congruence.
Qed.

(** C2 (amended): the moved room ends on [newBounds] snapped to the grid
    and kept within the canvas; it ends exactly on [newBounds] when that
    box is left as it is by the snap and the canvas clamps. *)
Theorem moved_room_bounds (movedRoomId : string) (newBounds : loc)
    (rooms : list EditorRoom) (grid : GridConfig) (iterations : nat)
    (h : Store) :
  (newBounds < length h)%nat ->
  exists result h',
    call (applySpringNetwork movedRoomId newBounds rooms grid iterations) h
      = Some (result, h') /\
    Forall2 (fun room r =>
      id r = id room /\
      (id room = movedRoomId ->
       bounds_eq (deref h' (bounds r)) (snapClamp (deref h newBounds) grid) /\
       (bounds_eq (snapClamp (deref h newBounds) grid) (deref h newBounds) ->
        bounds_eq (deref h' (bounds r)) (deref h newBounds))))
      rooms result.
Proof.
  intro Hnb.
  destruct (solver_run movedRoomId rooms grid newBounds iterations h)
    as (result & ho & sc & s5 & E & F & _ & _ & D).
  destruct (call_traced _ _ _ _ _ _ _ _ _ E) as [_ E2].
  destruct (D Hnb) as (_ & _ & _ & (lm & Gm & Vm) & _).
  exists result, (store s5). split; [exact E2|].
  eapply Forall2_impl; [|exact F].
  intros room r (I & _ & l & G & B & _). split; [auto|].
  intro M. rewrite M in G.
  assert (l = lm) by congruence. subst l. rewrite Vm in B.
  split; [exact B|]. intro Fx. eapply bounds_eq_trans; eauto.
Qed.

(** X1: caller-owned objects after a call: every object other than the one
    passed as [newBounds] is unchanged; that one is unchanged when
    snapping is on, and is overwritten with its clamped value when
    snapping is off. *)
Theorem caller_objects_after_call (movedRoomId : string) (newBounds : loc)
    (rooms : list EditorRoom) (grid : GridConfig) (iterations : nat)
    (h : Store) :
  (newBounds < length h)%nat ->
  exists result h',
    call (applySpringNetwork movedRoomId newBounds rooms grid iterations) h
      = Some (result, h') /\
    (length h <= length h')%nat /\
    (forall l, (l < length h)%nat -> l <> newBounds ->
       deref h' l = deref h l) /\
    deref h' newBounds =
      (if snapEnabled grid then deref h newBounds
       else clampBox (deref h newBounds)).
Proof.
  intro Hnb.
  destruct (solver_run movedRoomId rooms grid newBounds iterations h)
    as (result & ho & sc & s5 & E & F & _ & _ & D).
  destruct (call_traced _ _ _ _ _ _ _ _ _ E) as [_ E2].
  destruct (D Hnb) as (L & Fr & Nb & _).
  exists result, (store s5). split; [exact E2|]. split; [exact L|].
  split; [exact Fr|]. rewrite Nb.
  unfold snapClamp, snapBoundsToGrid.
  destruct (snapEnabled grid); reflexivity.
Qed.

(** ** Placing a new room: the caller's objects are not written to *)

Lemma Owned_update (h : Store) (cur : loc) (s : State) f :
  Owned h cur s ->
  Owned h cur (mkState (update (store s) cur f) (workingBounds s)).
Proof.
  intros [[ext E] L]. split; cbn [store].
  - rewrite E, update_app_new by lia. eauto.
  - now rewrite update_length.
Qed.

Lemma Owned_keepWithinCanvas (h : Store) (cur : loc) (s : State) :
  Owned h cur s ->
  exists s', keepWithinCanvas cur s = Some (tt, s') /\ Owned h cur s'.
Proof.
  intro O. eexists. split; [reflexivity|].
  apply (Owned_update h cur
           (mkState (update (store s) cur _) (workingBounds s))).
  now apply Owned_update.
Qed.

Lemma Owned_snap (h : Store) (grid : GridConfig) (cur : loc) (s : State) :
  Owned h cur s ->
  exists cur' s',
    snapBoundsToGridRef cur grid s = Some (cur', s') /\ Owned h cur' s'.
Proof.
  intros [[ext E] L]. unfold snapBoundsToGridRef.
  destruct (snapEnabled grid); cbn [negb].
  - eexists _, _. split; [reflexivity|]. split; cbn [store].
    + rewrite E, <- app_assoc. eauto.
    + rewrite length_app. simpl. lia.
  - exists cur, s. split; [reflexivity|]. split; eauto.
Qed.

Lemma nudgeFirstOverlap_owned (h : Store) (room : EditorRoom)
    (grid : GridConfig) (others : list EditorRoom) :
  forall cur s, Owned h cur s ->
  exists ho cur' s',
    nudgeFirstOverlap room grid cur others s = Some ((ho, cur'), s') /\
    Owned h cur' s'.
Proof.
  induction others as [|other rest IH]; intros cur s O; simpl.
  - exists false, cur, s. auto.
  - destruct (String.eqb (id other) (id room)); [now apply IH|].
    unfold bind at 1. unfold load at 1. unfold bind at 1. unfold load at 1.
    destruct (boundsOverlap _ _); [|now apply IH].
    cbv zeta.
    match goal with
    | |- context [bind (if ?c then set_x cur ?vx else set_y cur ?vy)] =>
        assert (Hs : exists s1,
          (if c then set_x cur vx else set_y cur vy) s = Some (tt, s1) /\
          Owned h cur s1)
    end.
    { destruct (Qlt_bool _ _); eexists; (split; [reflexivity|]);
        now apply Owned_update. }
    destruct Hs as (s1 & E1 & O1).
    destruct (Owned_snap h grid cur s1 O1) as (cur' & s2 & E2 & O2).
    destruct (Owned_keepWithinCanvas h cur' s2 O2) as (s3 & E3 & O3).
    exists true, cur', s3. split; [|exact O3].
    eapply bind_intro; [exact E1|].
    eapply bind_intro; [exact E2|].
    eapply bind_intro; [exact E3|]. reflexivity.
Qed.

Lemma nudgeLoop_owned (h : Store) (room : EditorRoom)
    (allRooms : list EditorRoom) (grid : GridConfig) (n : nat) :
  forall cur s, Owned h cur s ->
  exists cur' s',
    nudgeLoop room allRooms grid n cur s = Some (cur', s') /\
    Owned h cur' s'.
Proof.
  induction n as [|n IH]; intros cur s O; simpl.
  - exists cur, s. auto.
  - destruct (nudgeFirstOverlap_owned h room grid allRooms cur s O)
      as (ho & cur1 & s1 & E1 & O1).
    unfold bind. rewrite E1. destruct ho; [now apply IH|].
    exists cur1, s1. auto.
Qed.

(** X2: [findNonOverlappingPosition] returns a fresh object and leaves
    every object of the caller as it was, whether snapping is on or off. *)
Theorem findNonOverlappingPosition_keeps_caller_objects
    (room : EditorRoom) (desiredBounds : loc) (allRooms : list EditorRoom)
    (grid : GridConfig) (maxIterations : nat) (h : Store) :
  exists l h',
    call (findNonOverlappingPosition room desiredBounds allRooms grid
            maxIterations) h = Some (l, h') /\
    (exists ext, h' = h ++ ext) /\
    (length h <= l < length h')%nat.
Proof.
  destruct (nudgeLoop_owned h room allRooms grid maxIterations (length h)
              (mkState (h ++ [deref h desiredBounds]) []))
    as (l & s' & E & [X L]).
  { split; cbn [store]; [eauto | rewrite length_app; simpl; lia]. }
  exists l, (store s'). split; [|auto].
  assert (R : findNonOverlappingPosition room desiredBounds allRooms grid
                maxIterations (mkState h []) = Some (l, s')).
  { unfold findNonOverlappingPosition.
    eapply bind_intro; [reflexivity|].
    eapply bind_intro; [reflexivity|]. exact E. }
  unfold call. now rewrite R.
Qed.

(** C3 (amended): a locked room other than the moved one, whose box is
    left as it is by the snap and the canvas clamps, is returned as the
    same room object, and its box holds the same numbers as before. *)
Theorem locked_room_unchanged (movedRoomId : string) (newBounds : loc)
    (rooms : list EditorRoom) (grid : GridConfig) (iterations : nat)
    (h : Store) (room : EditorRoom) :
  (newBounds < length h)%nat ->
  NoDup (map id rooms) ->
  In room rooms -> isLocked room = true -> id room <> movedRoomId ->
  (bounds room < length h)%nat ->
  bounds_eq (snapClamp (deref h (bounds room)) grid)
            (deref h (bounds room)) ->
  exists result h',
    call (applySpringNetwork movedRoomId newBounds rooms grid iterations) h
      = Some (result, h') /\
    In room result /\
    bounds_eq (deref h' (bounds room)) (deref h (bounds room)).
Proof.
  intros Hnb ND Hin Lk Nm Hb Fx.
  destruct (solver_run movedRoomId rooms grid newBounds iterations h)
    as (result & ho & sc & s5 & E & F & _ & _ & D).
  destruct (call_traced _ _ _ _ _ _ _ _ _ E) as [_ E2].
  destruct (D Hnb) as (_ & Fr & Nb & _ & Lock).
  exists result, (store s5). split; [exact E2|].
  assert (NM : ~ Movable movedRoomId rooms (id room)).
  { intros (_ & r & Hr & Hid & Hl).
    rewrite (NoDup_map_eq id rooms r room ND Hr Hin Hid) in Hl. congruence. }
  destruct (Lock room Hin NM Nm) as (l & r' & G & Hr' & Hid & V).
  rewrite (NoDup_map_eq id rooms r' room ND Hr' Hin Hid) in V.
  specialize (V Hb).
  assert (Same : bounds_eq (deref (store s5) (bounds room))
                           (deref h (bounds room))).
  { destruct (Nat.eq_dec (bounds room) newBounds) as [En|Nn].
    - rewrite En in *. rewrite Nb.
      destruct (snapEnabled grid); [apply bounds_eq_refl | exact Fx].
    - rewrite Fr by auto. apply bounds_eq_refl. }
  split; [|exact Same].
  destruct (Forall2_In_l _ _ _ _ F Hin)
    as (r & Hr & _ & _ & l' & G' & _ & Eq).
  assert (l' = l) by congruence. subst l'.
  rewrite Eq in Hr; [exact Hr|]. rewrite V.
  eapply bounds_eq_trans; [exact Fx|]. now apply bounds_eq_sym.
Qed.

(** ** The pushes of the repulsion pass and of the final loop *)

Section Pushes.

Variable movedRoomId : string.
Variable rooms : list EditorRoom.
Variable grid : GridConfig.

Lemma repulsionPush_acc (b ob : BoundingBox) (adjustX adjustY : Q) :
  fst (repulsionPush b ob (adjustX, adjustY))
    == adjustX + fst (repulsionPush b ob (0, 0)) /\
  snd (repulsionPush b ob (adjustX, adjustY))
    == adjustY + snd (repulsionPush b ob (0, 0)).
Proof.
  unfold repulsionPush. destruct (Qlt_bool _ _); cbn [fst snd]; split; ring.
Qed.

Lemma workingBox_get (s : State) (k : string) (l : loc) :
  map_get (workingBounds s) k = Some l ->
  workingBox s k = deref (store s) l.
Proof. unfold workingBox. now intros ->. Qed.

(** The inner loop of the repulsion pass leaves the state as it is and
    returns the sum of the pushes of the overlapping rooms. *)
Lemma repulsionAdjust_fold (room : EditorRoom) (bounds : loc) (s : State) :
  forall (others : list EditorRoom) (acc : Q * Q),
  (forall o, In o others -> map_get (workingBounds s) (id o) <> None) ->
  let b := deref (store s) bounds in
  exists adj,
    foldM others acc (fun adjust other =>
      if String.eqb (id other) (id room) then ret adjust
      else
        otherBounds <- wb_get (id other) ;;
        b <- load bounds ;;
        ob <- load otherBounds ;;
        if boundsOverlap b ob then ret (repulsionPush b ob adjust)
        else ret adjust) s = Some (adj, s) /\
    fst adj == fst acc
               + sumQ (map (fun ob => fst (repulsionPush b ob (0, 0)))
                           (overlapping s others room b)) /\
    snd adj == snd acc
               + sumQ (map (fun ob => snd (repulsionPush b ob (0, 0)))
                           (overlapping s others room b)).
Proof.
  intros others. induction others as [|o others IH]; intros acc Hk b.
  - exists acc. split; [reflexivity|]. cbn. split; ring.
  - assert (Hk' : forall o', In o' others ->
                    map_get (workingBounds s) (id o') <> None)
      by (intros; apply Hk; now right).
    cbn [foldM]. unfold overlapping. cbn [filter].
    destruct (String.eqb (id o) (id room)) eqn:E.
    + cbn [negb andb]. unfold bind at 1. unfold ret at 1.
      exact (IH acc Hk').
    + cbn [negb andb].
      destruct (map_get (workingBounds s) (id o)) as [lo|] eqn:G;
        [|exfalso; apply (Hk o); [now left | exact G]].
      rewrite (workingBox_get _ _ _ G).
      unfold bind at 1. unfold bind at 1. unfold wb_get at 1. rewrite G.
      unfold bind at 1. unfold load at 1. unfold bind at 1. unfold load at 1.
      cbn [store]. fold b.
      destruct (boundsOverlap b (deref (store s) lo)) eqn:Ov.
      * unfold ret at 1.
        destruct (IH (repulsionPush b (deref (store s) lo) acc) Hk')
          as (adj & R & Fx & Fy).
        exists adj. split; [exact R|].
        destruct acc as [ax ay].
        destruct (repulsionPush_acc b (deref (store s) lo) ax ay) as [Px Py].
        cbn [map sumQ fst snd] in *. fold b in Fx, Fy.
        unfold overlapping in Fx, Fy.
        rewrite Fx, Fy, Px, Py, (workingBox_get _ _ _ G). split; ring.
      * unfold ret at 1. exact (IH acc Hk').
Qed.

(** One iteration of the repulsion pass on a room that is neither the
    moved one nor locked: its working box is moved by the sum of the
    pushes; no other entry and no existing object is touched. *)
Lemma repulsionRoom_run (room : EditorRoom) (s : State) :
  In room rooms ->
  (forall r, In r rooms -> map_get (workingBounds s) (id r) <> None) ->
  id room <> movedRoomId -> isLocked room = false ->
  let b := workingBox s (id room) in
  let pushes := map (fun ob => repulsionPush b ob (0, 0))
                    (overlapping s rooms room b) in
  exists s',
    repulsionRoom movedRoomId rooms room s = Some (tt, s') /\
    bounds_eq (workingBox s' (id room))
              (mkBounds (x b + sumQ (map fst pushes))
                        (y b + sumQ (map snd pushes))
                        (width b) (height b)) /\
    (exists ext, store s' = store s ++ ext) /\
    (forall k, k <> id room ->
       map_get (workingBounds s') k = map_get (workingBounds s) k).
Proof.
  intros Hin Hk Nm Lk b pushes.
  destruct (map_get (workingBounds s) (id room)) as [l|] eqn:G;
    [|exfalso; exact (Hk room Hin G)].
  assert (Eb : b = deref (store s) l) by (apply workingBox_get; exact G).
  destruct (repulsionAdjust_fold room l s rooms (0, 0) Hk)
    as ([ax ay] & R & Fx & Fy).
  cbv zeta in Fx, Fy. rewrite <- Eb in Fx, Fy. cbn [fst snd] in Fx, Fy.
  assert (Sx : sumQ (map fst pushes) == ax).
  { unfold pushes. rewrite map_map. rewrite Fx. ring. }
  assert (Sy : sumQ (map snd pushes) == ay).
  { unfold pushes. rewrite map_map. rewrite Fy. ring. }
  unfold repulsionRoom.
  destruct (String.eqb_spec (id room) movedRoomId) as [E|_]; [contradiction|].
  rewrite Lk.
  unfold bind at 1. unfold wb_get at 1. rewrite G.
  unfold bind at 1. unfold repulsionAdjust. rewrite R.
  destruct (negb (Qeq_bool ax 0) || negb (Qeq_bool ay 0)) eqn:C.
  - eexists. split; [reflexivity|]. cbn [store workingBounds].
    split; [|split; [eauto|]].
    + unfold workingBox. cbn [store workingBounds].
      rewrite map_get_set_same, deref_app_new. rewrite <- Eb.
      unfold bounds_eq. cbn [x y width height].
      rewrite Sx, Sy. repeat split; reflexivity.
    + intros k Nk. apply map_get_set_other. congruence.
  - apply orb_false_iff in C. destruct C as [Cx Cy].
    apply negb_false_iff in Cx, Cy.
    apply Qeq_bool_iff in Cx, Cy.
    exists s. split; [reflexivity|].
    split; [|split; [exists []; now rewrite app_nil_r | auto]].
    fold b. unfold bounds_eq. cbn [x y width height].
    rewrite Sx, Sy, Cx, Cy. repeat split; ring.
Qed.

(** The moved room and locked rooms are not pushed by the pass. *)
Lemma repulsionRoom_skip (room : EditorRoom) (s : State) :
  id room = movedRoomId \/ isLocked room = true ->
  repulsionRoom movedRoomId rooms room s = Some (tt, s).
Proof.
  intros H. unfold repulsionRoom.
  destruct (String.eqb_spec (id room) movedRoomId) as [E|N]; [reflexivity|].
  destruct H as [H|H]; [contradiction|]. now rewrite H.
Qed.

Lemma snap_keep_set_value (k : string) (h : Store) (b1 : BoundingBox) w :
  exists ext l,
    (nb' <- snapBoundsToGridRef (length h) grid ;;
     keepWithinCanvas nb' ;; wb_set k nb') (mkState (h ++ [b1]) w)
    = Some (tt, mkState (h ++ ext) (map_set w k l)) /\
    (length h <= l < length h + length ext)%nat /\
    deref (h ++ ext) l = snapClamp b1 grid.
Proof.
  unfold snapBoundsToGridRef. destruct (snapEnabled grid) eqn:Sn; cbn [negb].
  - exists [b1; snapClamp b1 grid], (S (length h)).
    split; [|split; [simpl; lia|]].
    + unfold bind at 1 2. unfold load at 1. cbn [store workingBounds].
      rewrite deref_app_new. unfold alloc at 1. cbn [store workingBounds].
      unfold bind at 1. rewrite keepWithinCanvas_last.
      unfold wb_set. cbn [store workingBounds].
      rewrite <- app_assoc, length_app, Nat.add_comm. reflexivity.
    + unfold deref. rewrite app_nth2 by lia.
      replace (S (length h) - length h)%nat with 1%nat by lia. reflexivity.
  - exists [clampBox b1], (length h).
    split; [|split; [simpl; lia|]].
    + unfold bind at 1. unfold ret at 1. unfold bind at 1.
      rewrite keepWithinCanvas_last. reflexivity.
    + rewrite deref_app_new. unfold snapClamp, snapBoundsToGrid.
      now rewrite Sn.
Qed.

(** The push of the final loop: a fresh object holds [finalPush], snapped
    and kept within the canvas, and becomes the room's working box. *)
Lemma cleanupPush_run (room : EditorRoom) (b ob : BoundingBox) (s : State) :
  exists ext l,
    cleanupPush grid room b ob s
    = Some (tt, mkState (store s ++ ext)
                        (map_set (workingBounds s) (id room) l)) /\
    (length (store s) <= l < length (store s) + length ext)%nat /\
    deref (store s ++ ext) l = snapClamp (finalPush grid b ob) grid.
Proof.
  destruct s as [h w]. cbn [store workingBounds].
  set (ox := Math_min (x b + width b - x ob) (x ob + width ob - x b)).
  set (oy := Math_min (y b + height b - y ob) (y ob + height ob - y b)).
  assert (E :
    (if Qlt_bool ox oy
     then v <- load (length h) ;;
          set_x (length h)
            (x v + (if Qlt_bool (px (getBoundsCenter ob))
                                (px (getBoundsCenter b))
                    then 1 else -1) * (ox + size grid))
     else v <- load (length h) ;;
          set_y (length h)
            (y v + (if Qlt_bool (py (getBoundsCenter ob))
                                (py (getBoundsCenter b))
                    then 1 else -1) * (oy + size grid)))
      (mkState (h ++ [b]) w)
    = Some (tt, mkState (h ++ [finalPush grid b ob]) w)).
  { unfold finalPush. fold ox oy.
    destruct (Qlt_bool ox oy); unfold bind, load, set_x, set_y;
      cbn [store workingBounds]; rewrite deref_app_new, update_last;
      reflexivity. }
  destruct (snap_keep_set_value (id room) h (finalPush grid b ob) w)
    as (ext & l & E2 & Hl & V).
  exists ext, l. split; [|auto].
  unfold cleanupPush. fold ox oy.
  eapply bind_intro; [reflexivity|].
  eapply bind_intro; [exact E|]. exact E2.
Qed.

(** One pair of the final loop: when the working boxes overlap, the flag
    is set and the room is pushed; when they do not, nothing happens. *)
Lemma cleanupPair_run (room : EditorRoom) (bounds : loc) (ho : bool)
    (other : EditorRoom) (s : State) (lo : loc) :
  id other <> id room ->
  map_get (workingBounds s) (id other) = Some lo ->
  let b := deref (store s) bounds in
  let ob := deref (store s) lo in
  exists s',
    cleanupPair grid room bounds ho other s
    = Some ((if boundsOverlap b ob then true else ho), s') /\
    (boundsOverlap b ob = true ->
     workingBox s' (id room) = snapClamp (finalPush grid b ob) grid /\
     (exists ext, store s' = store s ++ ext) /\
     (forall k, k <> id room ->
        map_get (workingBounds s') k = map_get (workingBounds s) k)) /\
    (boundsOverlap b ob = false -> s' = s).
Proof.
  intros N G b ob. unfold cleanupPair.
  destruct (String.eqb_spec (id other) (id room)) as [E|_]; [contradiction|].
  unfold bind at 1. unfold wb_get at 1. rewrite G.
  unfold bind at 1. unfold load at 1. unfold bind at 1. unfold load at 1.
  cbn [store]. fold b ob.
  destruct (boundsOverlap b ob) eqn:Ov.
  - destruct (cleanupPush_run room b ob s) as (ext & l & E & Hl & V).
    eexists. split.
    { eapply bind_intro; [exact E | reflexivity]. }
    split; [|discriminate]. intros _. cbn [store workingBounds].
    split; [|split; [eauto|]].
    + unfold workingBox. cbn [store workingBounds].
      now rewrite map_get_set_same.
    + intros k Nk. apply map_get_set_other. congruence.
  - exists s. split; [reflexivity|]. split; [discriminate | reflexivity].
Qed.

(** With coincident centres the push of the final loop goes in the
    negative direction of the axis of least overlap. *)
Lemma finalPush_same_centre (b ob : BoundingBox) :
  px (getBoundsCenter b) == px (getBoundsCenter ob) ->
  py (getBoundsCenter b) == py (getBoundsCenter ob) ->
  let overlapX :=
    Math_min (x b + width b - x ob) (x ob + width ob - x b) in
  let overlapY :=
    Math_min (y b + height b - y ob) (y ob + height ob - y b) in
  finalPush grid b ob =
    if Qlt_bool overlapX overlapY
    then mkBounds (x b + -1 * (overlapX + size grid)) (y b)
                  (width b) (height b)
    else mkBounds (x b) (y b + -1 * (overlapY + size grid))
                  (width b) (height b).
Proof.
  intros Hx Hy overlapX overlapY. unfold finalPush. fold overlapX overlapY.
  destruct (Qlt_bool_spec (px (getBoundsCenter ob)) (px (getBoundsCenter b)));
    [lra|].
  destruct (Qlt_bool_spec (py (getBoundsCenter ob)) (py (getBoundsCenter b)));
    [lra|].
  reflexivity.
Qed.

Lemma repulsionPush_same_centre (b ob : BoundingBox) (adjustX adjustY : Q) :
  px (getBoundsCenter b) == px (getBoundsCenter ob) ->
  py (getBoundsCenter b) == py (getBoundsCenter ob) ->
  let overlapX :=
    Math_min (x b + width b - x ob) (x ob + width ob - x b) in
  let overlapY :=
    Math_min (y b + height b - y ob) (y ob + height ob - y b) in
  repulsionPush b ob (adjustX, adjustY) =
    if Qlt_bool overlapX overlapY
    then (adjustX + -1 * (overlapX + 2), adjustY)
    else (adjustX, adjustY + -1 * (overlapY + 2)).
Proof.
  intros Hx Hy overlapX overlapY.
  unfold repulsionPush. fold overlapX overlapY.
  destruct (Qlt_bool_spec 0 (px (getBoundsCenter b) - px (getBoundsCenter ob)));
    [lra|].
  destruct (Qlt_bool_spec 0 (py (getBoundsCenter b) - py (getBoundsCenter ob)));
    [lra|].
  reflexivity.
Qed.

(** *** Quotients of the solver *)

Lemma js_div_finite (a b : Q) : ~ b == 0 -> js_div a b = Finite (a / b).
Proof.
  intro N. unfold js_div. destruct (Qeq_bool_spec b 0); [contradiction|].
  reflexivity.
Qed.

Lemma Forall2_app_intro {A B} (P : A -> B -> Prop) l1 l2 m1 m2 :
  Forall2 P l1 m1 -> Forall2 P l2 m2 -> Forall2 P (l1 ++ l2) (m1 ++ m2).
Proof. induction 1; simpl; auto. Qed.

(** For a room of non-zero width and height every offset of
    [findAdjacentRooms] is a finite quotient, clamped to [0, 1]. *)
Lemma connectionOffsets_finite (h : Store) (room : EditorRoom)
    (allRooms : list EditorRoom) (tolerance : Q) :
  ~ width (deref h (bounds room)) == 0 ->
  ~ height (deref h (bounds room)) == 0 ->
  Forall2 (fun c kq =>
             roomId c = fst kq /\
             exists q, snd kq = Finite q /\
                       offset c = Math_max 0 (Math_min 1 q))
          (findAdjacentRooms h room allRooms tolerance)
          (connectionOffsets h room allRooms tolerance).
Proof.
  intros Hw Hh. unfold findAdjacentRooms, connectionOffsets.
  induction allRooms as [|other rest IH]; [constructor|].
  cbn [flat_map]. apply Forall2_app_intro; [|exact IH].
  destruct (String.eqb (id other) (id room)); [constructor|].
  destruct (boundsAdjacent _ _ _); [|constructor].
  cbv zeta. destruct (Qlt_bool (Qabs _) (Qabs _));
    (constructor; [|constructor]); cbn [roomId offset fst snd];
    (split; [reflexivity|]); eexists;
    (split; [apply js_div_finite; assumption | reflexivity]).
Qed.

End Pushes.


(** * More facts about the code *)

(** ** Grid snapper *)

Lemma Math_round_bounds (v : Q) :
  v - (1 # 2) < Math_round v /\ Math_round v <= v + (1 # 2).
Proof.
  unfold Math_round. split.
  - pose proof (Qlt_floor (v + (1 # 2))) as H.
    rewrite inject_Z_plus in H. change (inject_Z 1) with 1 in H.
    set (f := inject_Z (Qfloor (v + (1 # 2)))) in *. lra.
  - apply Qfloor_le.
Qed.

Lemma Math_round_comp (v w : Q) : v == w -> Math_round v == Math_round w.
Proof. intro E. unfold Math_round. now rewrite E. Qed.

Lemma Math_round_inject_Z (k : Z) : Math_round (inject_Z k) == inject_Z k.
Proof.
  unfold Math_round.
  assert (E : Qfloor (inject_Z k + (1 # 2)) = k).
  { unfold Qfloor, Qplus, inject_Z. cbn [Qnum Qden].
    change (Z.pos (1 * 2)) with 2%Z.
    rewrite Z.mul_1_l. symmetry. apply (Z.div_unique _ _ _ 1); lia. }
  now rewrite E.
Qed.

Lemma snapToGrid_comp (v w g : Q) : v == w -> snapToGrid v g == snapToGrid w g.
Proof.
  intro E. unfold snapToGrid.
  rewrite (Math_round_comp (v / g) (w / g)); [reflexivity | now rewrite E].
Qed.

Lemma snapToGrid_multiple (g : Q) (k : Z) :
  0 < g -> snapToGrid (inject_Z k * g) g == inject_Z k * g.
Proof.
  intro Hg. unfold snapToGrid.
  rewrite (Math_round_comp (inject_Z k * g / g) (inject_Z k)).
  - now rewrite Math_round_inject_Z.
  - field. lra.
Qed.

Lemma snapToGrid_near (v g : Q) :
  0 < g -> Qabs (snapToGrid v g - v) <= g / 2.
Proof.
  intro Hg. unfold snapToGrid.
  destruct (Math_round_bounds (v / g)) as [L U].
  set (r := Math_round (v / g)) in *.
  assert (E : v == v / g * g) by (field; lra).
  assert (L' : (v / g - (1 # 2)) * g < r * g).
  { apply Qmult_lt_compat_r; auto. }
  assert (U' : r * g <= (v / g + (1 # 2)) * g).
  { apply Qmult_le_compat_r; auto. lra. }
  apply Qabs_Qle_condition.
  assert (E1 : (v / g - (1 # 2)) * g == v - g / 2) by (field; lra).
  assert (E2 : (v / g + (1 # 2)) * g == v + g / 2) by (field; lra).
  rewrite E1 in L'. rewrite E2 in U'. split; lra.
Qed.

(** X3: for a positive pitch, [snapToGrid] returns a multiple of the pitch
    that is at most half a pitch away from the value. *)
Theorem snapToGrid_nearest (v g : Q) :
  0 < g ->
  multiple_of g (snapToGrid v g) /\
  Qabs (snapToGrid v g - v) <= g / 2.
Proof.
  intro Hg. split; [apply multiple_of_snapToGrid | now apply snapToGrid_near].
Qed.

(** For a positive pitch, a multiple of the pitch is left where it is
    by [snapToGrid], so snapping twice is snapping once. *)
Theorem snapToGrid_idempotent (v g : Q) :
  0 < g ->
  (forall k : Z, snapToGrid (inject_Z k * g) g == inject_Z k * g) /\
  snapToGrid (snapToGrid v g) g == snapToGrid v g.
Proof.
  intro Hg. split.
  - intro k. now apply snapToGrid_multiple.
  - destruct (multiple_of_snapToGrid v g) as [k Hk].
    rewrite (snapToGrid_comp _ _ g Hk), Hk. now apply snapToGrid_multiple.
Qed.

(** X4: [snapPointToGrid] returns the point itself when snapping is off;
    when it is on, with a positive pitch, both coordinates land on the grid,
    each at most half a pitch from where it was. *)
Theorem snapPointToGrid_spec (p : Point) (grid : GridConfig) :
  0 < size grid ->
  (snapEnabled grid = false -> snapPointToGrid p grid = p) /\
  (snapEnabled grid = true ->
   let q := snapPointToGrid p grid in
   multiple_of (size grid) (px q) /\ multiple_of (size grid) (py q) /\
   Qabs (px q - px p) <= size grid / 2 /\
   Qabs (py q - py p) <= size grid / 2).
Proof.
  intro Hg. unfold snapPointToGrid. split; intros ->; cbn [negb].
  - reflexivity.
  - cbn [px py].
    auto using multiple_of_snapToGrid, snapToGrid_near.
Qed.

Lemma Math_max_comp (a b b' : Q) : b == b' -> Math_max a b == Math_max a b'.
Proof.
  intro E.
  destruct (Math_max_cases a b) as [[? ->]|[? ->]];
  destruct (Math_max_cases a b') as [[? ->]|[? ->]]; lra.
Qed.

(** X5: when [MIN_ROOM_SIZE] is a multiple of a positive pitch, a snapped
    box is left as it is by [snapBoundsToGrid]: snapping twice is snapping
    once. *)
Theorem snapBoundsToGrid_idempotent (b : BoundingBox) (g : GridConfig) :
  0 < size g -> multiple_of (size g) MIN_ROOM_SIZE ->
  bounds_eq (snapBoundsToGrid (snapBoundsToGrid b g) g)
            (snapBoundsToGrid b g).
Proof.
  intros Hg Hm. destruct (snapEnabled g) eqn:Sn.
  2:{ unfold snapBoundsToGrid. rewrite Sn. cbn [negb]. apply bounds_eq_refl. }
  set (s := snapBoundsToGrid b g).
  assert (Mx : multiple_of (size g) (x s)).
  { unfold s, snapBoundsToGrid. rewrite Sn. apply multiple_of_snapToGrid. }
  assert (My : multiple_of (size g) (y s)).
  { unfold s, snapBoundsToGrid. rewrite Sn. apply multiple_of_snapToGrid. }
  assert (Wm : MIN_ROOM_SIZE <= width s).
  { unfold s, snapBoundsToGrid. rewrite Sn. apply Math_max_lb_l. }
  assert (Hm' : MIN_ROOM_SIZE <= height s).
  { unfold s, snapBoundsToGrid. rewrite Sn. apply Math_max_lb_l. }
  assert (Mr : multiple_of (size g) (x s + width s)).
  { unfold s, snapBoundsToGrid. rewrite Sn. cbn [negb x width].
    destruct (Math_max_cases MIN_ROOM_SIZE
      (snapToGrid (x b + width b) (size g) - snapToGrid (x b) (size g)))
      as [[? ->]|[? ->]].
    - eapply multiple_of_eq;
        [|apply (multiple_of_snapToGrid (x b + width b) (size g))]. ring.
    - apply multiple_of_plus; [apply multiple_of_snapToGrid | exact Hm]. }
  assert (Mb : multiple_of (size g) (y s + height s)).
  { unfold s, snapBoundsToGrid. rewrite Sn. cbn [negb y height].
    destruct (Math_max_cases MIN_ROOM_SIZE
      (snapToGrid (y b + height b) (size g) - snapToGrid (y b) (size g)))
      as [[? ->]|[? ->]].
    - eapply multiple_of_eq;
        [|apply (multiple_of_snapToGrid (y b + height b) (size g))]. ring.
    - apply multiple_of_plus; [apply multiple_of_snapToGrid | exact Hm]. }
  assert (Fix : forall v, multiple_of (size g) v -> snapToGrid v (size g) == v).
  { intros v [k Hk]. rewrite (snapToGrid_comp _ _ _ Hk), Hk.
    now apply snapToGrid_multiple. }
  unfold bounds_eq, snapBoundsToGrid at 1 2 3 4. rewrite Sn. cbn [negb].
  cbn [x y width height].
  pose proof (Fix _ Mx) as Ex. pose proof (Fix _ My) as Ey.
  pose proof (Fix _ Mr) as Er. pose proof (Fix _ Mb) as Eb.
  split; [exact Ex|]. split; [exact Ey|]. split.
  - rewrite (Math_max_comp _ _ (width s)) by lra.
    destruct (Math_max_cases MIN_ROOM_SIZE (width s)) as [[? ->]|[? ->]]; lra.
  - rewrite (Math_max_comp _ _ (height s)) by lra.
    destruct (Math_max_cases MIN_ROOM_SIZE (height s)) as [[? ->]|[? ->]]; lra.
Qed.

(** ** Bounding boxes, polygons and translations *)

Lemma Math_min_list_le (vs : list Q) : forall v,
  Math_min_list v vs <= v /\
  forall u, In u vs -> Math_min_list v vs <= u.
Proof.
  unfold Math_min_list.
  induction vs as [|w vs IH]; intro v; simpl.
  - split; [lra | intros ? []].
  - destruct (IH (Math_min v w)) as [A B].
    destruct (Math_min_cases v w) as [[? E]|[? E]]; rewrite E in *.
    + split; [lra|]. intros u [<-|Hu]; [lra | auto].
    + split; [lra|]. intros u [<-|Hu]; [lra | auto].
Qed.

Lemma Math_max_list_ge (vs : list Q) : forall v,
  v <= Math_max_list v vs /\
  forall u, In u vs -> u <= Math_max_list v vs.
Proof.
  unfold Math_max_list.
  induction vs as [|w vs IH]; intro v; simpl.
  - split; [lra | intros ? []].
  - destruct (IH (Math_max v w)) as [A B].
    destruct (Math_max_cases v w) as [[? E]|[? E]]; rewrite E in *.
    + split; [lra|]. intros u [<-|Hu]; [lra | auto].
    + split; [lra|]. intros u [<-|Hu]; [lra | auto].
Qed.

Lemma isPointInBounds_true_iff (p : Point) (b : BoundingBox) :
  isPointInBounds p b = true <->
  x b <= px p /\ px p <= x b + width b /\
  y b <= py p /\ py p <= y b + height b.
Proof.
  unfold isPointInBounds. split.
  - intro H. qcases; simpl in H; try discriminate; repeat split; lra.
  - intros (H1 & H2 & H3 & H4). qcases; simpl; try reflexivity; lra.
Qed.

(** X6: the bounding box of a list of points contains every point of the
    list, borders included. *)
Theorem getBoundingBox_contains (points : list Point) (p : Point) :
  In p points -> isPointInBounds p (getBoundingBox points) = true.
Proof.
  intro Hin. apply isPointInBounds_true_iff.
  destruct points as [|p0 ps]; [destruct Hin|].
  unfold getBoundingBox. cbn [x y width height].
  destruct (Math_min_list_le (map px ps) (px p0)) as [A1 A2].
  destruct (Math_min_list_le (map py ps) (py p0)) as [B1 B2].
  destruct (Math_max_list_ge (map px ps) (px p0)) as [C1 C2].
  destruct (Math_max_list_ge (map py ps) (py p0)) as [D1 D2].
  destruct Hin as [<-|Hin].
  - repeat split; lra.
  - pose proof (A2 _ (in_map px _ _ Hin)).
    pose proof (B2 _ (in_map py _ _ Hin)).
    pose proof (C2 _ (in_map px _ _ Hin)).
    pose proof (D2 _ (in_map py _ _ Hin)).
    repeat split; lra.
Qed.

Lemma Math_min_list_shift (d : Q) (vs : list Q) : forall v v',
  v' == v + d ->
  Math_min_list v' (map (fun u => u + d) vs) == Math_min_list v vs + d.
Proof.
  unfold Math_min_list.
  induction vs as [|w vs IH]; intros v v' E; simpl; [exact E|].
  apply IH.
  destruct (Math_min_cases v' (w + d)) as [[? ->]|[? ->]];
  destruct (Math_min_cases v w) as [[? ->]|[? ->]]; lra.
Qed.

Lemma Math_max_list_shift (d : Q) (vs : list Q) : forall v v',
  v' == v + d ->
  Math_max_list v' (map (fun u => u + d) vs) == Math_max_list v vs + d.
Proof.
  unfold Math_max_list.
  induction vs as [|w vs IH]; intros v v' E; simpl; [exact E|].
  apply IH.
  destruct (Math_max_cases v' (w + d)) as [[? ->]|[? ->]];
  destruct (Math_max_cases v w) as [[? ->]|[? ->]]; lra.
Qed.

(** X7: for a non-empty list of points, moving the points and then taking
    the bounding box gives the bounding box moved by the same delta.  (For
    the empty list [getBoundingBox] is the zero box whatever the delta.) *)
Theorem getBoundingBox_movePolygon (points : list Point) (delta : Point) :
  points <> [] ->
  bounds_eq (getBoundingBox (movePolygon points delta))
            (moveBounds (getBoundingBox points) delta).
Proof.
  intro Hne. destruct points as [|p0 ps]; [congruence|].
  unfold getBoundingBox, movePolygon, moveBounds, bounds_eq.
  cbn [map px py x y width height].
  rewrite !map_map. cbn [px py].
  rewrite <- (map_map px (fun u => u + px delta)).
  rewrite <- (map_map py (fun u => u + py delta)).
  pose proof (Math_min_list_shift (px delta) (map px ps) (px p0) _
                (Qeq_refl _)) as A.
  pose proof (Math_min_list_shift (py delta) (map py ps) (py p0) _
                (Qeq_refl _)) as B.
  pose proof (Math_max_list_shift (px delta) (map px ps) (px p0) _
                (Qeq_refl _)) as C.
  pose proof (Math_max_list_shift (py delta) (map py ps) (py p0) _
                (Qeq_refl _)) as D.
  repeat split; lra.
Qed.

(** X8: the Shoelace area of the four corners of a box is the absolute
    value of width times height. *)
Theorem calculatePolygonArea_rectangle (b : BoundingBox) :
  calculatePolygonArea (boundsToPoints b) == Qabs (width b * height b).
Proof.
  unfold calculatePolygonArea, boundsToPoints, at_index.
  cbn [length Nat.ltb Nat.leb seq fold_left Nat.add Nat.modulo nth px py
       Nat.divmod fst snd Nat.sub].
  set (a := x b). set (c := y b). set (w := width b). set (h := height b).
  assert (E : 0 + a * c - (a + w) * c + (a + w) * (c + h) - (a + w) * c
              + (a + w) * (c + h) - a * (c + h) + a * c - a * (c + h)
              == 2 * (w * h)) by ring.
  rewrite E, Qabs_Qmult. change (Qabs 2) with 2. field.
Qed.

(** The centroid of the four corners of a box is the centre of the
    box. *)
Theorem calculateCentroid_rectangle (b : BoundingBox) :
  px (calculateCentroid (boundsToPoints b)) == px (getBoundsCenter b) /\
  py (calculateCentroid (boundsToPoints b)) == py (getBoundsCenter b).
Proof.
  unfold calculateCentroid, boundsToPoints, getBoundsCenter.
  cbn [fold_left px py length].
  change (inject_Z (Z.of_nat 4)) with 4.
  split; field.
Qed.

Lemma centroid_sum_shift (d : Point) (ps : list Point) : forall acc acc',
  let s := fold_left (fun a p => mkPoint (px a + px p) (py a + py p))
                     ps acc in
  let s' := fold_left (fun a p => mkPoint (px a + px p) (py a + py p))
                      (movePolygon ps d) acc' in
  px s' == px s + (px acc' - px acc)
           + inject_Z (Z.of_nat (length ps)) * px d /\
  py s' == py s + (py acc' - py acc)
           + inject_Z (Z.of_nat (length ps)) * py d.
Proof.
  induction ps as [|p ps IH]; intros acc acc'.
  - cbn [fold_left movePolygon map length Z.of_nat].
    change (inject_Z 0) with 0. split; ring.
  - cbn [movePolygon map fold_left length]. fold (movePolygon ps d).
    cbn [px py].
    specialize (IH (mkPoint (px acc + px p) (py acc + py p))
                   (mkPoint (px acc' + (px p + px d))
                            (py acc' + (py p + py d)))).
    cbn [px py] in IH. destruct IH as [Ix Iy].
    cbv zeta. rewrite Ix, Iy.
    rewrite Nat2Z.inj_succ. unfold Z.succ. rewrite inject_Z_plus.
    change (inject_Z 1) with 1. split; ring.
Qed.

(** X9: for a non-empty polygon, the centroid of the moved polygon is the
    centroid moved by the same delta. *)
Theorem calculateCentroid_movePolygon (points : list Point) (delta : Point) :
  points <> [] ->
  px (calculateCentroid (movePolygon points delta))
    == px (calculateCentroid points) + px delta /\
  py (calculateCentroid (movePolygon points delta))
    == py (calculateCentroid points) + py delta.
Proof.
  intro Hne.
  destruct (centroid_sum_shift delta points (mkPoint 0 0) (mkPoint 0 0))
    as [Sx Sy].
  destruct points as [|p0 ps]; [congruence|].
  unfold calculateCentroid.
  cbn [movePolygon map]. fold (movePolygon ps delta).
  change (mkPoint (px p0 + px delta) (py p0 + py delta)
            :: movePolygon ps delta)
    with (movePolygon (p0 :: ps) delta).
  assert (L : length (movePolygon (p0 :: ps) delta) = length (p0 :: ps))
    by apply length_map.
  rewrite L. cbn [px py].
  set (n := inject_Z (Z.of_nat (length (p0 :: ps)))) in *.
  assert (Hn : 0 < n).
  { unfold n. cbn [length]. rewrite Nat2Z.inj_succ. unfold Z.succ.
    rewrite inject_Z_plus.
    assert (0 <= inject_Z (Z.of_nat (length ps))).
    { change 0 with (inject_Z 0). rewrite <- Zle_Qle. lia. }
    change (inject_Z 1) with 1. lra. }
  rewrite Sx, Sy. split; field; lra.
Qed.

Lemma boundsAdjacent_comm (a b : BoundingBox) (tolerance : Q) :
  boundsAdjacent a b tolerance = boundsAdjacent b a tolerance.
Proof.
  unfold boundsAdjacent. rewrite (boundsOverlap_sym b a).
  destruct (boundsOverlap a b); [reflexivity|]. cbv zeta.
  rewrite (orb_comm (Qle_bool (y b + height b) (y a))).
  rewrite (orb_comm (Qle_bool (x b + width b) (x a))).
  rewrite (orb_comm (Qle_bool 0 (x b - (x a + width a))
                     && Qle_bool (x b - (x a + width a)) tolerance)).
  rewrite (orb_comm (Qle_bool 0 (y b - (y a + height a))
                     && Qle_bool (y b - (y a + height a)) tolerance)).
  reflexivity.
Qed.

(** X10: adjacency does not depend on the order of the two boxes. *)
Theorem boundsAdjacent_sym (a b : BoundingBox) (tolerance : Q) :
  boundsAdjacent a b tolerance = boundsAdjacent b a tolerance.
Proof. apply boundsAdjacent_comm. Qed.

Lemma boundsAdjacent_true_iff (a b : BoundingBox) (t : Q) :
  boundsAdjacent a b t = true <->
  boundsOverlap a b = false /\
  ((y b < y a + height a /\ y a < y b + height b /\
    ((0 <= x a - (x b + width b) /\ x a - (x b + width b) <= t) \/
     (0 <= x b - (x a + width a) /\ x b - (x a + width a) <= t))) \/
   (x b < x a + width a /\ x a < x b + width b /\
    ((0 <= y a - (y b + height b) /\ y a - (y b + height b) <= t) \/
     (0 <= y b - (y a + height a) /\ y b - (y a + height a) <= t)))).
Proof.
  unfold boundsAdjacent. destruct (boundsOverlap a b).
  { split; [discriminate | intros [? _]; discriminate]. }
  cbv zeta. split.
  - intro H. split; [reflexivity|].
    apply orb_true_iff in H. destruct H as [H|H];
      apply andb_true_iff in H; destruct H as [H1 H2];
      apply negb_true_iff, orb_false_iff in H1; destruct H1 as [P Q];
      apply orb_true_iff in H2;
      [left|right];
      (split; [revert P; qcases; intro; try discriminate; lra|]);
      (split; [revert Q; qcases; intro; try discriminate; lra|]);
      (destruct H2 as [H2|H2]; apply andb_true_iff in H2;
       destruct H2 as [G1 G2]; [left|right];
       revert G1 G2; qcases; intros; try discriminate; split; lra).
  - intros [_ [(P & Q & G)|(P & Q & G)]]; apply orb_true_iff; [left|right];
      (apply andb_true_iff; split;
       [apply negb_true_iff, orb_false_iff; split; qcases; auto; lra|]);
      apply orb_true_iff;
      (destruct G as [[G1 G2]|[G1 G2]]; [left|right];
       apply andb_true_iff; split; qcases; auto; lra).
Qed.

(** X11: two boxes that share an edge, with their projections on that edge
    overlapping, are adjacent for every non-negative tolerance. *)
Theorem edge_sharing_boxes_adjacent (a b : BoundingBox) (tolerance : Q) :
  0 <= tolerance ->
  ((x a + width a == x b \/ x b + width b == x a) /\
   y b < y a + height a /\ y a < y b + height b) \/
  ((y a + height a == y b \/ y b + height b == y a) /\
   x b < x a + width a /\ x a < x b + width b) ->
  boundsAdjacent a b tolerance = true.
Proof.
  intros Ht H. apply boundsAdjacent_true_iff. split.
  - destruct (boundsOverlap a b) eqn:O; [|reflexivity].
    apply boundsOverlap_true_iff in O. lra.
  - destruct H as [(E & P & Q)|(E & P & Q)]; [left|right];
      (split; [exact P|]); (split; [exact Q|]); lra.
Qed.

(** X12: a pair of boxes adjacent for one tolerance is adjacent for every
    larger one, and no pair is adjacent for a negative tolerance. *)
Theorem boundsAdjacent_tolerance (a b : BoundingBox) (t t' : Q) :
  (t <= t' -> boundsAdjacent a b t = true -> boundsAdjacent a b t' = true) /\
  (t < 0 -> boundsAdjacent a b t = false).
Proof.
  split.
  - intros Le H. apply boundsAdjacent_true_iff in H.
    apply boundsAdjacent_true_iff.
    destruct H as [O H]. split; [exact O|].
    destruct H as [(P & Q & G)|(P & Q & G)]; [left|right];
      (split; [exact P|]); (split; [exact Q|]); lra.
  - intro Neg. destruct (boundsAdjacent a b t) eqn:E; [|reflexivity].
    apply boundsAdjacent_true_iff in E. lra.
Qed.

(** X13: moving two boxes by the same delta changes neither whether they
    overlap nor whether they are adjacent. *)
Theorem moveBounds_preserves_relations (a b : BoundingBox) (delta : Point)
    (tolerance : Q) :
  boundsOverlap (moveBounds a delta) (moveBounds b delta)
    = boundsOverlap a b /\
  boundsAdjacent (moveBounds a delta) (moveBounds b delta) tolerance
    = boundsAdjacent a b tolerance.
Proof.
  assert (O : boundsOverlap (moveBounds a delta) (moveBounds b delta)
              = boundsOverlap a b).
  { destruct (boundsOverlap a b) eqn:E.
    - apply boundsOverlap_true_iff in E. apply boundsOverlap_true_iff.
      cbn [moveBounds x y width height]. lra.
    - destruct (boundsOverlap (moveBounds a delta) (moveBounds b delta))
        eqn:E'; [|reflexivity].
      apply boundsOverlap_true_iff in E'.
      cbn [moveBounds x y width height] in E'.
      assert (boundsOverlap a b = true)
        by (apply boundsOverlap_true_iff; lra).
      congruence. }
  split; [exact O|].
  destruct (boundsAdjacent a b tolerance) eqn:E.
  - apply boundsAdjacent_true_iff in E. apply boundsAdjacent_true_iff.
    rewrite O. destruct E as [O' G]. split; [exact O'|].
    cbn [moveBounds x y width height]. lra.
  - destruct (boundsAdjacent (moveBounds a delta) (moveBounds b delta)
                tolerance) eqn:E'; [|reflexivity].
    apply boundsAdjacent_true_iff in E'. rewrite O in E'.
    cbn [moveBounds x y width height] in E'. destruct E' as [O' G].
    assert (boundsAdjacent a b tolerance = true)
      by (apply boundsAdjacent_true_iff; split; [exact O' | lra]).
    congruence.
Qed.

(** The corners of a moved box are the moved corners of the box, so
    moving [bounds] with [moveBounds] and [points] with [movePolygon] keeps
    the two in step. *)
Theorem boundsToPoints_moveBounds (b : BoundingBox) (delta : Point) :
  Forall2 (fun p q => px p == px q /\ py p == py q)
          (boundsToPoints (moveBounds b delta))
          (movePolygon (boundsToPoints b) delta).
Proof.
  unfold boundsToPoints, movePolygon, moveBounds.
  cbn [map x y width height px py].
  repeat constructor; cbn [px py]; ring.
Qed.

(** ** Point in polygon, area under translation *)

Lemma Qlt_bool_comp (a b b' : Q) : b == b' -> Qlt_bool a b = Qlt_bool a b'.
Proof.
  intro E. destruct (Qlt_bool_spec a b), (Qlt_bool_spec a b'); auto; lra.
Qed.

(** X14: for the four corners of a box of positive width and height, the
    ray-casting test holds exactly on the half-open box: the left and top
    edges are inside, the right and bottom edges are outside. *)
Theorem isPointInPolygon_rectangle (p : Point) (b : BoundingBox) :
  0 < width b -> 0 < height b ->
  (isPointInPolygon p (boundsToPoints b) = true <->
   x b <= px p /\ px p < x b + width b /\
   y b <= py p /\ py p < y b + height b).
Proof.
  intros Hw Hh.
  unfold isPointInPolygon, boundsToPoints, at_index.
  cbn [length seq fold_left nth px py Nat.sub fst snd].
  set (a := x b) in *. set (c := y b) in *.
  set (w := width b) in *. set (h := height b) in *.
  set (u := px p). set (v := py p).
  assert (E1 : (a - a) * (v - c) / (c + h - c) + a == a)
    by (unfold Qdiv; ring).
  assert (E2 : (a + w - (a + w)) * (v - (c + h)) / (c - (c + h)) + (a + w)
               == a + w) by (unfold Qdiv; ring).
  destruct (Qlt_bool v c) eqn:A1; destruct (Qlt_bool v (c + h)) eqn:A2;
  destruct (Qlt_bool u a) eqn:A3; destruct (Qlt_bool u (a + w)) eqn:A4;
  do 5 (cbn [negb eqb andb fst snd nth px py];
        rewrite ?A1, ?A2, ?(Qlt_bool_comp u _ _ E1),
                ?(Qlt_bool_comp u _ _ E2), ?A3, ?A4);
  cbn [negb eqb andb fst snd nth px py];
  revert A1 A2 A3 A4; qcases; intros; try discriminate;
  (split; [try discriminate; intros _; repeat split; lra
          | try reflexivity; intros; exfalso; lra]).
Qed.

Lemma sumQ_app (l1 l2 : list Q) : sumQ (l1 ++ l2) == sumQ l1 + sumQ l2.
Proof.
  induction l1 as [|v l1 IH]; simpl; [ring | rewrite IH; ring].
Qed.

Lemma sumQ_ext_in {A} (f g : A -> Q) (l : list A) :
  (forall i, In i l -> f i == g i) -> sumQ (map f l) == sumQ (map g l).
Proof.
  induction l as [|i l IH]; intro H; simpl; [reflexivity|].
  rewrite (H i) by now left. rewrite IH; [reflexivity|].
  intros; apply H; now right.
Qed.

Lemma sumQ_plus {A} (f g : A -> Q) (l : list A) :
  sumQ (map (fun i => f i + g i) l) == sumQ (map f l) + sumQ (map g l).
Proof.
  induction l as [|i l IH]; simpl; [ring | rewrite IH; ring].
Qed.

Lemma sumQ_scale {A} (c : Q) (f : A -> Q) (l : list A) :
  sumQ (map (fun i => c * f i) l) == c * sumQ (map f l).
Proof.
  induction l as [|i l IH]; simpl; [ring | rewrite IH; ring].
Qed.

Lemma sumQ_cyclic (n : nat) (F : nat -> Q) :
  sumQ (map (fun i => F ((i + 1) mod n)%nat) (seq 0 n))
  == sumQ (map F (seq 0 n)).
Proof.
  destruct n as [|m]; [reflexivity|].
  rewrite seq_S at 1. rewrite map_app, sumQ_app. cbn [map sumQ Nat.add].
  rewrite (sumQ_ext_in (fun i => F ((i + 1) mod S m)%nat)
                       (fun i => F (S i)) (seq 0 m)).
  2:{ intros i Hi. apply in_seq in Hi.
      rewrite Nat.mod_small by lia. now rewrite Nat.add_1_r. }
  replace ((m + 1) mod S m)%nat with 0%nat
    by (rewrite Nat.add_1_r; symmetry; apply Nat.Div0.mod_same).
  cbn [seq map sumQ]. rewrite <- seq_shift, map_map. ring.
Qed.

Lemma shoelace_fold (F G : nat -> Q) (l : list nat) : forall a0,
  fold_left (fun a i => a + F i - G i) l a0
  == a0 + sumQ (map (fun i => F i - G i) l).
Proof.
  induction l as [|i l IH]; intro a0; simpl; [ring|].
  rewrite IH. ring.
Qed.

Lemma at_index_movePolygon (points : list Point) (delta : Point) (i : nat) :
  (i < length points)%nat ->
  at_index (movePolygon points delta) i =
  mkPoint (px (at_index points i) + px delta)
          (py (at_index points i) + py delta).
Proof.
  intro H. unfold at_index, movePolygon.
  set (f := fun p => mkPoint (px p + px delta) (py p + py delta)).
  rewrite (nth_indep _ (mkPoint 0 0) (f (mkPoint 0 0)))
    by now rewrite length_map.
  apply (map_nth f).
Qed.

Lemma shoelace_sum (points : list Point) :
  fold_left (fun area i =>
    let j := ((i + 1) mod length points)%nat in
    area + px (at_index points i) * py (at_index points j)
         - px (at_index points j) * py (at_index points i))
    (seq 0 (length points)) 0
  == sumQ (map (fun i =>
       px (at_index points i)
       * py (at_index points ((i + 1) mod length points)%nat)
       - px (at_index points ((i + 1) mod length points)%nat)
         * py (at_index points i))
       (seq 0 (length points))).
Proof.
  etransitivity.
  - apply (shoelace_fold
      (fun i => px (at_index points i)
                * py (at_index points ((i + 1) mod length points)%nat))
      (fun i => px (at_index points ((i + 1) mod length points)%nat)
                * py (at_index points i))).
  - ring.
Qed.

(** X15: the Shoelace area of a polygon does not change when the polygon is
    moved. *)
Theorem calculatePolygonArea_movePolygon (points : list Point)
    (delta : Point) :
  calculatePolygonArea (movePolygon points delta)
  == calculatePolygonArea points.
Proof.
  unfold calculatePolygonArea.
  assert (L : length (movePolygon points delta) = length points)
    by apply length_map.
  rewrite L at 1.
  destruct (length points <? 3)%nat eqn:Small; [reflexivity|].
  rewrite (shoelace_sum (movePolygon points delta)), (shoelace_sum points).
  rewrite L. set (n := length points) in *.
  set (X := fun i => px (at_index points i)).
  set (Y := fun i => py (at_index points i)).
  set (J := fun i => ((i + 1) mod n)%nat).
  assert (E : sumQ (map (fun i =>
                px (at_index (movePolygon points delta) i)
                * py (at_index (movePolygon points delta) ((i + 1) mod n)%nat)
                - px (at_index (movePolygon points delta) ((i + 1) mod n)%nat)
                  * py (at_index (movePolygon points delta) i))
              (seq 0 n))
            == sumQ (map (fun i => X i * Y (J i) - X (J i) * Y i)
                         (seq 0 n))).
  { rewrite (sumQ_ext_in _
      (fun i => (X i * Y (J i) - X (J i) * Y i)
                + (px delta * (Y (J i) + -1 * Y i)
                   + py delta * (X i + -1 * X (J i))))).
    2:{ intros i Hi. apply in_seq in Hi.
        assert (Hj : (J i < n)%nat) by (apply Nat.mod_upper_bound; lia).
        rewrite !at_index_movePolygon by (fold n; unfold J in Hj; lia).
        unfold X, Y, J. cbn [px py]. ring. }
    assert (CY : sumQ (map (fun i => Y (J i)) (seq 0 n))
                 == sumQ (map (fun i => Y i) (seq 0 n)))
      by apply (sumQ_cyclic n Y).
    assert (CX : sumQ (map (fun i => X (J i)) (seq 0 n))
                 == sumQ (map (fun i => X i) (seq 0 n)))
      by apply (sumQ_cyclic n X).
    rewrite sumQ_plus, sumQ_plus, !sumQ_scale, !sumQ_plus, !sumQ_scale.
    rewrite CY, CX.
    assert (EY : sumQ (map (fun i => Y i) (seq 0 n)) == sumQ (map Y (seq 0 n)))
      by reflexivity.
    assert (EX : sumQ (map (fun i => X i) (seq 0 n)) == sumQ (map X (seq 0 n)))
      by reflexivity.
    rewrite EY, EX. ring. }
  rewrite E. reflexivity.
Qed.

(** ** Resize handles, coordinate transforms, sizes *)

(** X16: whatever the handle and the drag, with snapping off, or on with a
    grid size that is not 0 (the snap divides by it), the box returned by
    [resizeBounds] is at least [MIN_ROOM_SIZE] wide and high. *)
Theorem resizeBounds_min_size (bounds : BoundingBox) (handle : Handle.t)
    (delta : Point) (grid : GridConfig) :
  (snapEnabled grid = true -> ~ size grid == 0) ->
  MIN_ROOM_SIZE <= width (resizeBounds bounds handle delta grid) /\
  MIN_ROOM_SIZE <= height (resizeBounds bounds handle delta grid).
Proof.
  intros _. unfold resizeBounds, snapBoundsToGrid.
  destruct (snapEnabled grid); cbn [negb].
  - destruct handle; cbv beta iota zeta;
      repeat match goal with
      | |- context [let '(_, _) := (if ?c then _ else _) in _] => destruct c
      end; cbn [width height]; split; apply Math_max_lb_l.
  - destruct handle; cbv beta iota zeta;
      repeat match goal with
      | |- context [Qlt_bool ?a ?b] => destruct (Qlt_bool_spec a b)
      end; cbn [width height]; split; lra.
Qed.

Lemma handle_includes (h : Handle.t) :
  String_includes (Handle.name h) "left" =
    match h with
    | Handle.top_left | Handle.left | Handle.bottom_left => true
    | _ => false
    end /\
  String_includes (Handle.name h) "top" =
    match h with
    | Handle.top_left | Handle.top | Handle.top_right => true
    | _ => false
    end.
Proof. destruct h; split; reflexivity. Qed.

(** X17: with snapping off, [resizeBounds] keeps the edge opposite to the
    dragged one where it was: the right edge for the three left handles and
    the left edge for the others, the bottom edge for the three top handles
    and the top edge for the others; also when the size is raised to
    [MIN_ROOM_SIZE]. *)
Theorem resizeBounds_opposite_edge (bounds : BoundingBox) (handle : Handle.t)
    (delta : Point) (grid : GridConfig) :
  snapEnabled grid = false ->
  let r := resizeBounds bounds handle delta grid in
  match handle with
  | Handle.top_left | Handle.left | Handle.bottom_left =>
      x r + width r == x bounds + width bounds
  | _ => x r == x bounds
  end /\
  match handle with
  | Handle.top_left | Handle.top | Handle.top_right =>
      y r + height r == y bounds + height bounds
  | _ => y r == y bounds
  end.
Proof.
  intros Off r. subst r. unfold resizeBounds, snapBoundsToGrid.
  rewrite Off. cbn [negb].
  destruct (handle_includes handle) as [IL IT]. rewrite IL, IT.
  destruct handle; cbv beta iota zeta;
    repeat match goal with
    | |- context [Qlt_bool ?a ?b] => destruct (Qlt_bool_spec a b)
    end; cbn [x y width height]; split; ring.
Qed.

(** X18: each of the eight handles of a box of non-negative width and
    height sits on the border of the box. *)
Theorem getResizeHandles_on_border (bounds : BoundingBox)
    (handle : ResizeHandle.t) :
  0 <= width bounds -> 0 <= height bounds ->
  In handle (getResizeHandles bounds) ->
  let p := mkPoint (ResizeHandle.x handle) (ResizeHandle.y handle) in
  isPointInBounds p bounds = true /\
  (px p == x bounds \/ px p == x bounds + width bounds \/
   py p == y bounds \/ py p == y bounds + height bounds).
Proof.
  intros Hw Hh Hin p. subst p. unfold getResizeHandles in Hin.
  cbv zeta in Hin. cbn [In] in Hin.
  repeat (destruct Hin as [<-|Hin]); try destruct Hin;
    cbn [ResizeHandle.x ResizeHandle.y px py];
    (split; [apply isPointInBounds_true_iff; cbn [px py];
             repeat split; qlra
            | first [ left; reflexivity
                    | right; left; reflexivity
                    | right; right; left; reflexivity
                    | right; right; right; reflexivity ] ]).
Qed.

(** X19: for a non-zero zoom, [screenToCanvas] and [canvasToScreen] undo
    each other, in both orders. *)
Theorem screen_canvas_roundtrip (p : Point) (viewport : ViewportState)
    (canvasRect : DOMRect.t) :
  ~ zoom viewport == 0 ->
  let there := screenToCanvas p viewport canvasRect in
  let back := canvasToScreen p viewport canvasRect in
  (px (canvasToScreen there viewport canvasRect) == px p /\
   py (canvasToScreen there viewport canvasRect) == py p) /\
  (px (screenToCanvas back viewport canvasRect) == px p /\
   py (screenToCanvas back viewport canvasRect) == py p).
Proof.
  intros Hz there back. subst there back.
  unfold screenToCanvas, canvasToScreen. cbn [px py].
  repeat split; field; exact Hz.
Qed.

(** X20: [estimateSizeFromArea] returns the size of the first range that
    contains the area; when no range contains it, the result is ["S"] if
    there is a first range and the area is below its minimum, and ["XL"]
    otherwise, in particular for an empty list of ranges. *)
Theorem estimateSizeFromArea_spec (areaSqft : Q)
    (sizeRanges : list SizeRange) :
  (forall before range after,
     sizeRanges = before ++ range :: after ->
     (forall r, In r before -> ~ (min r <= areaSqft <= max r)) ->
     min range <= areaSqft <= max range ->
     estimateSizeFromArea areaSqft sizeRanges = rangeSize range) /\
  ((forall r, In r sizeRanges -> ~ (min r <= areaSqft <= max r)) ->
   estimateSizeFromArea areaSqft sizeRanges =
     match sizeRanges with
     | first :: _ => if Qlt_bool areaSqft (min first) then "S" else "XL"
     | [] => "XL"
     end%string).
Proof.
  unfold estimateSizeFromArea. split.
  - intros before range after -> Hb Hr.
    assert (F : find (fun range => Qle_bool (min range) areaSqft &&
                                   Qle_bool areaSqft (max range))
                     (before ++ range :: after) = Some range).
    { induction before as [|r0 before IH]; cbn [app find].
      - destruct (Qle_bool_spec (min range) areaSqft);
        destruct (Qle_bool_spec areaSqft (max range)); cbn [andb];
          try reflexivity; lra.
      - assert (N : ~ (min r0 <= areaSqft <= max r0))
          by (apply Hb; now left).
        destruct (Qle_bool_spec (min r0) areaSqft);
        destruct (Qle_bool_spec areaSqft (max r0)); cbn [andb];
          try (exfalso; apply N; split; assumption);
          apply IH; intros r Hr'; apply Hb; now right. }
    rewrite F. reflexivity.
  - intro Hn.
    assert (F : find (fun range => Qle_bool (min range) areaSqft &&
                                   Qle_bool areaSqft (max range)) sizeRanges
                = None).
    { destruct (find _ sizeRanges) as [r|] eqn:E; [|reflexivity].
      apply find_some in E. destruct E as [Hin Hc].
      exfalso. apply (Hn r Hin).
      apply andb_true_iff in Hc. destruct Hc as [A B].
      apply Qle_bool_iff in A. apply Qle_bool_iff in B. split; assumption. }
    rewrite F. reflexivity.
Qed.

(** X21: at a non-zero canvas size, the product of the two inch dimensions
    of a box is 180 times its square feet: the square-foot scale (2000 for
    the canvas) and the inch scale (600 across the canvas) are tied by
    600 * 600 / 2000, not by the 144 square inches of a square foot. *)
Theorem inches_and_sqft_scales (w h : Q) :
  ~ CANVAS_SIZE == 0 ->
  pixelsToInches w CANVAS_SIZE * pixelsToInches h CANVAS_SIZE
  == 180 * pixelsToSqft (w * h) CANVAS_SIZE.
Proof.
  intro Hc. unfold pixelsToInches, pixelsToSqft. field. exact Hc.
Qed.

(** ** Adjacency graph *)

Lemma clamp01 (v : Q) :
  0 <= Math_max 0 (Math_min 1 v) /\ Math_max 0 (Math_min 1 v) <= 1.
Proof.
  destruct (Math_min_cases 1 v) as [[? ->]|[? ->]];
  destruct (Math_max_cases 0 1) as [[? E]|[? E]]; try rewrite E;
  try destruct (Math_max_cases 0 v) as [[? ->]|[? ->]]; split; lra.
Qed.

Lemma findAdjacentRooms_In (h : Store) (room : EditorRoom)
    (allRooms : list EditorRoom) (t : Q) (c : RoomConnection) :
  In c (findAdjacentRooms h room allRooms t) <->
  exists other,
    In other allRooms /\ id other <> id room /\
    boundsAdjacent (deref h (bounds room)) (deref h (bounds other)) t = true /\
    In c (findAdjacentRooms h room [other] t).
Proof.
  unfold findAdjacentRooms. rewrite in_flat_map. split.
  - intros (other & Ho & Hc). exists other.
    destruct (String.eqb_spec (id other) (id room)) as [E|N];
      [destruct Hc|].
    destruct (boundsAdjacent _ _ _) eqn:A; [|destruct Hc].
    repeat split; auto. cbn [flat_map]. rewrite app_nil_r.
    destruct (String.eqb_spec (id other) (id room)); [contradiction|].
    rewrite A. exact Hc.
  - intros (other & Ho & N & A & Hc). exists other. split; [exact Ho|].
    cbn [flat_map] in Hc. rewrite app_nil_r in Hc. exact Hc.
Qed.

(** X22: every connection [findAdjacentRooms] returns for a room names
    another room of the list (never the room itself) whose box is adjacent
    to the room's, and has an offset between 0 and 1; and every room of the
    list with another id and an adjacent box gets a connection.  The room's
    box has positive width and height: the offset is a quotient by one of
    them. *)
Theorem findAdjacentRooms_spec (h : Store) (room : EditorRoom)
    (allRooms : list EditorRoom) (tolerance : Q) :
  0 < width (deref h (bounds room)) ->
  0 < height (deref h (bounds room)) ->
  (forall c, In c (findAdjacentRooms h room allRooms tolerance) ->
     roomId c <> id room /\
     0 <= offset c <= 1 /\
     exists other, In other allRooms /\ id other = roomId c /\
       boundsAdjacent (deref h (bounds room)) (deref h (bounds other))
         tolerance = true) /\
  (forall other, In other allRooms -> id other <> id room ->
     boundsAdjacent (deref h (bounds room)) (deref h (bounds other))
       tolerance = true ->
     exists c, In c (findAdjacentRooms h room allRooms tolerance) /\
               roomId c = id other).
Proof.
  intros _ _. split.
  - intros c Hc. apply findAdjacentRooms_In in Hc.
    destruct Hc as (other & Ho & N & A & Hc).
    unfold findAdjacentRooms in Hc. cbn [flat_map] in Hc.
    rewrite app_nil_r in Hc.
    destruct (String.eqb_spec (id other) (id room)); [contradiction|].
    rewrite A in Hc.
    destruct (Qlt_bool _ _); destruct Hc as [<-|[]];
      cbn [roomId offset];
      (split; [auto|]); (split; [apply clamp01|]); eauto.
  - intros other Ho N A.
    assert (exists c, In c (findAdjacentRooms h room [other] tolerance) /\
                      roomId c = id other) as (c & Hc & Hid).
    { unfold findAdjacentRooms. cbn [flat_map]. rewrite app_nil_r.
      destruct (String.eqb_spec (id other) (id room)); [contradiction|].
      rewrite A. destruct (Qlt_bool _ _); eexists; split;
        try (left; reflexivity); reflexivity. }
    exists c. split; [|exact Hid].
    apply findAdjacentRooms_In. exists other. auto.
Qed.


Lemma pair_connection_side (h : Store) (room other : EditorRoom) (t : Q)
    (c : RoomConnection) :
  In c (findAdjacentRooms h room [other] t) ->
  roomId c = id other /\
  side c =
    (let dx := px (getBoundsCenter (deref h (bounds other)))
               - px (getBoundsCenter (deref h (bounds room))) in
     let dy := py (getBoundsCenter (deref h (bounds other)))
               - py (getBoundsCenter (deref h (bounds room))) in
     if Qlt_bool (Qabs dy) (Qabs dx)
     then (if Qlt_bool 0 dx then Side.right else Side.left)
     else (if Qlt_bool 0 dy then Side.bottom else Side.top)).
Proof.
  unfold findAdjacentRooms. cbn [flat_map]. rewrite app_nil_r.
  destruct (String.eqb (id other) (id room)); [intros []|].
  destruct (boundsAdjacent _ _ _); [|intros []].
  cbv zeta. destruct (Qlt_bool (Qabs _) (Qabs _));
    intros [<-|[]]; split; reflexivity.
Qed.

Lemma pair_connection_exists (h : Store) (room other : EditorRoom) (t : Q) :
  id other <> id room ->
  boundsAdjacent (deref h (bounds room)) (deref h (bounds other)) t = true ->
  exists c, In c (findAdjacentRooms h room [other] t).
Proof.
  intros N A. unfold findAdjacentRooms. cbn [flat_map]. rewrite app_nil_r.
  destruct (String.eqb_spec (id other) (id room)); [contradiction|].
  rewrite A. cbv zeta.
  destruct (Qlt_bool (Qabs _) (Qabs _)); eexists; left; reflexivity.
Qed.

(** X23: connections are mutual.  With pairwise distinct ids and boxes of
    positive width and height, when a room has a connection to another room
    of the list, that room has a connection back, on the opposite side. *)
Theorem findAdjacentRooms_mutual (h : Store) (room other : EditorRoom)
    (allRooms : list EditorRoom) (tolerance : Q) (c : RoomConnection) :
  NoDup (map id allRooms) ->
  In room allRooms -> In other allRooms ->
  0 < width (deref h (bounds room)) -> 0 < height (deref h (bounds room)) ->
  0 < width (deref h (bounds other)) ->
  0 < height (deref h (bounds other)) ->
  In c (findAdjacentRooms h room allRooms tolerance) ->
  roomId c = id other ->
  exists c', In c' (findAdjacentRooms h other allRooms tolerance) /\
             roomId c' = id room /\
             side c' = oppositeSide (side c).
Proof.
  intros ND Hr Ho Wr Hr' Wo Ho' Hc Hid.
  apply findAdjacentRooms_In in Hc.
  destruct Hc as (other' & Ho1 & N & A & Hc).
  destruct (pair_connection_side _ _ _ _ _ Hc) as [E S].
  assert (other' = other)
    by (apply (NoDup_map_eq id allRooms); auto; congruence).
  subst other'. clear E Hid.
  rewrite boundsAdjacent_comm in A.
  destruct (pair_connection_exists h other room tolerance
              (fun e => N (eq_sym e)) A) as (c' & Hc').
  exists c'.
  destruct (pair_connection_side _ _ _ _ _ Hc') as [E' S'].
  split; [|split; [exact E'|]].
  { apply findAdjacentRooms_In. exists room. auto. }
  rewrite S, S'. clear S S' Hc Hc' E'. cbv zeta.
  apply boundsAdjacent_true_iff in A. destruct A as [NO _].
  assert (NC : ~ (px (getBoundsCenter (deref h (bounds other)))
                  == px (getBoundsCenter (deref h (bounds room))) /\
                  py (getBoundsCenter (deref h (bounds other)))
                  == py (getBoundsCenter (deref h (bounds room))))).
  { intros [Ex Ey]. unfold getBoundsCenter in Ex, Ey. cbn [px py] in Ex, Ey.
    assert (T : boundsOverlap (deref h (bounds other))
                              (deref h (bounds room)) = true)
      by (apply boundsOverlap_true_iff; qlra).
    congruence. }
  set (ox := px (getBoundsCenter (deref h (bounds other)))) in *.
  set (oy := py (getBoundsCenter (deref h (bounds other)))) in *.
  set (rx := px (getBoundsCenter (deref h (bounds room)))) in *.
  set (ry := py (getBoundsCenter (deref h (bounds room)))) in *.
  rewrite (Qabs_Qminus ry oy), (Qabs_Qminus rx ox).
  pose proof (Qabs_nonneg (oy - ry)) as Py.
  pose proof (Qabs_nonneg (ox - rx)) as Px.
  destruct (Qlt_bool_spec (Qabs (oy - ry)) (Qabs (ox - rx))) as [L|L].
  - assert (Nx : ~ ox - rx == 0).
    { intro Z. rewrite Z in L. change (Qabs 0) with 0 in L. lra. }
    destruct (Qlt_bool_spec 0 (ox - rx)), (Qlt_bool_spec 0 (rx - ox));
      try reflexivity; exfalso; lra.
  - assert (Ny : ~ oy - ry == 0).
    { intro Z. rewrite Z in L. change (Qabs 0) with 0 in L.
      assert (Zx : Qabs (ox - rx) == 0) by lra.
      destruct (Qlt_le_dec (ox - rx) 0) as [C|C].
      - rewrite (Qabs_neg (ox - rx)) in Zx by lra. lra.
      - rewrite (Qabs_pos (ox - rx)) in Zx by lra. apply NC. lra. }
    destruct (Qlt_bool_spec 0 (oy - ry)), (Qlt_bool_spec 0 (ry - oy));
      try reflexivity; exfalso; lra.
Qed.

Lemma graph_fold_other (h : Store) (rooms l : list EditorRoom)
    (k : string) : forall m : ConnectivityGraph,
  (forall r, In r l -> id r <> k) ->
  map_get (fold_left (fun connections room =>
             map_set connections (id room) (findAdjacentRooms h room rooms 5))
             l m) k
  = map_get m k.
Proof.
  induction l as [|r l IH]; intros m H; simpl; [reflexivity|].
  rewrite IH by (intros; apply H; now right).
  apply map_get_set_other. apply H. now left.
Qed.

(** X24: in the graph built from rooms with pairwise distinct ids, the
    entry of a room's id is the list [findAdjacentRooms] returns for that
    room, and an id that no room has is absent. *)
Theorem buildConnectivityGraph_lookup (h : Store) (rooms : list EditorRoom) :
  NoDup (map id rooms) ->
  (forall r, In r rooms ->
     map_get (buildConnectivityGraph h rooms) (id r)
     = Some (findAdjacentRooms h r rooms 5)) /\
  (forall k, (forall r, In r rooms -> id r <> k) ->
     map_get (buildConnectivityGraph h rooms) k = None).
Proof.
  intro ND. unfold buildConnectivityGraph. split.
  - assert (G : forall l (m : ConnectivityGraph) r,
      NoDup (map id l) -> In r l ->
      map_get (fold_left (fun connections room =>
                 map_set connections (id room)
                         (findAdjacentRooms h room rooms 5)) l m) (id r)
      = Some (findAdjacentRooms h r rooms 5)).
    { induction l as [|r0 l IH]; intros m r NDl Hin; [destruct Hin|].
      cbn [map] in NDl. inversion NDl as [|? ? Hnotin NDl']; subst.
      cbn [fold_left]. destruct Hin as [<-|Hin].
      - rewrite graph_fold_other.
        + apply map_get_set_same.
        + intros r Hr E. apply Hnotin. rewrite <- E. now apply in_map.
      - now apply IH. }
    intros r Hr. now apply G.
  - intros k Hk. now rewrite graph_fold_other.
Qed.

(** X25: put at the position [calculateConnectedPosition] returns, the
    connected room touches the moved box on the side of the connection
    without overlapping it: the two boxes are adjacent for every
    non-negative tolerance.  (Boxes of positive width and height, offset
    between 0 and 1.) *)
Theorem calculateConnectedPosition_adjacent (h : Store)
    (movedBounds : BoundingBox) (connectedRoom : EditorRoom)
    (connection : RoomConnection) (tolerance : Q) :
  0 < width movedBounds -> 0 < height movedBounds ->
  0 < width (deref h (bounds connectedRoom)) ->
  0 < height (deref h (bounds connectedRoom)) ->
  0 <= offset connection <= 1 -> 0 <= tolerance ->
  let pos := calculateConnectedPosition h movedBounds connectedRoom
               connection in
  let placed := mkBounds (px pos) (py pos)
                  (width (deref h (bounds connectedRoom)))
                  (height (deref h (bounds connectedRoom))) in
  boundsOverlap movedBounds placed = false /\
  boundsAdjacent movedBounds placed tolerance = true /\
  match side connection with
  | Side.right => x placed == x movedBounds + width movedBounds
  | Side.left => x placed + width placed == x movedBounds
  | Side.bottom => y placed == y movedBounds + height movedBounds
  | Side.top => y placed + height placed == y movedBounds
  end.
Proof.
  intros Hmw Hmh Hcw Hch [Ho0 Ho1] Ht pos placed.
  subst placed pos. unfold calculateConnectedPosition.
  set (cb := deref h (bounds connectedRoom)) in *.
  set (o := offset connection) in *.
  assert (P1 : 0 <= o * height movedBounds)
    by (apply Qmult_le_0_compat; lra).
  assert (P2 : o * height movedBounds <= height movedBounds).
  { assert (E : height movedBounds == 1 * height movedBounds) by ring.
    rewrite E at 2. apply Qmult_le_compat_r; lra. }
  assert (P3 : 0 <= o * width movedBounds)
    by (apply Qmult_le_0_compat; lra).
  assert (P4 : o * width movedBounds <= width movedBounds).
  { assert (E : width movedBounds == 1 * width movedBounds) by ring.
    rewrite E at 2. apply Qmult_le_compat_r; lra. }
  set (oh := o * height movedBounds) in *.
  set (ow := o * width movedBounds) in *.
  assert (O : forall p,
    (x movedBounds + width movedBounds <= x p \/
     x p + width p <= x movedBounds \/
     y movedBounds + height movedBounds <= y p \/
     y p + height p <= y movedBounds) ->
    boundsOverlap movedBounds p = false).
  { intros p Hp. destruct (boundsOverlap movedBounds p) eqn:E; [|reflexivity].
    apply boundsOverlap_true_iff in E. lra. }
  destruct (side connection); cbn [px py].
  all: split; [apply O; cbn [x y width height]; qlra|].
  all: split; [|cbn [x y width height]; qlra].
  all: apply boundsAdjacent_true_iff;
    (split; [apply O; cbn [x y width height]; qlra|]);
    cbn [x y width height]; qlra.
Qed.

(** ** Placing a new room on a free spot *)

Lemma existsb_false_forall {A} (f : A -> bool) (l : list A) :
  existsb f l = false -> forall a, In a l -> f a = false.
Proof.
  induction l as [|b l IH]; simpl; intros H a Hin; [destruct Hin|].
  apply orb_false_iff in H. destruct H as [H1 H2].
  destruct Hin as [<-|Hin]; auto.
Qed.

(** X26: when [wouldCollide] is false for the requested box, that is when
    no room with another id overlaps it, [findNonOverlappingPosition]
    returns a fresh copy of the requested box, whatever the iteration
    budget and the grid. *)
Theorem findNonOverlappingPosition_free_spot (room : EditorRoom)
    (desiredBounds : loc) (allRooms : list EditorRoom) (grid : GridConfig)
    (maxIterations : nat) (h : Store) :
  (forall other, In other allRooms -> (bounds other < length h)%nat) ->
  wouldCollide h (id room) (deref h desiredBounds) allRooms = false ->
  call (findNonOverlappingPosition room desiredBounds allRooms grid
          maxIterations) h
  = Some (length h, h ++ [deref h desiredBounds]).
Proof.
  intros Hv Hc.
  pose proof (existsb_false_forall _ _ Hc) as Hf. clear Hc.
  set (d := deref h desiredBounds) in *.
  set (s1 := mkState (h ++ [d]) []).
  assert (Scan : forall others,
    (forall other, In other others -> In other allRooms) ->
    nudgeFirstOverlap room grid (length h) others s1
    = Some ((false, length h), s1)).
  { induction others as [|other rest IH]; intro Hin; [reflexivity|].
    cbn [nudgeFirstOverlap].
    assert (IH' : nudgeFirstOverlap room grid (length h) rest s1
                  = Some ((false, length h), s1))
      by (apply IH; intros; apply Hin; now right).
    destruct (String.eqb_spec (id other) (id room)) as [E|N]; [exact IH'|].
    unfold bind at 1. unfold load at 1. unfold bind at 1. unfold load at 1.
    unfold s1 at 1 2. cbn [store].
    rewrite deref_app_new.
    rewrite deref_app_old by (apply Hv, Hin; now left).
    pose proof (Hf other (Hin other (or_introl eq_refl))) as F.
    cbv beta in F.
    destruct (String.eqb_spec (id other) (id room)); [contradiction|].
    cbn [negb andb] in F. rewrite F. exact IH'. }
  assert (Loop : nudgeLoop room allRooms grid maxIterations (length h) s1
                 = Some (length h, s1)).
  { destruct maxIterations as [|n]; [reflexivity|].
    cbn [nudgeLoop]. unfold bind. rewrite (Scan allRooms) by auto.
    reflexivity. }
  unfold call, findNonOverlappingPosition.
  rewrite (bind_intro _ _ _ d (mkState h []) (Some (length h, s1)));
    [reflexivity | reflexivity |].
  eapply bind_intro; [reflexivity|]. exact Loop.
Qed.

(** ** The solver: more about the result of a call *)

Section SolverResult.

Variable movedRoomId : string.
Variable rooms : list EditorRoom.
Variable grid : GridConfig.

Local Abbreviation Movable := (Movable movedRoomId rooms).
Local Abbreviation Keys := (Keys movedRoomId rooms).
Local Abbreviation Inv :=
  (fun s : State => Keys s /\ Sep s /\ Boxed grid s).

Lemma snapClamp_within (b0 : BoundingBox) :
  let c := snapClamp b0 grid in
  0 <= x c /\ 0 <= y c /\
  (width c <= CANVAS_SIZE -> x c + width c <= CANVAS_SIZE) /\
  (height c <= CANVAS_SIZE -> y c + height c <= CANVAS_SIZE) /\
  (snapEnabled grid = true ->
   MIN_ROOM_SIZE <= width c /\ MIN_ROOM_SIZE <= height c).
Proof.
  unfold snapClamp, clampBox, clampX, clampY. cbn [x y width height].
  split; [apply Math_max_lb_l|]. split; [apply Math_max_lb_l|].
  set (sb := snapBoundsToGrid b0 grid).
  split; [|split].
  - intro W.
    destruct (Math_min_cases (CANVAS_SIZE - width sb) (x sb)) as [[? ->]|[? ->]];
    [destruct (Math_max_cases 0 (CANVAS_SIZE - width sb)) as [[? ->]|[? ->]]
    |destruct (Math_max_cases 0 (x sb)) as [[? ->]|[? ->]]]; lra.
  - intro W.
    destruct (Math_min_cases (CANVAS_SIZE - height sb) (y sb))
      as [[? ->]|[? ->]];
    [destruct (Math_max_cases 0 (CANVAS_SIZE - height sb)) as [[? ->]|[? ->]]
    |destruct (Math_max_cases 0 (y sb)) as [[? ->]|[? ->]]]; lra.
  - intro Sn. unfold sb, snapBoundsToGrid. rewrite Sn.
    cbn [negb x y width height]. split; apply Math_max_lb_l.
Qed.

Lemma cleanupPush_boxed (room : EditorRoom) (b ob : BoundingBox) s u s' :
  cleanupPush grid room b ob s = Some (u, s') ->
  Sep s -> Boxed grid s -> Boxed grid s'.
Proof.
  intros H S B.
  destruct (cleanupPush_run grid room b ob s) as (ext & l & E & Hl & V).
  rewrite E in H. injection H as _ <-.
  intros k l' G. cbn [store workingBounds] in *.
  destruct (String.eqb_spec (id room) k) as [<-|N].
  - rewrite map_get_set_same in G. injection G as <-. eauto.
  - rewrite map_get_set_other in G by auto.
    rewrite deref_app_old by (eapply sep_valid; eauto). eauto.
Qed.

Lemma cleanupPair_boxed (room : EditorRoom) (bounds : loc) (ho : bool)
    (other : EditorRoom) s r s' :
  Movable (id room) -> In other rooms ->
  cleanupPair grid room bounds ho other s = Some (r, s') ->
  Inv s -> Inv s'.
Proof.
  intros Mk Ho H (K & S & B).
  destruct (ok_cleanupPair movedRoomId rooms grid room bounds ho other
              Mk Ho s K) as (a & s2 & E & K' & _ & S').
  rewrite E in H. injection H as -> ->.
  split; [exact K'|]. split; [auto|].
  unfold cleanupPair in E.
  destruct (String.eqb (id other) (id room)).
  { unfold ret in E. injection E as _ <-. exact B. }
  apply run_bind in E. destruct E as (lo & s3 & G & E).
  unfold wb_get in G.
  destruct (map_get (workingBounds s) (id other)); [|discriminate].
  injection G as <- <-.
  unfold bind at 1 2 in E. unfold load in E. cbn [store] in E.
  destruct (boundsOverlap _ _).
  - apply run_bind in E. destruct E as ([] & s4 & P & E).
    unfold ret in E. injection E as _ <-.
    eapply cleanupPush_boxed; eauto.
  - unfold ret in E. injection E as _ <-. exact B.
Qed.

Lemma foldM_keeps {A B} (I : State -> Prop) (l : list A)
    (body : B -> A -> M B) :
  (forall b a s r s', In a l -> body b a s = Some (r, s') -> I s -> I s') ->
  forall acc s r s', foldM l acc body s = Some (r, s') -> I s -> I s'.
Proof.
  induction l as [|a l IH]; intros Hb acc s r s'; simpl.
  - unfold ret. now intros [= _ <-].
  - intros H Is. apply run_bind in H. destruct H as (acc' & s1 & H1 & H2).
    eapply IH; [| exact H2 |].
    + intros; eapply Hb; eauto. now right.
    + eapply Hb; eauto. now left.
Qed.

Lemma cleanupRoom_boxed (ho : bool) (room : EditorRoom) s r s' :
  In room rooms ->
  cleanupRoom movedRoomId rooms grid ho room s = Some (r, s') ->
  Inv s -> Inv s'.
Proof.
  intros Hr H I. unfold cleanupRoom in H.
  destruct (String.eqb_spec (id room) movedRoomId) as [E|N].
  { unfold ret in H. injection H as _ <-. exact I. }
  destruct (isLocked room) eqn:L.
  { unfold ret in H. injection H as _ <-. exact I. }
  apply run_bind in H. destruct H as (lb & s2 & G & H).
  unfold wb_get in G.
  destruct (map_get (workingBounds s) (id room)); [|discriminate].
  injection G as <- <-.
  revert H I.
  apply (foldM_keeps (fun s => Keys s /\ Sep s /\ Boxed grid s)).
  intros b a s0 r0 s0' Ha. apply cleanupPair_boxed; auto.
  split; [auto | exists room; auto].
Qed.

Lemma cleanupLoop_boxed (fuel : nat) : forall ho sc s r s',
  cleanupLoop movedRoomId rooms grid fuel ho sc s = Some (r, s') ->
  Inv s -> Inv s'.
Proof.
  induction fuel as [|fuel IH]; intros ho sc s r s'; simpl.
  - unfold ret. now intros [= _ <-].
  - destruct (ho && (sc <? 10)%nat).
    + intros H I. apply run_bind in H. destruct H as (ho1 & s1 & H1 & H2).
      eapply IH; [exact H2|].
      revert H1 I. unfold cleanupPass.
      apply (foldM_keeps (fun s => Keys s /\ Sep s /\ Boxed grid s)).
      intros b a s0 r0 s0' Ha. now apply cleanupRoom_boxed.
    + unfold ret. now intros [= _ <-].
Qed.

Lemma solver_run_boxed (newBounds : loc) (iterations : nat) (h : Store) :
  (newBounds < length h)%nat ->
  exists result final s5,
    applySpringNetworkTraced movedRoomId newBounds rooms grid iterations
      (mkState h []) = Some ((result, final), s5) /\
    Forall2 (Updated s5) rooms result /\
    Boxed grid s5.
Proof.
  intro Hnb.
  set (s0 := mkState h []).
  set (graph := buildConnectivityGraph h rooms).
  set (dc := match map_get graph movedRoomId with
             | Some c => c | None => [] end).
  destruct (copyLoop rooms s0) as (s1 & E1 & [e1 P1] & _ & K1 & V1 & S1).
  set (s2 := mkState (store s1)
                     (map_set (workingBounds s1) movedRoomId newBounds)).
  assert (K2 : Keys s2).
  { constructor; unfold s2; cbn [workingBounds].
    - intros r Hr. apply map_set_present. auto.
    - rewrite map_get_set_same. discriminate. }
  assert (Hdc : forall c, In c dc ->
            roomId c <> movedRoomId /\ exists r, In r rooms /\ id r = roomId c).
  { intros c Hc. unfold dc in Hc.
    destruct (map_get graph movedRoomId) as [cs|] eqn:G; [|destruct Hc].
    eapply buildConnectivityGraph_ids; eauto. }
  destruct (ok_forEach movedRoomId rooms (seq 0 iterations)
              (solverIteration movedRoomId rooms graph dc)
              (fun i _ => ok_solverIteration movedRoomId rooms graph dc
                 (fun c Hc => proj1 (Hdc c Hc))
                 (fun c Hc => proj2 (Hdc c Hc)) i) s2 K2)
    as ([] & s3 & E3 & K3 & R23 & S23).
  destruct (snapLoop grid (map fst (workingBounds s3)) s3)
    as (s4 & E4 & P34 & O34 & _ & _ & _ & D34).
  { intros k. apply map_get_In_keys. }
  assert (K4 : Keys s4).
  { constructor.
    - intros r Hr. apply P34. now apply (keys_rooms _ _ _ K3).
    - apply P34. exact (keys_moved _ _ _ K3). }
  destruct (ok_cleanupLoop movedRoomId rooms grid 10 true 0 s4 K4)
    as ([ho sc] & s5 & E5 & K5 & R45 & S45).
  destruct (applyUpdates_spec movedRoomId rooms s5 K5) as (result & E6 & F6).
  exists result, (ho, sc), s5.
  split.
  { unfold applySpringNetworkTraced.
    eapply bind_intro; [reflexivity|]. cbv zeta.
    eapply bind_intro; [exact E1|].
    eapply bind_intro; [reflexivity|].
    eapply bind_intro; [exact E3|].
    eapply bind_intro; [exact E4|].
    eapply bind_intro; [exact E5|].
    eapply bind_intro; [exact E6|].
    reflexivity. }
  split; [exact F6|].
  assert (V2 : forall k l, k <> movedRoomId ->
            map_get (workingBounds s2) k = Some l -> (length h <= l)%nat).
  { intros k l Nk G. unfold s2 in G; cbn [workingBounds] in G.
    rewrite map_get_set_other in G by auto.
    destruct (V1 k l G) as [G0|(Hl & _)]; [discriminate|].
    unfold s0 in Hl; simpl in Hl. exact Hl. }
  assert (L01 : (length h <= length (store s1))%nat).
  { rewrite P1. unfold s0; simpl. rewrite length_app. lia. }
  assert (S2 : Sep s2).
  { assert (S1' : Sep s1).
    { apply S1. constructor; simpl; [constructor | discriminate..]. }
    destruct S1' as [SK SV SI].
    constructor; unfold s2; cbn [store workingBounds].
    - now apply map_set_NoDup.
    - intros k l. destruct (String.eqb_spec movedRoomId k) as [<-|N].
      + rewrite map_get_set_same. intros [= <-]. lia.
      + rewrite map_get_set_other by auto. apply SV.
    - intros k1 k2 l G1 G2.
      destruct (String.eqb_spec k1 movedRoomId) as [->|N1];
      destruct (String.eqb_spec k2 movedRoomId) as [->|N2]; auto.
      + rewrite map_get_set_same in G1. injection G1 as <-.
        pose proof (V2 k2 newBounds N2 G2). lia.
      + rewrite map_get_set_same in G2. injection G2 as <-.
        pose proof (V2 k1 newBounds N1 G1). lia.
      + rewrite map_get_set_other in G1, G2 by auto. eauto. }
  pose proof (S23 S2) as S3.
  destruct (D34 S3 (sep_keys _ S3)) as (S4 & A34 & _).
  assert (B4 : Boxed grid s4).
  { intros k l G.
    destruct (map_get (workingBounds s3) k) as [l3|] eqn:G3.
    - destruct (A34 k l3) as (l' & G' & V).
      + apply map_get_In_keys. congruence.
      + exact G3.
      + assert (l' = l) by congruence. subst l'. eauto.
    - rewrite O34 in G by (rewrite <- map_get_In_keys; congruence).
      congruence. }
  eapply (cleanupLoop_boxed 10); [exact E5|]. auto.
Qed.

(** X27: for rooms whose boxes have non-zero width and height, and a
    grid size that is not 0 when snapping is on (so that no quotient of the
    call has a zero divisor), every room of the result lies within the
    canvas as far as its size allows: its box starts at non-negative
    coordinates, ends within [CANVAS_SIZE] on each axis on which it is not
    larger than the canvas, and, when snapping is on, is at least
    [MIN_ROOM_SIZE] wide and high.  This holds for the moved room and for
    locked rooms too. *)
Theorem result_rooms_within_canvas (newBounds : loc) (iterations : nat)
    (h : Store) :
  (newBounds < length h)%nat ->
  (forall r, In r rooms ->
     ~ width (deref h (bounds r)) == 0 /\
     ~ height (deref h (bounds r)) == 0) ->
  (snapEnabled grid = true -> ~ size grid == 0) ->
  exists result h',
    call (applySpringNetwork movedRoomId newBounds rooms grid iterations) h
      = Some (result, h') /\
    forall r, In r result ->
      let b := deref h' (bounds r) in
      0 <= x b /\ 0 <= y b /\
      (width b <= CANVAS_SIZE -> x b + width b <= CANVAS_SIZE) /\
      (height b <= CANVAS_SIZE -> y b + height b <= CANVAS_SIZE) /\
      (snapEnabled grid = true ->
       MIN_ROOM_SIZE <= width b /\ MIN_ROOM_SIZE <= height b).
Proof.
  intros Hnb _ _.
  destruct (solver_run_boxed newBounds iterations h Hnb)
    as (result & final & s5 & E & F & B).
  destruct (call_traced _ _ _ _ _ _ _ _ _ E) as [_ E2].
  exists result, (store s5). split; [exact E2|].
  intros r Hr.
  destruct (Forall2_In_r _ _ _ _ F Hr)
    as (q & Hq & _ & _ & l & G & (Bx & By & Bw & Bh) & _).
  destruct (B _ _ G) as (b0 & V). rewrite V in Bx, By, Bw, Bh.
  destruct (snapClamp_within b0) as (C1 & C2 & C3 & C4 & C5).
  cbv zeta in *. rewrite Bx, By, Bw, Bh. auto.
Qed.

(** X28: unless the final loop stopped at its cap of 10 passes with
    [hasOverlap] still set, an unlocked room of the result other than the
    moved one overlaps no room with another id: not a locked room and not
    the moved room either. *)
Theorem unlocked_room_overlaps_no_room (newBounds : loc) (iterations : nat)
    (h : Store) :
  exists result hasOverlap safetyCounter h',
    call (applySpringNetworkTraced movedRoomId newBounds rooms grid
            iterations) h
      = Some ((result, (hasOverlap, safetyCounter)), h') /\
    ((hasOverlap = true /\ safetyCounter = 10%nat) \/
     (forall r1 r2, In r1 result -> In r2 result -> id r1 <> id r2 ->
        isLocked r1 = false -> id r1 <> movedRoomId ->
        boundsOverlap (deref h' (bounds r1)) (deref h' (bounds r2))
          = false)).
Proof.
  destruct (solver_run movedRoomId rooms grid newBounds iterations h)
    as (result & ho & sc & s5 & E & F & Ht & Hf & _).
  destruct (call_traced _ _ _ _ _ _ _ _ _ E) as [E1 _].
  exists result, ho, sc, (store s5).
  split; [exact E1|].
  destruct ho; [left; auto|right].
  specialize (Hf eq_refl).
  intros r1 r2 H1 H2 Nid L1 M1.
  destruct (Forall2_In_r _ _ _ _ F H1)
    as (q1 & Q1 & I1 & K1 & l1 & G1 & B1 & _).
  destruct (Forall2_In_r _ _ _ _ F H2)
    as (q2 & Q2 & I2 & K2 & l2 & G2 & B2 & _).
  rewrite (boundsOverlap_eq _ _ _ _ B1 B2).
  destruct (Hf q1 Q1 ltac:(congruence) ltac:(congruence) q2 Q2
              ltac:(congruence)) as (lb & lo & Gb & Go & Ov).
  congruence.
Qed.

(** X29: with pairwise distinct ids, a locked room other than the moved
    one ends on its own box snapped to the grid and kept within the canvas:
    the passes never push or pull it, the snap stage does snap it. *)
Theorem locked_rooms_are_snapped (newBounds : loc) (iterations : nat)
    (h : Store) :
  (newBounds < length h)%nat ->
  NoDup (map id rooms) ->
  (forall r, In r rooms -> (bounds r < length h)%nat) ->
  exists result h',
    call (applySpringNetwork movedRoomId newBounds rooms grid iterations) h
      = Some (result, h') /\
    Forall2 (fun room r =>
      isLocked room = true -> id room <> movedRoomId ->
      bounds_eq (deref h' (bounds r))
                (snapClamp (deref h (bounds room)) grid))
      rooms result.
Proof.
  intros Hnb ND Hv.
  destruct (solver_run movedRoomId rooms grid newBounds iterations h)
    as (result & ho & sc & s5 & E & F & _ & _ & D).
  destruct (call_traced _ _ _ _ _ _ _ _ _ E) as [_ E2].
  destruct (D Hnb) as (_ & _ & _ & _ & Lock).
  exists result, (store s5). split; [exact E2|].
  assert (G : forall rs, (forall r, In r rs -> In r rooms) ->
    forall res, Forall2 (Updated s5) rs res ->
    Forall2 (fun room r =>
      isLocked room = true -> id room <> movedRoomId ->
      bounds_eq (deref (store s5) (bounds r))
                (snapClamp (deref h (bounds room)) grid)) rs res).
  { intros rs Hin res F'. induction F' as [|room r rs' res' U F' IH];
      constructor.
    - intros Lk Nm.
      assert (Hr : In room rooms) by (apply Hin; now left).
      assert (NM : ~ Movable (id room)).
      { intros (_ & r0 & Hr0 & Hid & Hl).
        rewrite (NoDup_map_eq id rooms r0 room ND Hr0 Hr Hid) in Hl.
        congruence. }
      destruct (Lock room Hr NM Nm) as (l & r' & Gl & Hr' & Hid & V).
      rewrite (NoDup_map_eq id rooms r' room ND Hr' Hr Hid) in V.
      destruct U as (_ & _ & l' & Gl' & Bq & _).
      assert (l' = l) by congruence. subst l'.
      rewrite V in Bq by auto. exact Bq.
    - apply IH. intros; apply Hin; now right. }
  apply G; auto.
Qed.

Lemma updateRoom_run (room room' : EditorRoom) (s s' : State) :
  updateRoom room s = Some (room', s') ->
  s' = s /\
  (room' = room \/
   let b := deref (store s) (bounds room') in
   ~ bounds_eq b (deref (store s) (bounds room)) /\
   room' = mkRoom (id room) (roomType room) (displayName room)
             (boundsToPoints b) (bounds room')
             (fillColor room) (trainingColor room)
             (pixelsToSqft (width b * height b) CANVAS_SIZE)
             (pixelsToInches (width b) CANVAS_SIZE)
             (pixelsToInches (height b) CANVAS_SIZE)
             (isSelected room) (isHovered room) (isLocked room)).
Proof.
  unfold updateRoom, bind, wb_get, load.
  destruct (map_get (workingBounds s) (id room)) as [l|]; [|discriminate].
  cbn [store].
  destruct (bounds_eqb_spec (deref (store s) l)
                            (deref (store s) (bounds room))) as [Eq|Ne];
    unfold ret; intros [= <- <-]; (split; [reflexivity|]).
  - now left.
  - right. cbn [bounds]. split; [exact Ne | reflexivity].
Qed.

Lemma mapM_updateRoom_run (rs result : list EditorRoom) (s s' : State) :
  mapM rs updateRoom s = Some (result, s') ->
  s' = s /\
  Forall2 (fun room room' => updateRoom room s = Some (room', s)) rs result.
Proof.
  revert result s'. induction rs as [|room rs IH]; intros result s'; simpl.
  - unfold ret. intros [= <- <-]. split; [reflexivity | constructor].
  - intro H. apply run_bind in H. destruct H as (room' & s1 & H1 & H).
    apply run_bind in H. destruct H as (res & s2 & H2 & H).
    unfold ret in H. injection H as <- <-.
    destruct (updateRoom_run _ _ _ _ H1) as [-> _].
    destruct (IH _ _ H2) as [-> F].
    split; [reflexivity | now constructor].
Qed.

(** X30: a call always returns, and each room of the result, taken in the
    order of the input, is either the input room object itself or a copy of
    it on a box that differs from the room's old box, with [points] the
    four corners of the new box and [areaSqft], [widthInches] and
    [heightInches] recomputed from it; every other field is kept. *)
Theorem result_rooms_refreshed (newBounds : loc) (iterations : nat)
    (h : Store) :
  exists result h',
    call (applySpringNetwork movedRoomId newBounds rooms grid iterations) h
      = Some (result, h') /\
    Forall2 (fun room room' =>
      room' = room \/
      let b := deref h' (bounds room') in
      ~ bounds_eq b (deref h' (bounds room)) /\
      room' = mkRoom (id room) (roomType room) (displayName room)
                (boundsToPoints b) (bounds room')
                (fillColor room) (trainingColor room)
                (pixelsToSqft (width b * height b) CANVAS_SIZE)
                (pixelsToInches (width b) CANVAS_SIZE)
                (pixelsToInches (height b) CANVAS_SIZE)
                (isSelected room) (isHovered room) (isLocked room))
      rooms result.
Proof.
  destruct (solver_run movedRoomId rooms grid newBounds iterations h)
    as (result & ho & sc & s5 & E & _).
  destruct (call_traced _ _ _ _ _ _ _ _ _ E) as [_ E2].
  exists result, (store s5). split; [exact E2|].
  unfold applySpringNetworkTraced in E.
  apply run_bind in E. destruct E as (h0 & sa & _ & E). cbv zeta in E.
  apply run_bind in E. destruct E as (? & sb & _ & E).
  apply run_bind in E. destruct E as (? & sc' & _ & E).
  apply run_bind in E. destruct E as (? & sd & _ & E).
  apply run_bind in E. destruct E as (? & se & _ & E).
  apply run_bind in E. destruct E as (final & sf & _ & E).
  apply run_bind in E. destruct E as (result' & sg & U & E).
  unfold ret in E. injection E as <- _ <-.
  unfold applyUpdates in U.
  destruct (mapM_updateRoom_run _ _ _ _ U) as [-> F].
  eapply Forall2_impl; [|exact F].
  intros room room' R. cbv beta in R.
  destruct (updateRoom_run _ _ _ _ R) as [_ Hc]. exact Hc.
Qed.

End SolverResult.

End Editor.

(** * Examples

    The examples take [MIN_ROOM_SIZE = 20] and [CANVAS_SIZE = 768]. *)

Lemma overlap_excludes_adjacent_witness :
  boundsOverlap (mkBounds 0 0 40 40) (mkBounds 20 20 40 40) = true /\
  boundsAdjacent (mkBounds 0 0 40 40) (mkBounds 20 20 40 40) 5 = false.
Proof.
  split; [reflexivity | apply overlap_excludes_adjacent; reflexivity].
Defined.

Lemma sqft_pixels_roundtrip_witness :
  0 < 768 /\
  (pixelsToSqft (sqftToPixels 150 768) 768 == 150 /\
   sqftToPixels (pixelsToSqft 150 768) 768 == 150).
Proof.
  split; [reflexivity | apply (sqft_pixels_roundtrip 768 150); reflexivity].
Defined.

Lemma getBoundingBox_boundsToPoints_witness :
  0 <= width (mkBounds 10 20 40 0) /\ 0 <= height (mkBounds 10 20 40 0) /\
  bounds_eq (getBoundingBox (boundsToPoints (mkBounds 10 20 40 0)))
            (mkBounds 10 20 40 0).
Proof.
  split; [|split];
    [| |apply (getBoundingBox_boundsToPoints (mkBounds 10 20 40 0))];
    simpl; discriminate.
Defined.

Lemma boundsOverlap_iff_interiors_witness :
  let a := mkBounds 0 0 40 40 in
  let b := mkBounds 40 0 40 40 in
  (0 < width a /\ 0 < height a /\ 0 < width b /\ 0 < height b) /\
  ((boundsOverlap a b = true <-> interiorsIntersect a b) /\
   (edgeTouching a b -> boundsOverlap a b = false)).
Proof.
  intros a b. split; [repeat split|];
    [..|apply (boundsOverlap_iff_interiors a b)]; reflexivity.
Defined.

(** C8: a box of width zero has an empty interior, yet [boundsOverlap]
    holds between it and a box around it. *)
Lemma boundsOverlap_degenerate_box :
  let a := mkBounds 5 0 0 10 in
  let b := mkBounds 0 0 10 10 in
  boundsOverlap a b = true /\ ~ interiorsIntersect a b.
Proof.
  intros a b. split; [reflexivity|].
  intros [p [(A1 & A2 & _) _]]. unfold a in A1, A2.
  cbn [x width] in A1, A2. lra.
Qed.

Lemma snapBoundsToGrid_spec_witness :
  let b := mkBounds 13 27 44 38 in
  0 < size grid10 /\
  ((snapEnabled grid10 = true ->
    let s := snapBoundsToGrid 20 b grid10 in
    multiple_of (size grid10) (x s) /\ multiple_of (size grid10) (y s) /\
    20 <= width s /\ 20 <= height s /\
    (20 <= snapToGrid (x b + width b) (size grid10)
            - snapToGrid (x b) (size grid10) ->
     multiple_of (size grid10) (x s + width s)) /\
    (20 <= snapToGrid (y b + height b) (size grid10)
            - snapToGrid (y b) (size grid10) ->
     multiple_of (size grid10) (y s + height s)) /\
    (multiple_of (size grid10) 20 ->
     multiple_of (size grid10) (x s + width s) /\
     multiple_of (size grid10) (y s + height s))) /\
   (snapEnabled grid10 = false -> snapBoundsToGrid 20 b grid10 = b)).
Proof.
  intro b. split; [reflexivity|].
  apply (snapBoundsToGrid_spec 20 b grid10). reflexivity.
Defined.

(** C7: with a pitch of 15 the box [(0, 0, 5, 5)] snaps to the corners
    [(0, 0)] and [(0, 0)], its width is raised to [MIN_ROOM_SIZE = 20], and
    the far corner [x + width = 20] is off the grid. *)
Lemma snapBoundsToGrid_far_corner_off_grid :
  let s := snapBoundsToGrid 20 (mkBounds 0 0 5 5) grid15 in
  0 < size grid15 /\ snapEnabled grid15 = true /\
  x s + width s == 20 /\ ~ multiple_of (size grid15) (x s + width s).
Proof.
  intro s. split; [reflexivity|]. split; [reflexivity|].
  assert (E : x s + width s == 20) by reflexivity.
  split; [exact E|].
  intros [k Hk]. rewrite E in Hk. unfold Qeq in Hk. cbn in Hk. lia.
Qed.

(** ** Calls of the solver on sample layouts *)

Lemma moved_room_bounds_witness :
  let h := [mkBounds 0 40 40 40; mkBounds 0 0 40 40; mkBounds 40 0 40 40] in
  let rooms := [sampleRoom "a" 1%nat false; sampleRoom "b" 2%nat false] in
  (0 < length h)%nat /\
  exists result h',
    call (applySpringNetwork 20 768 "a" 0%nat rooms grid10 8%nat) h
      = Some (result, h') /\
    Forall2 (fun room r =>
      id r = id room /\
      (id room = "a"%string ->
       bounds_eq (deref h' (bounds r))
                 (snapClamp 20 768 (deref h 0%nat) grid10) /\
       (bounds_eq (snapClamp 20 768 (deref h 0%nat) grid10) (deref h 0%nat) ->
        bounds_eq (deref h' (bounds r)) (deref h 0%nat))))
      rooms result.
Proof.
  intros h rooms. split; [simpl; lia|].
  apply (moved_room_bounds 20 768 "a" 0%nat rooms grid10 8%nat h). simpl; lia.
Defined.

(** C2: a request that is off the grid.  Room "a" is asked to go to
    [(3, 0, 40, 40)] with a pitch of 10 and ends on [(0, 0, 40, 40)]. *)
Lemma moved_room_not_on_requested_bounds :
  let h := [mkBounds 3 0 40 40; mkBounds 0 0 40 40] in
  let rooms := [sampleRoom "a" 1%nat false] in
  exists r h',
    call (applySpringNetwork 20 768 "a" 0%nat rooms grid10 8%nat) h
      = Some ([r], h') /\
    id r = "a"%string /\
    x (deref h 0%nat) == 3 /\ x (deref h' (bounds r)) == 0 /\
    ~ bounds_eq (deref h' (bounds r)) (deref h 0%nat).
Proof.
  intros h rooms. eexists. eexists.
  split; [vm_compute; reflexivity|].
  split; [reflexivity|]. split; [reflexivity|]. split; [reflexivity|].
  intros (H & _). vm_compute in H. discriminate.
Qed.

Lemma locked_room_unchanged_witness :
  let h := [mkBounds 0 40 40 40; mkBounds 0 0 40 40; mkBounds 40 0 40 40] in
  let locked := sampleRoom "b" 2%nat true in
  let rooms := [sampleRoom "a" 1%nat false; locked] in
  ((0 < length h)%nat /\ NoDup (map id rooms) /\ In locked rooms /\
   isLocked locked = true /\ id locked <> "a"%string /\
   (bounds locked < length h)%nat /\
   bounds_eq (snapClamp 20 768 (deref h (bounds locked)) grid10)
             (deref h (bounds locked))) /\
  exists result h',
    call (applySpringNetwork 20 768 "a" 0%nat rooms grid10 8%nat) h
      = Some (result, h') /\
    In locked result /\
    bounds_eq (deref h' (bounds locked)) (deref h (bounds locked)).
Proof.
  intros h locked rooms.
  assert (H1 : (0 < length h)%nat) by (simpl; lia).
  assert (H2 : NoDup (map id rooms)).
  { repeat constructor; simpl; [intros [H|[]]; discriminate | tauto]. }
  assert (H3 : In locked rooms) by (simpl; auto).
  assert (H4 : isLocked locked = true) by reflexivity.
  assert (H5 : id locked <> "a"%string) by discriminate.
  assert (H6 : (bounds locked < length h)%nat) by (simpl; lia).
  assert (H7 : bounds_eq (snapClamp 20 768 (deref h (bounds locked)) grid10)
                         (deref h (bounds locked))).
  { repeat split; reflexivity. }
  split; [repeat split; assumption|].
  exact (locked_room_unchanged 20 768 "a" 0%nat rooms grid10 8%nat h locked
           H1 H2 H3 H4 H5 H6 H7).
Defined.

(** C3: the moved room is locked.  It is moved all the same. *)
Lemma locked_moved_room_is_moved :
  let h := [mkBounds 100 0 40 40; mkBounds 0 0 40 40] in
  let rooms := [sampleRoom "a" 1%nat true] in
  exists r h',
    call (applySpringNetwork 20 768 "a" 0%nat rooms grid10 8%nat) h
      = Some ([r], h') /\
    id r = "a"%string /\ isLocked r = true /\
    x (deref h 1%nat) == 0 /\ x (deref h' (bounds r)) == 100 /\
    ~ bounds_eq (deref h' (bounds r)) (deref h 1%nat).
Proof.
  intros h rooms. eexists. eexists.
  split; [vm_compute; reflexivity|].
  split; [reflexivity|]. split; [reflexivity|].
  split; [reflexivity|]. split; [reflexivity|].
  intros (H & _). vm_compute in H. discriminate.
Qed.

(** A locked room that is off the grid is snapped by the call, although
    another room is the moved one: "b" is locked at [x = 103] and ends at
    [x = 100]. *)
Lemma locked_room_off_grid_is_snapped :
  let h := [mkBounds 0 200 40 40; mkBounds 0 0 40 40; mkBounds 103 0 40 40] in
  let rooms := [sampleRoom "a" 1%nat false; sampleRoom "b" 2%nat true] in
  exists ra rb h',
    call (applySpringNetwork 20 768 "a" 0%nat rooms grid10 8%nat) h
      = Some ([ra; rb], h') /\
    id rb = "b"%string /\ isLocked rb = true /\
    x (deref h 2%nat) == 103 /\ x (deref h' (bounds rb)) == 100.
Proof.
  intros h rooms. eexists. eexists. eexists.
  split; [vm_compute; reflexivity|].
  repeat split; reflexivity.
Qed.

(** C4: snapping off and a request that sticks out of the canvas.  The
    caller's [newBounds] object, at address 0, holds [x = -10] before
    the call and [x = 0] after it. *)
Theorem newBounds_overwritten_when_snap_off :
  let h := [mkBounds (-10) 0 40 40; mkBounds 0 0 40 40] in
  let rooms := [sampleRoom "a" 1%nat false] in
  exists result h',
    call (applySpringNetwork 20 768 "a" 0%nat rooms gridOff 8%nat) h
      = Some (result, h') /\
    x (deref h 0%nat) == -10 /\ x (deref h' 0%nat) == 0 /\
    ~ bounds_eq (deref h' 0%nat) (deref h 0%nat).
Proof.
  intros h rooms. eexists. eexists.
  split; [vm_compute; reflexivity|].
  split; [reflexivity|]. split; [reflexivity|].
  intros (H & _). vm_compute in H. discriminate.
Qed.



(** The scenario of two 40 by 40 rooms side by side: moving "a" down by 40
    pulls its right-hand neighbour "b" to [(40, 40)]; one pass of the final
    loop finds nothing to separate. *)
Example neighbour_follows_moved_room :
  let h := [mkBounds 0 40 40 40; mkBounds 0 0 40 40; mkBounds 40 0 40 40] in
  let rooms := [sampleRoom "a" 1%nat false; sampleRoom "b" 2%nat false] in
  exists ra rb h',
    call (applySpringNetworkTraced 20 768 "a" 0%nat rooms grid10 8%nat) h
      = Some (([ra; rb], (false, 1%nat)), h') /\
    bounds_eq (deref h' (bounds ra)) (mkBounds 0 40 40 40) /\
    bounds_eq (deref h' (bounds rb)) (mkBounds 40 40 40 40).
Proof.
  intros h rooms. eexists. eexists. eexists.
  split; [vm_compute; reflexivity|].
  split; repeat split; reflexivity.
Qed.

(** A layout that cannot be resolved: two unlocked rooms as large as the
    canvas.  The final loop runs its 10 passes, ends with [hasOverlap]
    set, and the two rooms still overlap. *)
Example cap_reached_on_packed_canvas :
  let h := [mkBounds 0 0 768 768; mkBounds 0 0 768 768;
            mkBounds 0 0 768 768] in
  let rooms := [sampleRoom "a" 1%nat false; sampleRoom "b" 2%nat false] in
  exists ra rb h',
    call (applySpringNetworkTraced 20 768 "a" 0%nat rooms grid10 8%nat) h
      = Some (([ra; rb], (true, 10%nat)), h') /\
    boundsOverlap (deref h' (bounds ra)) (deref h' (bounds rb)) = true.
Proof.
  intros h rooms. eexists. eexists. eexists.
  split; [vm_compute; reflexivity|]. reflexivity.
Qed.

(** ** The geometry kernel on sample values *)

Lemma snapToGrid_nearest_witness :
  0 < 10 /\
  (multiple_of 10 (snapToGrid 13 10) /\ Qabs (snapToGrid 13 10 - 13) <= 10 / 2).
Proof.
  split; [reflexivity | apply (snapToGrid_nearest 13 10); reflexivity].
Defined.

Lemma snapPointToGrid_spec_witness :
  let p := mkPoint 13 27 in
  0 < size grid10 /\
  ((snapEnabled grid10 = false -> snapPointToGrid p grid10 = p) /\
   (snapEnabled grid10 = true ->
    let q := snapPointToGrid p grid10 in
    multiple_of (size grid10) (px q) /\ multiple_of (size grid10) (py q) /\
    Qabs (px q - px p) <= size grid10 / 2 /\
    Qabs (py q - py p) <= size grid10 / 2)).
Proof.
  intro p. split; [reflexivity|].
  apply (snapPointToGrid_spec p grid10). reflexivity.
Defined.

Lemma snapBoundsToGrid_idempotent_witness :
  let b := mkBounds 13 27 44 38 in
  (0 < size grid10 /\ multiple_of (size grid10) 20) /\
  bounds_eq (snapBoundsToGrid 20 (snapBoundsToGrid 20 b grid10) grid10)
            (snapBoundsToGrid 20 b grid10).
Proof.
  intro b.
  assert (H1 : 0 < size grid10) by reflexivity.
  assert (H2 : multiple_of (size grid10) 20) by (exists 2%Z; reflexivity).
  split; [split; assumption|].
  exact (snapBoundsToGrid_idempotent 20 b grid10 H1 H2).
Defined.

Lemma getBoundingBox_contains_witness :
  let points := [mkPoint 0 0; mkPoint 4 3; mkPoint 1 5] in
  In (mkPoint 4 3) points /\
  isPointInBounds (mkPoint 4 3) (getBoundingBox points) = true.
Proof.
  intro points.
  assert (H : In (mkPoint 4 3) points) by (simpl; auto).
  split; [exact H | exact (getBoundingBox_contains points _ H)].
Defined.

Lemma getBoundingBox_movePolygon_witness :
  let points := [mkPoint 0 0; mkPoint 4 3; mkPoint 1 5] in
  let delta := mkPoint 10 (-2) in
  points <> [] /\
  bounds_eq (getBoundingBox (movePolygon points delta))
            (moveBounds (getBoundingBox points) delta).
Proof.
  intros points delta.
  assert (H : points <> []) by discriminate.
  split; [exact H | exact (getBoundingBox_movePolygon points delta H)].
Defined.

Lemma calculateCentroid_movePolygon_witness :
  let points := [mkPoint 0 0; mkPoint 4 3; mkPoint 1 5] in
  let delta := mkPoint 10 (-2) in
  points <> [] /\
  (px (calculateCentroid (movePolygon points delta))
     == px (calculateCentroid points) + px delta /\
   py (calculateCentroid (movePolygon points delta))
     == py (calculateCentroid points) + py delta).
Proof.
  intros points delta.
  assert (H : points <> []) by discriminate.
  split; [exact H | exact (calculateCentroid_movePolygon points delta H)].
Defined.

Lemma isPointInPolygon_rectangle_witness :
  let b := mkBounds 0 0 10 10 in
  let p := mkPoint 0 5 in
  (0 < width b /\ 0 < height b) /\
  (isPointInPolygon p (boundsToPoints b) = true <->
   x b <= px p /\ px p < x b + width b /\
   y b <= py p /\ py p < y b + height b).
Proof.
  intros b p. split; [split; reflexivity|].
  apply (isPointInPolygon_rectangle p b); reflexivity.
Defined.

Lemma edge_sharing_boxes_adjacent_witness :
  let a := mkBounds 0 0 40 40 in
  let b := mkBounds 40 10 40 40 in
  (0 <= 5 /\
   (((x a + width a == x b \/ x b + width b == x a) /\
     y b < y a + height a /\ y a < y b + height b) \/
    ((y a + height a == y b \/ y b + height b == y a) /\
     x b < x a + width a /\ x a < x b + width b))) /\
  boundsAdjacent a b 5 = true.
Proof.
  intros a b.
  assert (H1 : 0 <= 5) by (simpl; discriminate).
  assert (H2 : ((x a + width a == x b \/ x b + width b == x a) /\
                y b < y a + height a /\ y a < y b + height b) \/
               ((y a + height a == y b \/ y b + height b == y a) /\
                x b < x a + width a /\ x a < x b + width b)).
  { left. split; [left; reflexivity | split; reflexivity]. }
  split; [split; assumption|].
  exact (edge_sharing_boxes_adjacent a b 5 H1 H2).
Defined.

Lemma boundsAdjacent_tolerance_witness :
  let a := mkBounds 0 0 40 40 in
  let b := mkBounds 43 10 40 40 in
  (3 <= 5 /\ boundsAdjacent a b 3 = true) /\ boundsAdjacent a b 5 = true.
Proof.
  intros a b.
  assert (H1 : 3 <= 5) by (simpl; discriminate).
  assert (H2 : boundsAdjacent a b 3 = true) by reflexivity.
  split; [split; assumption|].
  exact (proj1 (boundsAdjacent_tolerance a b 3 5) H1 H2).
Defined.

Lemma resizeBounds_min_size_witness :
  let r := resizeBounds 20 (mkBounds 100 100 50 50) Handle.left
             (mkPoint 43 0) grid10 in
  (snapEnabled grid10 = true -> ~ size grid10 == 0) /\
  (20 <= width r /\ 20 <= height r).
Proof.
  intro r.
  assert (H : snapEnabled grid10 = true -> ~ size grid10 == 0)
    by (intros _ E; discriminate E).
  split; [exact H|].
  exact (resizeBounds_min_size 20 (mkBounds 100 100 50 50) Handle.left
           (mkPoint 43 0) grid10 H).
Defined.

Lemma resizeBounds_opposite_edge_witness :
  let bounds := mkBounds 100 100 50 50 in
  let r := resizeBounds 20 bounds Handle.left (mkPoint 40 0) gridOff in
  snapEnabled gridOff = false /\
  (x r + width r == x bounds + width bounds /\ y r == y bounds).
Proof.
  intros bounds r. split; [reflexivity|].
  apply (resizeBounds_opposite_edge 20 bounds Handle.left (mkPoint 40 0)
           gridOff).
  reflexivity.
Defined.

Lemma getResizeHandles_on_border_witness :
  let bounds := mkBounds 0 0 40 20 in
  let handle := ResizeHandle.mk Handle.top (0 + 40 / 2) 0 "ns-resize" in
  (0 <= width bounds /\ 0 <= height bounds /\
   In handle (getResizeHandles bounds)) /\
  (let p := mkPoint (ResizeHandle.x handle) (ResizeHandle.y handle) in
   isPointInBounds p bounds = true /\
   (px p == x bounds \/ px p == x bounds + width bounds \/
    py p == y bounds \/ py p == y bounds + height bounds)).
Proof.
  intros bounds handle.
  assert (H1 : 0 <= width bounds) by (simpl; discriminate).
  assert (H2 : 0 <= height bounds) by (simpl; discriminate).
  assert (H3 : In handle (getResizeHandles bounds))
    by (right; left; reflexivity).
  split; [repeat split; assumption|].
  exact (getResizeHandles_on_border bounds handle H1 H2 H3).
Defined.

Lemma screen_canvas_roundtrip_witness :
  let p := mkPoint 300 200 in
  let viewport := mkViewport 2 10 20 in
  let canvasRect := DOMRect.mk 50 60 in
  (zoom viewport == 0 -> False) /\
  ((px (canvasToScreen (screenToCanvas p viewport canvasRect) viewport
          canvasRect) == px p /\
    py (canvasToScreen (screenToCanvas p viewport canvasRect) viewport
          canvasRect) == py p) /\
   (px (screenToCanvas (canvasToScreen p viewport canvasRect) viewport
          canvasRect) == px p /\
    py (screenToCanvas (canvasToScreen p viewport canvasRect) viewport
          canvasRect) == py p)).
Proof.
  intros p viewport canvasRect.
  assert (H : zoom viewport == 0 -> False) by (intro E; discriminate E).
  split; [exact H|].
  exact (screen_canvas_roundtrip p viewport canvasRect H).
Defined.

Lemma estimateSizeFromArea_spec_witness :
  let small := mkSizeRange "S" 0 100 in
  let medium := mkSizeRange "M" 100 200 in
  let large := mkSizeRange "L" 200 400 in
  (([small; medium; large] = [small] ++ medium :: [large]) /\
   (forall r, In r [small] -> ~ (min r <= 150 <= max r)) /\
   min medium <= 150 <= max medium) /\
  estimateSizeFromArea 150 [small; medium; large] = "M"%string.
Proof.
  intros small medium large.
  assert (H1 : [small; medium; large] = [small] ++ medium :: [large])
    by reflexivity.
  assert (H2 : forall r, In r [small] -> ~ (min r <= 150 <= max r)).
  { intros r [<-|[]] [_ H]. apply H. reflexivity. }
  assert (H3 : min medium <= 150 <= max medium)
    by (split; simpl; discriminate).
  split; [split; [exact H1 | split; [exact H2 | exact H3]]|].
  exact (proj1 (estimateSizeFromArea_spec 150 [small; medium; large])
           [small] medium [large] H1 H2 H3).
Defined.

Lemma inches_and_sqft_scales_witness :
  (768 == 0 -> False) /\
  pixelsToInches 40 768 * pixelsToInches 30 768
  == 180 * pixelsToSqft (40 * 30) 768.
Proof.
  assert (H : 768 == 0 -> False) by (intro E; discriminate E).
  split; [exact H | exact (inches_and_sqft_scales 768 40 30 H)].
Defined.

(** ** The adjacency graph of two rooms side by side *)

Lemma findAdjacentRooms_spec_witness :
  let h := [mkBounds 0 0 40 40; mkBounds 40 0 40 40] in
  let room := sampleRoom "a" 0%nat false in
  let allRooms := [room; sampleRoom "b" 1%nat false] in
  (0 < width (deref h (bounds room)) /\
   0 < height (deref h (bounds room))) /\
  ((forall c, In c (findAdjacentRooms h room allRooms 5) ->
      roomId c <> id room /\
      0 <= offset c <= 1 /\
      exists other, In other allRooms /\ id other = roomId c /\
        boundsAdjacent (deref h (bounds room)) (deref h (bounds other)) 5
          = true) /\
   (forall other, In other allRooms -> id other <> id room ->
      boundsAdjacent (deref h (bounds room)) (deref h (bounds other)) 5
        = true ->
      exists c, In c (findAdjacentRooms h room allRooms 5) /\
                roomId c = id other)).
Proof.
  intros h room allRooms. split; [split; reflexivity|].
  apply (findAdjacentRooms_spec h room allRooms 5); reflexivity.
Defined.

Lemma findAdjacentRooms_mutual_witness :
  let h := [mkBounds 0 0 40 40; mkBounds 40 0 40 40] in
  let room := sampleRoom "a" 0%nat false in
  let other := sampleRoom "b" 1%nat false in
  let allRooms := [room; other] in
  let c := nth 0 (findAdjacentRooms h room allRooms 5)
               (mkConnection "" Side.top 0) in
  (NoDup (map id allRooms) /\ In room allRooms /\ In other allRooms /\
   0 < width (deref h (bounds room)) /\ 0 < height (deref h (bounds room)) /\
   0 < width (deref h (bounds other)) /\
   0 < height (deref h (bounds other)) /\
   In c (findAdjacentRooms h room allRooms 5) /\
   roomId c = id other /\ side c = Side.right) /\
  exists c', In c' (findAdjacentRooms h other allRooms 5) /\
             roomId c' = id room /\
             side c' = oppositeSide (side c).
Proof.
  intros h room other allRooms c.
  assert (H1 : NoDup (map id allRooms)).
  { repeat constructor; simpl; [intros [H|[]]; discriminate | tauto]. }
  assert (H2 : In room allRooms) by (left; reflexivity).
  assert (H3 : In other allRooms) by (right; left; reflexivity).
  assert (H4 : 0 < width (deref h (bounds room))) by reflexivity.
  assert (H5 : 0 < height (deref h (bounds room))) by reflexivity.
  assert (H6 : 0 < width (deref h (bounds other))) by reflexivity.
  assert (H7 : 0 < height (deref h (bounds other))) by reflexivity.
  assert (H8 : In c (findAdjacentRooms h room allRooms 5))
    by (left; reflexivity).
  assert (H9 : roomId c = id other) by reflexivity.
  split; [repeat split; assumption || reflexivity|].
  exact (findAdjacentRooms_mutual h room other allRooms 5 c
           H1 H2 H3 H4 H5 H6 H7 H8 H9).
Defined.

Lemma buildConnectivityGraph_lookup_witness :
  let h := [mkBounds 0 0 40 40; mkBounds 40 0 40 40] in
  let rooms := [sampleRoom "a" 0%nat false; sampleRoom "b" 1%nat false] in
  NoDup (map id rooms) /\
  ((forall r, In r rooms ->
      map_get (buildConnectivityGraph h rooms) (id r)
      = Some (findAdjacentRooms h r rooms 5)) /\
   (forall k, (forall r, In r rooms -> id r <> k) ->
      map_get (buildConnectivityGraph h rooms) k = None)).
Proof.
  intros h rooms.
  assert (H : NoDup (map id rooms)).
  { repeat constructor; simpl; [intros [H|[]]; discriminate | tauto]. }
  split; [exact H | exact (buildConnectivityGraph_lookup h rooms H)].
Defined.

Lemma calculateConnectedPosition_adjacent_witness :
  let h := [mkBounds 40 0 40 40] in
  let movedBounds := mkBounds 0 40 40 40 in
  let connectedRoom := sampleRoom "b" 0%nat false in
  let connection := mkConnection "b" Side.right (1 # 2) in
  let pos := calculateConnectedPosition h movedBounds connectedRoom
               connection in
  let placed := mkBounds (px pos) (py pos) 40 40 in
  (0 < width movedBounds /\ 0 < height movedBounds /\
   0 < width (deref h (bounds connectedRoom)) /\
   0 < height (deref h (bounds connectedRoom)) /\
   0 <= offset connection <= 1 /\ 0 <= 5) /\
  (boundsOverlap movedBounds placed = false /\
   boundsAdjacent movedBounds placed 5 = true /\
   x placed == x movedBounds + width movedBounds).
Proof.
  intros h movedBounds connectedRoom connection pos placed.
  assert (H1 : 0 < width movedBounds) by reflexivity.
  assert (H2 : 0 < height movedBounds) by reflexivity.
  assert (H3 : 0 < width (deref h (bounds connectedRoom))) by reflexivity.
  assert (H4 : 0 < height (deref h (bounds connectedRoom))) by reflexivity.
  assert (H5 : 0 <= offset connection <= 1) by (split; simpl; discriminate).
  assert (H6 : 0 <= 5) by (simpl; discriminate).
  split; [repeat split; assumption || apply H5|].
  exact (calculateConnectedPosition_adjacent h movedBounds connectedRoom
           connection 5 H1 H2 H3 H4 H5 H6).
Defined.

(** ** Placing a room on a free spot *)

Lemma findNonOverlappingPosition_free_spot_witness :
  let h := [mkBounds 100 100 40 40; mkBounds 0 0 40 40] in
  let room := sampleRoom "n" 0%nat false in
  let allRooms := [sampleRoom "a" 1%nat false] in
  ((forall other, In other allRooms -> (bounds other < length h)%nat) /\
   wouldCollide h (id room) (deref h 0%nat) allRooms = false) /\
  call (findNonOverlappingPosition 20 768 room 0%nat allRooms grid10 20%nat)
       h
  = Some (length h, h ++ [deref h 0%nat]).
Proof.
  intros h room allRooms.
  assert (H1 : forall other, In other allRooms ->
                 (bounds other < length h)%nat).
  { intros other [<-|[]]. simpl. lia. }
  assert (H2 : wouldCollide h (id room) (deref h 0%nat) allRooms = false)
    by reflexivity.
  split; [split; assumption|].
  exact (findNonOverlappingPosition_free_spot 20 768 room 0%nat allRooms
           grid10 20%nat h H1 H2).
Defined.

(** ** More about calls of the solver on the sample layout *)

Lemma caller_objects_after_call_witness :
  let h := [mkBounds 0 40 40 40; mkBounds 0 0 40 40; mkBounds 40 0 40 40] in
  let rooms := [sampleRoom "a" 1%nat false; sampleRoom "b" 2%nat false] in
  (0 < length h)%nat /\
  exists result h',
    call (applySpringNetwork 20 768 "a" 0%nat rooms grid10 8%nat) h
      = Some (result, h') /\
    (length h <= length h')%nat /\
    (forall l, (l < length h)%nat -> l <> 0%nat ->
       deref h' l = deref h l) /\
    deref h' 0%nat =
      (if snapEnabled grid10 then deref h 0%nat
       else clampBox 768 (deref h 0%nat)).
Proof.
  intros h rooms. split; [simpl; lia|].
  apply (caller_objects_after_call 20 768 "a" 0%nat rooms grid10 8%nat h).
  simpl; lia.
Defined.

Lemma result_rooms_within_canvas_witness :
  let h := [mkBounds 750 40 40 40; mkBounds 0 0 40 40; mkBounds 40 0 40 40] in
  let rooms := [sampleRoom "a" 1%nat false; sampleRoom "b" 2%nat false] in
  ((0 < length h)%nat /\
   (forall r, In r rooms ->
      ~ width (deref h (bounds r)) == 0 /\
      ~ height (deref h (bounds r)) == 0) /\
   (snapEnabled grid10 = true -> ~ size grid10 == 0)) /\
  exists result h',
    call (applySpringNetwork 20 768 "a" 0%nat rooms grid10 8%nat) h
      = Some (result, h') /\
    forall r, In r result ->
      let b := deref h' (bounds r) in
      0 <= x b /\ 0 <= y b /\
      (width b <= 768 -> x b + width b <= 768) /\
      (height b <= 768 -> y b + height b <= 768) /\
      (snapEnabled grid10 = true -> 20 <= width b /\ 20 <= height b).
Proof.
  intros h rooms.
  assert (H1 : (0 < length h)%nat) by (simpl; lia).
  assert (H2 : forall r, In r rooms ->
                 ~ width (deref h (bounds r)) == 0 /\
                 ~ height (deref h (bounds r)) == 0).
  { intros r [<-|[<-|[]]]; split; intro E; discriminate E. }
  assert (H3 : snapEnabled grid10 = true -> ~ size grid10 == 0)
    by (intros _ E; discriminate E).
  split; [split; [exact H1 | split; [exact H2 | exact H3]]|].
  exact (result_rooms_within_canvas 20 768 "a" rooms grid10 0%nat 8%nat h
           H1 H2 H3).
Defined.

Lemma locked_rooms_are_snapped_witness :
  let h := [mkBounds 0 200 40 40; mkBounds 0 0 40 40; mkBounds 103 0 40 40] in
  let rooms := [sampleRoom "a" 1%nat false; sampleRoom "b" 2%nat true] in
  ((0 < length h)%nat /\ NoDup (map id rooms) /\
   (forall r, In r rooms -> (bounds r < length h)%nat)) /\
  exists result h',
    call (applySpringNetwork 20 768 "a" 0%nat rooms grid10 8%nat) h
      = Some (result, h') /\
    Forall2 (fun room r =>
      isLocked room = true -> id room <> "a"%string ->
      bounds_eq (deref h' (bounds r))
                (snapClamp 20 768 (deref h (bounds room)) grid10))
      rooms result.
Proof.
  intros h rooms.
  assert (H1 : (0 < length h)%nat) by (simpl; lia).
  assert (H2 : NoDup (map id rooms)).
  { repeat constructor; simpl; [intros [H|[]]; discriminate | tauto]. }
  assert (H3 : forall r, In r rooms -> (bounds r < length h)%nat).
  { intros r [<-|[<-|[]]]; simpl; lia. }
  split; [repeat split; assumption|].
  exact (locked_rooms_are_snapped 20 768 "a" rooms grid10 0%nat 8%nat h
           H1 H2 H3).
Defined.
